(** * go-disk-buffer: a two-tier (memory, then temporary file) byte buffer

    A shallow embedding of [buffer.go] and the properties of its
    specification.

    Modelling conventions
    - Go's [int] and [int64] are [Z].  Every integer of the program is a
      length of a slice, a sum of such lengths or a caller's offset; the
      64-bit wrap-around of [b.size] would need 2^63 written bytes and is
      not modelled.
    - [bytes.Buffer] is the list of its unread bytes ([b.buf[b.off:]]):
      [Len] is the length of that list, [Bytes] is the list, [Write]
      appends to it, [Read] removes a prefix of it.
    - A destination slice [data []byte] is given by its length; an operation
      returns the bytes it stored in [data[:n]].
    - The file system and the [sio] cipher are outside the program.  Their
      answers during one call are the argument [io] of that call (record
      [IO]): whether [ioutil.TempFile], [sio.EncryptWriter], [os.Open],
      [sio.DecryptReader(At)] succeed and how many bytes the file accepts.
      The content of the temporary file is the field [file_data]: the
      plaintext handed to the write side, which is what the read side
      yields (the cipher is transparent by its contract).  Reads of an
      opened regular file are complete: they return the bytes asked for, or
      all the bytes that are left.
    - A run-time panic is the result [Panic]; the state returned with it is
      the state the deferred functions leave behind. *)

From Stdlib Require Import ZArith List Bool Lia.
From Stdlib Require Import Strings.String Strings.Byte.
Import ListNotations.
Local Open Scope Z_scope.

(** ** Data *)

Inductive error : Type :=
| ErrBufferFinished      (* ErrBufferFinished = errors.New("buffer is finished") *)
| EOF                    (* io.EOF *)
| ErrNegativeOffset      (* fmt.Errorf("negative offset: %d", off) *)
| ErrTempFile            (* "can't create a temp file" *)
| ErrEncryptStream       (* "can't create an encryption stream" *)
| ErrOpenTemp            (* "can't open a temp file '%s'" *)
| ErrDecryptStream       (* "can't create a decryption stream" *)
| ErrNoReaderAt          (* "readFile does not implement io.ReaderAt" *)
| ErrFileWrite.          (* an error of writeFile.Write *)

(** What a call leaves to its caller: a returned value, or a panic. *)
Inductive result (A : Type) : Type :=
| Ret (a : A)
| Panic.
Arguments Ret {A} a.
Arguments Panic {A}.

(** The dynamic type behind [b.writeFile]. *)
Inductive WriteHandle : Type :=
| OsFileW                (* *os.File *)
| SioEncryptWriter.      (* the writer of sio.EncryptWriter *)

(** The dynamic type behind [b.readFile]. *)
Inductive ReadKind : Type :=
| OsFileR                    (* *os.File: Read and ReadAt *)
| SioDecryptReaderWrapper    (* Read only *)
| SioDecryptReaderAtWrapper. (* Read (own offset) and ReadAt *)

Record ReadHandle : Type := mkReadHandle {
  kind : ReadKind;
  pos : nat   (* position of the next sequential Read in the plaintext *)
}.

(** [_, ok := b.readFile.(io.ReaderAt)] *)
Definition isReaderAt (k : ReadKind) : bool :=
  match k with
  | OsFileR => true
  | SioDecryptReaderWrapper => false
  | SioDecryptReaderAtWrapper => true
  end.

(** The answers of the environment during one call. *)
Record IO : Type := mkIO {
  tempfile : option string;   (* ioutil.TempFile: the random part of the name, or failure *)
  encrypt_writer_ok : bool;   (* sio.EncryptWriter succeeds *)
  file_write : option nat;    (* writeFile.Write: None accepts the slice, Some k fails after k bytes *)
  open_ok : bool;             (* os.Open of an existing file succeeds *)
  decrypt_reader_ok : bool    (* sio.DecryptReader and sio.DecryptReaderAt succeed *)
}.

Definition reliable (io : IO) : Prop :=
  tempfile io <> None /\ encrypt_writer_ok io = true /\ file_write io = None
  /\ open_ok io = true /\ decrypt_reader_ok io = true.

(** [type Buffer struct], with the content of the temporary file. *)
Record Buffer : Type := mkBuffer {
  maxInMemorySize : Z;
  writingFinished : bool;
  readingFinished : bool;
  size : Z;
  offset : Z;
  tempFileDir : string;
  encrypt : bool;
  encryptionKey : list byte;
  buff : list byte;
  writeFile : option WriteHandle;
  readFile : option ReadHandle;
  useFile : bool;
  filename : string;
  file_data : list byte   (* plaintext of the file [filename]; [] when there is none *)
}.

Definition len (l : list byte) : Z := Z.of_nat (List.length l).

Definition set_writingFinished (v : bool) (b : Buffer) : Buffer :=
  mkBuffer (maxInMemorySize b) v (readingFinished b) (size b) (offset b)
    (tempFileDir b) (encrypt b) (encryptionKey b) (buff b) (writeFile b)
    (readFile b) (useFile b) (filename b) (file_data b).

Definition set_readingFinished (v : bool) (b : Buffer) : Buffer :=
  mkBuffer (maxInMemorySize b) (writingFinished b) v (size b) (offset b)
    (tempFileDir b) (encrypt b) (encryptionKey b) (buff b) (writeFile b)
    (readFile b) (useFile b) (filename b) (file_data b).

Definition set_size (v : Z) (b : Buffer) : Buffer :=
  mkBuffer (maxInMemorySize b) (writingFinished b) (readingFinished b) v (offset b)
    (tempFileDir b) (encrypt b) (encryptionKey b) (buff b) (writeFile b)
    (readFile b) (useFile b) (filename b) (file_data b).

Definition set_offset (v : Z) (b : Buffer) : Buffer :=
  mkBuffer (maxInMemorySize b) (writingFinished b) (readingFinished b) (size b) v
    (tempFileDir b) (encrypt b) (encryptionKey b) (buff b) (writeFile b)
    (readFile b) (useFile b) (filename b) (file_data b).

Definition set_tempFileDir (v : string) (b : Buffer) : Buffer :=
  mkBuffer (maxInMemorySize b) (writingFinished b) (readingFinished b) (size b) (offset b)
    v (encrypt b) (encryptionKey b) (buff b) (writeFile b)
    (readFile b) (useFile b) (filename b) (file_data b).

Definition set_encrypt (v : bool) (b : Buffer) : Buffer :=
  mkBuffer (maxInMemorySize b) (writingFinished b) (readingFinished b) (size b) (offset b)
    (tempFileDir b) v (encryptionKey b) (buff b) (writeFile b)
    (readFile b) (useFile b) (filename b) (file_data b).

Definition set_encryptionKey (v : list byte) (b : Buffer) : Buffer :=
  mkBuffer (maxInMemorySize b) (writingFinished b) (readingFinished b) (size b) (offset b)
    (tempFileDir b) (encrypt b) v (buff b) (writeFile b)
    (readFile b) (useFile b) (filename b) (file_data b).

Definition set_buff (v : list byte) (b : Buffer) : Buffer :=
  mkBuffer (maxInMemorySize b) (writingFinished b) (readingFinished b) (size b) (offset b)
    (tempFileDir b) (encrypt b) (encryptionKey b) v (writeFile b)
    (readFile b) (useFile b) (filename b) (file_data b).

Definition set_writeFile (v : option WriteHandle) (b : Buffer) : Buffer :=
  mkBuffer (maxInMemorySize b) (writingFinished b) (readingFinished b) (size b) (offset b)
    (tempFileDir b) (encrypt b) (encryptionKey b) (buff b) v
    (readFile b) (useFile b) (filename b) (file_data b).

Definition set_readFile (v : option ReadHandle) (b : Buffer) : Buffer :=
  mkBuffer (maxInMemorySize b) (writingFinished b) (readingFinished b) (size b) (offset b)
    (tempFileDir b) (encrypt b) (encryptionKey b) (buff b) (writeFile b)
    v (useFile b) (filename b) (file_data b).

Definition set_useFile (v : bool) (b : Buffer) : Buffer :=
  mkBuffer (maxInMemorySize b) (writingFinished b) (readingFinished b) (size b) (offset b)
    (tempFileDir b) (encrypt b) (encryptionKey b) (buff b) (writeFile b)
    (readFile b) v (filename b) (file_data b).

Definition set_filename (v : string) (b : Buffer) : Buffer :=
  mkBuffer (maxInMemorySize b) (writingFinished b) (readingFinished b) (size b) (offset b)
    (tempFileDir b) (encrypt b) (encryptionKey b) (buff b) (writeFile b)
    (readFile b) (useFile b) v (file_data b).

Definition set_file_data (v : list byte) (b : Buffer) : Buffer :=
  mkBuffer (maxInMemorySize b) (writingFinished b) (readingFinished b) (size b) (offset b)
    (tempFileDir b) (encrypt b) (encryptionKey b) (buff b) (writeFile b)
    (readFile b) (useFile b) (filename b) v.

(** ** Construction *)

(** The largest number of bytes [make([]byte, n)] gives on the 64-bit
    platforms the model is about ([maxAlloc] of the runtime, [1 << 48]): for
    a larger [n] it panics.  Memory for a slice within that limit is taken
    to be there, as for every other allocation of the program: running out
    of memory is not modelled. *)
Definition maxAlloc : Z := 2 ^ 48.

(** [NewBufferWithMaxMemorySize].  [b.buff.Grow(maxInMemorySize / 2)] panics
    on a negative count; Go's [/] truncates, so that is [maxInMemorySize <= -2].
    It also panics ([bytes.ErrTooLarge]) when the count is more than a slice
    can have. *)
Definition NewBufferWithMaxMemorySize (maxInMemorySize : Z) : result Buffer :=
  if (Z.quot maxInMemorySize 2 <? 0) || (maxAlloc <? Z.quot maxInMemorySize 2)
  then Panic
  else Ret (mkBuffer maxInMemorySize false false 0 0 EmptyString false
              (repeat x00 32) [] None None false EmptyString []).

(** [EnableEncryption]; [key] is what [rand.Read] delivers, if it succeeds. *)
Definition EnableEncryption (b : Buffer) (key : option (list byte)) : Buffer * bool :=
  let b := set_encrypt true b in
  match key with
  | None => (b, false)
  | Some k => (set_encryptionKey (firstn 32 (k ++ repeat x00 32)) b, true)
  end.

(** [ChangeTempDir]; [abs] is the absolute path of [dir] when [dir] can be
    opened and is a directory, and nothing otherwise. *)
Definition ChangeTempDir (b : Buffer) (abs : option string) : Buffer * bool :=
  match abs with
  | None => (b, false)
  | Some path => (set_tempFileDir path b, true)
  end.

(** The name [ioutil.TempFile(b.tempFileDir, "go-disk-buffer-*.tmp")] gives
    to the file; ["/tmp"] stands for [os.TempDir()]. *)
Definition tempName (dir rnd : string) : string :=
  ((if String.eqb dir EmptyString then "/tmp" else dir) ++ "/go-disk-buffer-" ++ rnd ++ ".tmp")%string.

(** ** Write *)

(** [n1, err := b.writeFile.Write(data); n += n1; return], followed by the
    deferred [b.size += n].  A nil [b.writeFile] makes the call panic. *)
Definition writeToFile (b : Buffer) (data : list byte) (n : Z) (io : IO)
  : Buffer * result (Z * option error) :=
  match writeFile b with
  | None => (set_size (size b + n) b, Panic)
  | Some _ =>
      match file_write io with
      | None =>
          let b := set_file_data (file_data b ++ data) b in
          (set_size (size b + (n + len data)) b, Ret (n + len data, None))
      | Some k =>
          let accepted := firstn k data in
          let b := set_file_data (file_data b ++ accepted) b in
          (set_size (size b + (n + len accepted)) b,
           Ret (n + len accepted, Some ErrFileWrite))
      end
  end.

Definition Write (b : Buffer) (data : list byte) (io : IO)
  : Buffer * result (Z * option error) :=
  if writingFinished b then (b, Ret (0, Some ErrBufferFinished))
  else if negb (useFile b) then
    if len (buff b) + len data <=? maxInMemorySize b then
      (* n, err = b.buff.Write(data) *)
      let b := set_buff (buff b ++ data) b in
      (set_size (size b + len data) b, Ret (len data, None))
    else
      let bound := maxInMemorySize b - len (buff b) in
      (* data[:bound]: here bound < len(data); a negative bound panics, n = 0 *)
      if bound <? 0 then (b, Panic)
      else
        let b := set_buff (buff b ++ firstn (Z.to_nat bound) data) b in
        let n := bound in
        let data := skipn (Z.to_nat bound) data in
        let b := set_useFile true b in
        match tempfile io with
        | None => (set_size (size b + n) b, Ret (n, Some ErrTempFile))
        | Some rnd =>
            if encrypt b && negb (encrypt_writer_ok io)
            then (set_size (size b + n) b, Ret (n, Some ErrEncryptStream))
            else
              let b := set_writeFile
                         (Some (if encrypt b then SioEncryptWriter else OsFileW)) b in
              let b := set_filename (tempName (tempFileDir b) rnd) b in
              let b := set_file_data [] b in
              writeToFile b data n io
        end
  else writeToFile b data 0 io.

Definition DefaultMaxMemorySize : Z := Z.shiftl 2 20.

(** [NewBuffer]: a buffer with the default threshold that holds [buf]; it
    panics when [Write] reports an error. *)
Definition NewBuffer (buf : list byte) (io : IO) : result Buffer :=
  match NewBufferWithMaxMemorySize DefaultMaxMemorySize with
  | Panic => Panic
  | Ret b =>
      match buf with
      | [] => Ret b
      | _ :: _ =>
          match Write b buf io with
          | (b, Ret (_, None)) => Ret b
          | _ => Panic
          end
      end
  end.

(** ** Sequential reading *)

(** [if !b.writingFinished { ... }] of [Read] and of [ReadAt]. *)
Definition finishWriting (b : Buffer) : Buffer :=
  if writingFinished b then b
  else set_writingFinished true (set_writeFile None b).

(** [readFromBuffer]: [bytes.Buffer.Read] on a buffer that is not empty. *)
Definition readFromBuffer (b : Buffer) (n : nat) : Buffer * list byte :=
  (set_buff (skipn n (buff b)) b, firstn n (buff b)).

(** [os.Open(b.filename)]: the file must exist. *)
Definition canOpen (b : Buffer) (io : IO) : bool :=
  negb (String.eqb (filename b) EmptyString) && open_ok io.

(** [b.readFile.Read(data)] on an open handle: a complete read of the
    plaintext, [io.EOF] when nothing is left for a slice that is not empty.
    This is what the handle does on a file that is read with the encryption
    setting and the key it was written with, which is the case as long as
    [EnableEncryption] is not called after the file was created; what [sio]
    answers on another file is not modelled. *)
Definition handleRead (b : Buffer) (h : ReadHandle) (n : nat)
  : Buffer * list byte * option error :=
  let out := firstn n (skipn (pos h) (file_data b)) in
  (set_readFile (Some (mkReadHandle (kind h) (pos h + List.length out)%nat)) b,
   out,
   if (0 <? n)%nat && (List.length out =? 0)%nat then Some EOF else None).

Definition readFromFile (b : Buffer) (n : nat) (io : IO)
  : Buffer * list byte * option error :=
  match readFile b with
  | Some h => handleRead b h n
  | None =>
      if canOpen b io then
        if encrypt b then
          if decrypt_reader_ok io
          then handleRead b (mkReadHandle SioDecryptReaderWrapper 0) n
          else (b, [], Some ErrDecryptStream)
        else handleRead b (mkReadHandle OsFileR 0) n
      else (b, [], Some ErrOpenTemp)
  end.

(** The deferred function of [Read]; [n] bytes were returned for a slice of
    length [want]. *)
Definition readDeferred (b : Buffer) (n want : nat) : Buffer :=
  let b := set_offset (offset b + Z.of_nat n) b in
  let b := if (n <? want)%nat then set_readingFinished true b else b in
  if readingFinished b then
    match readFile b with
    | Some _ =>
        (* b.readFile.Close(); os.Remove(b.filename) *)
        set_filename EmptyString (set_readFile None (set_file_data [] b))
    | None => b
    end
  else b.

Definition Read (b : Buffer) (want : nat) (io : IO)
  : Buffer * list byte * option error :=
  if readingFinished b then (b, [], Some EOF)
  else
    let b := finishWriting b in
    let '(b, out, err) :=
      match buff b with
      | _ :: _ =>
          let '(b, out) := readFromBuffer b want in
          if (List.length out =? want)%nat || negb (useFile b) then (b, out, None)
          else
            let '(b, out1, err) := readFromFile b (want - List.length out) io in
            (b, out ++ out1, err)
      | [] =>
          if useFile b then readFromFile b want io
          else (b, [], Some EOF)
      end in
    (readDeferred b (List.length out) want, out, err).

(** ** Random access *)

(** [readerAt.ReadAt(data, fileOffset)] on the plaintext: an error for a
    negative offset, [io.EOF] with the bytes that are there when fewer than
    asked for are left.  As for [handleRead], the file is taken to be read
    with the setting and the key it was written with. *)
Definition fileReadAt (b : Buffer) (n : nat) (fileOffset : Z)
  : list byte * option error :=
  if fileOffset <? 0 then ([], Some ErrNegativeOffset)
  else
    let out := firstn n (skipn (Z.to_nat fileOffset) (file_data b)) in
    (out, if (List.length out <? n)%nat then Some EOF else None).

(** [if b.readFile == nil { ... }] of [ReadAt]: the handle to read from,
    opened and cached in [b.readFile] when there was none. *)
Definition openReaderAt (b : Buffer) (io : IO) : (Buffer * ReadHandle) + error :=
  match readFile b with
  | Some h => inl (b, h)
  | None =>
      if canOpen b io then
        if encrypt b then
          if decrypt_reader_ok io
          then let h := mkReadHandle SioDecryptReaderAtWrapper 0 in
               inl (set_readFile (Some h) b, h)
          else inr ErrDecryptStream
        else let h := mkReadHandle OsFileR 0 in
             inl (set_readFile (Some h) b, h)
      else inr ErrOpenTemp
  end.

Definition ReadAt (b : Buffer) (want : nat) (off : Z) (io : IO)
  : Buffer * list byte * option error :=
  if off <? 0 then (b, [], Some ErrNegativeOffset)
  else if (want =? 0)%nat then (b, [], None)
  else if off >=? size b then (b, [], Some EOF)
  else
    let b := finishWriting b in
    let bufferSize := len (buff b) in
    (* Case 1 *)
    let out1 :=
      if off <? bufferSize then
        let bufferBytesToRead := Z.min (bufferSize - off) (Z.of_nat want) in
        firstn (Z.to_nat bufferBytesToRead) (skipn (Z.to_nat off) (buff b))
      else [] in
    let rest := (want - List.length out1)%nat in
    let off := off + len out1 in
    let finish (b : Buffer) (out : list byte) :=
      (b, out, if (List.length out <? want)%nat then Some EOF else None) in
    (* Case 2 *)
    if (0 <? rest)%nat && useFile b then
      match openReaderAt b io with
      | inr e => (b, out1, Some e)
      | inl (b, h) =>
          if isReaderAt (kind h) then
            let fileOffset := off - bufferSize in
            let '(out2, err) := fileReadAt b rest fileOffset in
            match err with
            | Some EOF | None => finish b (out1 ++ out2)
            | Some e => (b, out1 ++ out2, Some e)
            end
          else (b, out1, Some ErrNoReaderAt)
      end
    else finish b out1.

(** ** The rest of the read side *)

(** [Next]: [make([]byte, n)] panics for a negative [n] and for an [n]
    beyond [maxAlloc]; [b.buff.Read] answers [io.EOF] on an empty buffer when
    the slice is not empty, and [Next] turns every error into a panic. *)
Definition Next (b : Buffer) (n : Z) : Buffer * result (list byte) :=
  if (n <? 0) || (maxAlloc <? n) then (b, Panic)
  else
    match buff b with
    | [] => if n =? 0 then (b, Ret []) else (b, Panic)
    | _ :: _ =>
        (set_buff (skipn (Z.to_nat n) (buff b)) b,
         Ret (firstn (Z.to_nat n) (buff b)))
    end.

Definition Len (b : Buffer) : Z := size b - offset b.

Definition Cap (b : Buffer) : Z := Len b.

Definition Reset (b : Buffer) : Buffer :=
  let b := set_buff [] b in
  let b := if String.eqb (filename b) EmptyString then b else set_file_data [] b in
  let b := set_writingFinished false b in
  let b := set_readingFinished false b in
  let b := set_writeFile None b in
  let b := set_readFile None b in
  let b := set_useFile false b in
  set_filename EmptyString b.

(** [ReadByte]: [c := make([]byte, 1); _, err := b.Read(c); return c[0], err]. *)
Definition ReadByte (b : Buffer) (io : IO) : Buffer * byte * option error :=
  let '(b, out, err) := Read b 1 io in
  (b, hd x00 out, err).

(** [ReadBytes]; the loop runs at most [fuel] times ([None] when that is
    not enough). *)
Fixpoint ReadBytes (fuel : nat) (b : Buffer) (delim : byte) (io : IO)
  (result : list byte) : option (Buffer * list byte * option error) :=
  match fuel with
  | O => None
  | S fuel =>
      let '(b, c, err) := ReadByte b io in
      match err with
      | Some e => Some (b, result, Some e)
      | None =>
          let result := result ++ [c] in
          if Byte.eqb c delim then Some (b, result, None)
          else ReadBytes fuel b delim io result
      end
  end.

(** ** Programs over a buffer *)

(** A sequence of [Write] calls, each with the answers of its environment. *)
Fixpoint writeAll (b : Buffer) (ws : list (list byte * IO))
  : Buffer * list (result (Z * option error)) :=
  match ws with
  | [] => (b, [])
  | (data, io) :: ws =>
      let '(b, r) := Write b data io in
      let '(b, rs) := writeAll b ws in
      (b, r :: rs)
  end.

(** The loop of [WriteTo] and of the tests' [readByChunks]: [Read] is called
    until it reports an error; [io.EOF] ends the loop without error.  The
    [i]-th call reads into a slice of length [want i] in the environment
    [env i]; [None] when [fuel] calls were not enough. *)
Fixpoint readUntilEOF (fuel : nat) (b : Buffer) (want : nat -> nat)
  (env : nat -> IO) (i : nat) : option (Buffer * list byte * option error) :=
  match fuel with
  | O => None
  | S fuel =>
      let '(b, out, err) := Read b (want i) (env i) in
      match err with
      | Some EOF => Some (b, out, None)
      | Some e => Some (b, out, Some e)
      | None =>
          match readUntilEOF fuel b want env (S i) with
          | Some (b, rest, e) => Some (b, out ++ rest, e)
          | None => None
          end
      end
  end.

(** One call on a buffer, and what it reported. *)
Inductive op : Type :=
| OpWrite (data : list byte) (io : IO)
| OpRead (want : nat) (io : IO)
| OpReadAt (want : nat) (off : Z) (io : IO)
| OpNext (n : Z)
| OpReset
| OpEnableEncryption (key : option (list byte)).

Inductive event : Type :=
| EvWrite (r : result (Z * option error))
| EvRead (out : list byte) (err : option error)
| EvReadAt (out : list byte) (err : option error)
| EvNext (r : result (list byte))
| EvOther.

Definition step (b : Buffer) (o : op) : Buffer * event :=
  match o with
  | OpWrite data io => let '(b, r) := Write b data io in (b, EvWrite r)
  | OpRead want io => let '(b, out, err) := Read b want io in (b, EvRead out err)
  | OpReadAt want off io =>
      let '(b, out, err) := ReadAt b want off io in (b, EvReadAt out err)
  | OpNext n => let '(b, r) := Next b n in (b, EvNext r)
  | OpReset => (Reset b, EvOther)
  | OpEnableEncryption key => (fst (EnableEncryption b key), EvOther)
  end.

Fixpoint run (b : Buffer) (os : list op) : Buffer * list event :=
  match os with
  | [] => (b, [])
  | o :: os =>
      let '(b, e) := step b o in
      let '(b, es) := run b os in
      (b, e :: es)
  end.

(** Bytes accepted by the [Write] calls of a trace ([n] of every call that
    returned), and bytes returned by its [Read] calls. *)
Fixpoint written (es : list event) : Z :=
  match es with
  | [] => 0
  | EvWrite (Ret (n, _)) :: es => n + written es
  | _ :: es => written es
  end.

Fixpoint consumed (es : list event) : Z :=
  match es with
  | [] => 0
  | EvRead out _ :: es => len out + consumed es
  | _ :: es => consumed es
  end.

(** A buffer as the constructor returns it, with encryption switched on or
    not before the first write. *)
Definition fresh (t : Z) (enc : bool) : Buffer :=
  mkBuffer t false false 0 0 EmptyString enc (repeat x00 32) [] None None
    false EmptyString [].

Definition bytes (s : string) : list byte := list_byte_of_string s.

Definition io_ok : IO := mkIO (Some "42"%string) true None true true.

(** ** States, as the properties speak of them *)

(** The state of a buffer with threshold [t] that has accepted the bytes
    [s] and has not been read yet. *)
Record holds (t : Z) (s : list byte) (b : Buffer) : Prop := mkHolds {
  holds_max : maxInMemorySize b = t;
  holds_writing : writingFinished b = false;
  holds_reading : readingFinished b = false;
  holds_size : size b = len s;
  holds_offset : offset b = 0;
  holds_buff : buff b = firstn (Z.to_nat t) s;
  holds_readFile : readFile b = None;
  holds_useFile : useFile b = (t <? len s);
  holds_file :
    if useFile b
    then writeFile b <> None /\ filename b <> EmptyString
         /\ file_data b = skipn (Z.to_nat t) s
    else writeFile b = None /\ filename b = EmptyString /\ file_data b = []
}.

(** A buffer on which nothing was written or read yet: the constructor's,
    possibly after [EnableEncryption] and [ChangeTempDir]. *)
Definition unused (t : Z) (b : Buffer) : Prop := holds t [] b.

(** Where the next sequential read of the file starts. *)
Definition filePos (b : Buffer) : nat :=
  match readFile b with
  | Some h => pos h
  | None => 0%nat
  end.

(** What the sequential reads have still to deliver: the memory, then the
    rest of the file. *)
Definition remaining (b : Buffer) : list byte :=
  buff b ++ (if useFile b then skipn (filePos b) (file_data b) else []).

Record readable (b : Buffer) : Prop := mkReadable {
  readable_reading : readingFinished b = false;
  readable_file : useFile b = true -> readFile b = None -> filename b <> EmptyString
}.

(** The bytes [ReadAt] addresses: what the memory holds now, then the file. *)
Definition stored (b : Buffer) : list byte :=
  buff b ++ (if useFile b then file_data b else []).

(** What [ReadAt] can do with the file: read it at an offset (through the
    open handle, or after opening the file), or fail because the open handle
    is no [io.ReaderAt], or because there is no file to open. *)
Inductive Access : Type := CanReadAt | NoReaderAt | CannotOpen.

Definition access (b : Buffer) : Access :=
  match readFile b with
  | Some h => if isReaderAt (kind h) then CanReadAt else NoReaderAt
  | None => if String.eqb (filename b) EmptyString then CannotOpen else CanReadAt
  end.

(** Two states that [ReadAt] cannot tell apart. *)
Record sameView (b1 b2 : Buffer) : Prop := mkSameView {
  view_size : size b1 = size b2;
  view_offset : offset b1 = offset b2;
  view_reading : readingFinished b1 = readingFinished b2;
  view_buff : buff b1 = buff b2;
  view_useFile : useFile b1 = useFile b2;
  view_file_data : file_data b1 = file_data b2;
  view_filename : filename b1 = filename b2;
  view_encrypt : encrypt b1 = encrypt b2;
  view_access : access b1 = access b2
}.

(** A sequence of [ReadAt] calls; the state they leave. *)
Fixpoint readAtAll (b : Buffer) (calls : list (nat * Z * IO)) : Buffer :=
  match calls with
  | [] => b
  | (want, off, io) :: calls => readAtAll (fst (fst (ReadAt b want off io))) calls
  end.

(** In every state a buffer can reach, the stream has not ended unless
    writing is finished. *)
Definition gated (b : Buffer) : Prop :=
  readingFinished b = true -> writingFinished b = true.

(** What every state that calls on an unused buffer can reach satisfies,
    whatever the environment answers. *)
Record consistent (b : Buffer) : Prop := mkConsistent {
  cons_counters :
    offset b + len (buff b) + len (skipn (filePos b) (file_data b)) <= size b;
  cons_offset : 0 <= offset b;
  cons_no_file : filename b = EmptyString -> file_data b = [] /\ readFile b = None;
  cons_write_handle : writeFile b <> None -> filename b <> EmptyString;
  cons_finished : writingFinished b = true -> writeFile b = None;
  cons_memory : 0 <= maxInMemorySize b -> len (buff b) <= maxInMemorySize b
}.

(** ** The other entry points *)

(** [WriteByte]: [slice := []byte{c}; _, err := b.Write(slice); return err]. *)
Definition WriteByte (b : Buffer) (c : byte) (io : IO)
  : Buffer * result (option error) :=
  match Write b [c] io with
  | (b, Ret (_, err)) => (b, Ret err)
  | (b, Panic) => (b, Panic)
  end.

(** [WriteString]: [b.Write([]byte(s))]. *)
Definition WriteString (b : Buffer) (s : string) (io : IO)
  : Buffer * result (Z * option error) :=
  Write b (list_byte_of_string s) io.

(** [NewBufferString]: [NewBuffer([]byte(s))]. *)
Definition NewBufferString (s : string) (io : IO) : result Buffer :=
  NewBuffer (list_byte_of_string s) io.

(** [ReadString]: [bytes, err := b.ReadBytes(delim); return string(bytes), err]. *)
Definition ReadString (fuel : nat) (b : Buffer) (delim : byte) (io : IO)
  : option (Buffer * string * option error) :=
  match ReadBytes fuel b delim io [] with
  | Some (b, result, err) => Some (b, string_of_list_byte result, err)
  | None => None
  end.

(** The errors of [ReadFrom] and [WriteTo], which wrap the error they met. *)
Inductive copyError : Type :=
| CantReadReader                 (* "can't read data from passed io.Reader" *)
| CantWriteData (e : error)      (* "can't write data", around the error of Write *)
| CantReadBuffer (e : error)     (* "can't read data from Buffer", around the error of Read *)
| CantWriteWriter.               (* "can't write data into io.Writer" *)

(** The error of one call of the reader passed to [ReadFrom]. *)
Inductive readerError : Type :=
| ReaderEOF                      (* io.EOF *)
| ReaderFailure.                 (* any other error *)

(** One turn of the loop of [ReadFrom], as the world outside answers it:
    the bytes [r.Read(data)] stored in [data[:rN]], its error, and the
    environment of the [Write] that follows. *)
Record Answer : Type := mkAnswer {
  chunk : list byte;
  rErr : option readerError;
  wEnv : IO
}.

(** The loop of [ReadFrom]; [n] is its counter.  [data] has length and
    capacity 512 at every call of [r.Read]; [data[:rN]] panics when the
    reader claims more.  The result is [None] when the answers end before
    the loop does. *)
Fixpoint ReadFrom_loop (b : Buffer) (answers : list Answer) (n : Z)
  : option (Buffer * result (Z * option copyError)) :=
  match answers with
  | [] => None
  | a :: answers =>
      match rErr a with
      | Some ReaderFailure => Some (b, Ret (n, Some CantReadReader))
      | _ =>
          if (512 <? List.length (chunk a))%nat then Some (b, Panic)
          else
            match Write b (chunk a) (wEnv a) with
            | (b, Panic) => Some (b, Panic)
            | (b, Ret (wN, Some wErr)) =>
                Some (b, Ret (n + wN, Some (CantWriteData wErr)))
            | (b, Ret (_, None)) =>
                let n := n + len (chunk a) in
                match rErr a with
                | Some ReaderEOF => Some (b, Ret (n, None))
                | _ => ReadFrom_loop b answers n
                end
            end
      end
  end.

Definition ReadFrom (b : Buffer) (answers : list Answer)
  : option (Buffer * result (Z * option copyError)) :=
  ReadFrom_loop b answers 0.

Definition isEOF (e : option error) : bool :=
  match e with
  | Some EOF => true
  | _ => false
  end.

(** The loop of [WriteTo]; [n] is its counter.  The [i]-th turn reads into
    [data], of length 512, in the environment [env i], and hands
    [data[:rN]] to [w.Write], which accepts it ([sink i = None]) or stores
    [k] bytes of it and fails ([sink i = Some k]).  The result has the
    bytes the writer received; it is [None] when [fuel] turns were not
    enough. *)
Fixpoint WriteTo_loop (fuel : nat) (b : Buffer) (env : nat -> IO)
  (sink : nat -> option nat) (i : nat) (n : Z)
  : option (Buffer * list byte * Z * option copyError) :=
  match fuel with
  | O => None
  | S fuel =>
      let '(b, data, rErr) := Read b 512 (env i) in
      match (if isEOF rErr then None else rErr) with
      | Some e => Some (b, [], n, Some (CantReadBuffer e))
      | None =>
          match sink i with
          | Some k =>
              Some (b, firstn k data, n + len (firstn k data), Some CantWriteWriter)
          | None =>
              let n := n + len data in
              if isEOF rErr then Some (b, data, n, None)
              else
                match WriteTo_loop fuel b env sink (S i) n with
                | Some (b, rest, n, e) => Some (b, data ++ rest, n, e)
                | None => None
                end
          end
      end
  end.

Definition WriteTo (fuel : nat) (b : Buffer) (env : nat -> IO)
  (sink : nat -> option nat)
  : option (Buffer * list byte * Z * option copyError) :=
  WriteTo_loop fuel b env sink 0 0.

(** A turn of [ReadFrom] in which nothing goes wrong: the reader reports no
    error and the environment of the [Write] is reliable. *)
Definition delivers (a : Answer) : Prop :=
  rErr a = None /\ (List.length (chunk a) <= 512)%nat /\ reliable (wEnv a).

(** With encryption on, no handle on the plain file: the write handle, if
    there is one, is the encrypting writer, and the read handle, if there
    is one, decrypts. *)
Definition sealed (b : Buffer) : Prop :=
  encrypt b = true /\ writeFile b <> Some OsFileW
  /\ forall h, readFile b = Some h -> kind h <> OsFileR.

(** ** Runes *)

(** The value of a byte, and the conversion [byte(x)] of an integer, which
    keeps its low eight bits. *)
Definition byteZ (c : byte) : Z := Z.of_N (Byte.to_N c).

Definition toByte (x : Z) : byte :=
  match Byte.of_N (Z.to_N (Z.land x 255)) with
  | Some c => c
  | None => x00
  end.

(** The part of Go's package [unicode/utf8] that [WriteRune] and [ReadRune]
    call, with its constants and tables. *)
Module utf8.

Definition RuneError : Z := 0xFFFD.
Definition RuneSelf : Z := 0x80.
Definition MaxRune : Z := 0x10FFFF.
Definition surrogateMin : Z := 0xD800.
Definition surrogateMax : Z := 0xDFFF.
Definition tx : Z := 0x80.
Definition t2 : Z := 0xC0.
Definition t3 : Z := 0xE0.
Definition t4 : Z := 0xF0.
Definition maskx : Z := 0x3F.
Definition mask2 : Z := 0x1F.
Definition mask3 : Z := 0x0F.
Definition mask4 : Z := 0x07.
Definition rune1Max : Z := 0x7F.
Definition rune2Max : Z := 0x7FF.
Definition rune3Max : Z := 0xFFFF.
Definition locb : Z := 0x80.
Definition hicb : Z := 0xBF.

(** The entries of the table [first]: the size of the sequence in the low
    bits, the index into [acceptRanges] in the high ones. *)
Definition xx : Z := 0xF1.    (* invalid: size 1 *)
Definition as_ : Z := 0xF0.   (* ASCII: size 1 *)
Definition s1 : Z := 0x02.    (* accept 0, size 2 *)
Definition s2 : Z := 0x13.    (* accept 1, size 3 *)
Definition s3 : Z := 0x03.    (* accept 0, size 3 *)
Definition s4 : Z := 0x23.    (* accept 2, size 3 *)
Definition s5 : Z := 0x34.    (* accept 3, size 4 *)
Definition s6 : Z := 0x04.    (* accept 0, size 4 *)
Definition s7 : Z := 0x44.    (* accept 4, size 4 *)

(** [first[c]], the information about the first byte of a sequence. *)
Definition first (c : Z) : Z :=
  if c <? 0x80 then as_
  else if c <? 0xC2 then xx
  else if c <? 0xE0 then s1
  else if c =? 0xE0 then s2
  else if c <? 0xED then s3
  else if c =? 0xED then s4
  else if c <? 0xF0 then s3
  else if c =? 0xF0 then s5
  else if c <? 0xF4 then s6
  else if c =? 0xF4 then s7
  else xx.

(** [acceptRanges[i]], as the pair of [lo] and [hi]: the values the second
    byte may have; the array has 16 entries, all but the first five zero. *)
Definition acceptRanges (i : Z) : Z * Z :=
  match i with
  | 0 => (locb, hicb)
  | 1 => (0xA0, hicb)
  | 2 => (locb, 0x9F)
  | 3 => (0x90, hicb)
  | 4 => (locb, 0x8F)
  | _ => (0, 0)
  end.

(** [p[i]], where [i < len(p)]. *)
Definition at_ (p : list byte) (i : nat) : Z := byteZ (nth i p x00).

(** [FullRune]: whether [p] begins with a full encoding of a rune; an
    invalid encoding counts as full. *)
Definition FullRune (p : list byte) : bool :=
  let n := len p in
  if n =? 0 then false
  else
    let x := first (at_ p 0) in
    if n >=? Z.land x 7 then true
    else
      let accept := acceptRanges (Z.shiftr x 4) in
      if (n >? 1) && ((at_ p 1 <? fst accept) || (snd accept <? at_ p 1)) then true
      else if (n >? 2) && ((at_ p 2 <? locb) || (hicb <? at_ p 2)) then true
      else false.

(** [DecodeRune]: the first rune of [p] and its width in bytes;
    [(RuneError, 1)] for an invalid encoding. *)
Definition DecodeRune (p : list byte) : Z * Z :=
  let n := len p in
  if n <? 1 then (RuneError, 0)
  else
    let p0 := at_ p 0 in
    let x := first p0 in
    if x >=? as_ then
      (* mask := rune(x) << 31 >> 31: all ones for xx, zero for as *)
      let mask := if Z.testbit x 0 then -1 else 0 in
      (Z.lor (Z.land p0 (Z.lnot mask)) (Z.land RuneError mask), 1)
    else
      let sz := Z.land x 7 in
      let accept := acceptRanges (Z.shiftr x 4) in
      if n <? sz then (RuneError, 1)
      else
        let b1 := at_ p 1 in
        if (b1 <? fst accept) || (snd accept <? b1) then (RuneError, 1)
        else if sz <=? 2 then
          (Z.lor (Z.shiftl (Z.land p0 mask2) 6) (Z.land b1 maskx), 2)
        else
          let b2 := at_ p 2 in
          if (b2 <? locb) || (hicb <? b2) then (RuneError, 1)
          else if sz <=? 3 then
            (Z.lor (Z.lor (Z.shiftl (Z.land p0 mask3) 12)
                          (Z.shiftl (Z.land b1 maskx) 6))
                   (Z.land b2 maskx), 3)
          else
            let b3 := at_ p 3 in
            if (b3 <? locb) || (hicb <? b3) then (RuneError, 1)
            else
              (Z.lor (Z.lor (Z.lor (Z.shiftl (Z.land p0 mask4) 18)
                                   (Z.shiftl (Z.land b1 maskx) 12))
                            (Z.shiftl (Z.land b2 maskx) 6))
                     (Z.land b3 maskx), 4).

(** [uint32(r)] of a rune, which is an [int32]. *)
Definition uint32 (r : Z) : Z := r mod 2 ^ 32.

(** The three bytes [t3|byte(r>>12), tx|byte(r>>6)&maskx, tx|byte(r)&maskx]. *)
Definition three (r : Z) : list byte :=
  [toByte (Z.lor t3 (Z.land (Z.shiftr r 12) 255));
   toByte (Z.lor tx (Z.land (Z.land (Z.shiftr r 6) 255) maskx));
   toByte (Z.lor tx (Z.land (Z.land r 255) maskx))].

(** [AppendRune(nil, r)]: the encoding of [r]; of [RuneError] when [r] is
    no valid rune. *)
Definition AppendRune (r : Z) : list byte :=
  let i := uint32 r in
  if i <=? rune1Max then [toByte r]
  else if i <=? rune2Max then
    [toByte (Z.lor t2 (Z.land (Z.shiftr r 6) 255));
     toByte (Z.lor tx (Z.land (Z.land r 255) maskx))]
  else if (i >? MaxRune) || ((surrogateMin <=? i) && (i <=? surrogateMax)) then
    three RuneError
  else if i <=? rune3Max then three r
  else
    [toByte (Z.lor t4 (Z.land (Z.shiftr r 18) 255));
     toByte (Z.lor tx (Z.land (Z.land (Z.shiftr r 12) 255) maskx));
     toByte (Z.lor tx (Z.land (Z.land (Z.shiftr r 6) 255) maskx));
     toByte (Z.lor tx (Z.land (Z.land r 255) maskx))].

(** [ValidRune]: a code point that is no surrogate half. *)
Definition ValidRune (r : Z) : bool :=
  ((0 <=? r) && (r <? surrogateMin)) || ((surrogateMax <? r) && (r <=? MaxRune)).

End utf8.

(** [WriteRune]: the rune goes through a [bytes.Buffer] of its own, whose
    [WriteRune] stores [byte(r)] when [uint32(r) < utf8.RuneSelf], the
    encoding of [utf8.AppendRune] otherwise, and never fails; its bytes are
    then written with [Write]. *)
Definition WriteRune (b : Buffer) (r : Z) (io : IO)
  : Buffer * result (Z * option error) :=
  let tmp :=
    if utf8.uint32 r <? utf8.RuneSelf then [toByte r] else utf8.AppendRune r in
  Write b tmp io.

(** The loop of [ReadRune]; [p] has the bytes read so far.  The result is
    the rune, its size and the error; [None] when [fuel] turns were not
    enough. *)
Fixpoint ReadRune_loop (fuel : nat) (b : Buffer) (io : IO) (p : list byte)
  : option (Buffer * Z * Z * option error) :=
  match fuel with
  | O => None
  | S fuel =>
      let '(b, c, err) := ReadByte b io in
      match err with
      | Some e => Some (b, 0, 0, Some e)
      | None =>
          let p := p ++ [c] in
          if utf8.FullRune p then
            let '(r, size) := utf8.DecodeRune p in
            Some (b, r, size, None)
          else ReadRune_loop fuel b io p
      end
  end.

Definition ReadRune (fuel : nat) (b : Buffer) (io : IO)
  : option (Buffer * Z * Z * option error) :=
  ReadRune_loop fuel b io [].

(** [f] on every integer from [lo] to [lo + p - 1]. *)
Fixpoint forall_range (p : positive) (f : Z -> bool) (lo : Z) : bool :=
  match p with
  | xH => f lo
  | xO q => forall_range q f lo && forall_range q f (lo + Zpos q)
  | xI q => f lo && forall_range q f (lo + 1) && forall_range q f (lo + 1 + Zpos q)
  end.

(** The bytes that encode [r] are read back as [r]: no proper prefix of
    them is a full rune, all of them are, and they decode to [r] with
    their number as the size. *)
Definition decodes_back (r : Z) : bool :=
  let p := utf8.AppendRune r in
  forallb (fun k => negb (utf8.FullRune (firstn k p))) (seq 1 (List.length p - 1))
  && utf8.FullRune p
  && (fst (utf8.DecodeRune p) =? r)
  && (snd (utf8.DecodeRune p) =? len p).

(** ** Concrete runs *)

(** The scenario of the specification: threshold 5, writes "123", "456",
    "789"; the file holds 4 bytes; reading in chunks of 10 returns
    "123456789" and then end of data; [Len] is 9 before and 0 after. *)
Example scenario_write :
  let b := fst (writeAll (fresh 5 false)
                  [(bytes "123", io_ok); (bytes "456", io_ok); (bytes "789", io_ok)]) in
  buff b = bytes "12345" /\ file_data b = bytes "6789" /\ useFile b = true /\ Len b = 9.
Proof. vm_compute. repeat split. Qed.

Example scenario_read :
  let b := fst (writeAll (fresh 5 false)
                  [(bytes "123", io_ok); (bytes "456", io_ok); (bytes "789", io_ok)]) in
  match readUntilEOF 3 b (fun _ => 10%nat) (fun _ => io_ok) 0 with
  | Some (b', out, err) => out = bytes "123456789" /\ err = None /\ Len b' = 0
  | None => False
  end.
Proof. vm_compute. repeat split. Qed.

(** The second scenario: threshold 2, "Hello, world!", [ReadAt] of 300
    bytes at offset 4 returns "o, world!" with end of data. *)
Example scenario_read_at :
  let b := fst (Write (fresh 2 false) (bytes "Hello, world!") io_ok) in
  snd (fst (ReadAt b 300 4 io_ok)) = bytes "o, world!"
  /\ snd (ReadAt b 300 4 io_ok) = Some EOF.
Proof. vm_compute. split; reflexivity. Qed.

(** ** The write phase *)

Lemma tempName_not_empty (dir rnd : string) : tempName dir rnd <> EmptyString.
Proof.
  unfold tempName. destruct dir as [|c dir]; cbn; discriminate.
Qed.

Lemma len_app (l1 l2 : list byte) : len (l1 ++ l2) = len l1 + len l2.
Proof. unfold len. rewrite length_app. lia. Qed.

Lemma len_nonneg (l : list byte) : 0 <= len l.
Proof. unfold len. lia. Qed.

Lemma fresh_holds (t : Z) (enc : bool) : 0 <= t -> holds t [] (fresh t enc).
Proof.
  intros Ht. constructor; cbn; try reflexivity.
  - now rewrite firstn_nil.
  - symmetry. apply Z.ltb_ge. exact Ht.
  - repeat split.
Qed.

Lemma Write_holds (t : Z) (s data : list byte) (b : Buffer) (io : IO) :
  0 <= t -> holds t s b -> reliable io ->
  exists b', Write b data io = (b', Ret (len data, None))
             /\ holds t (s ++ data) b' /\ encrypt b' = encrypt b.
Proof.
  intros Ht [Hmax Hw Hr Hsz Hoff Hbuff Hrf Huse Hfile] (Htmp & Henc & Hfw & _ & _).
  destruct b as [mx wf rf sz off dir enc key bf wfile rfile use fname fdata].
  cbn in *. subst mx wf rf sz off rfile bf.
  unfold Write; cbn.
  assert (Hlen : len (firstn (Z.to_nat t) s) = Z.min t (len s)).
  { unfold len. rewrite length_firstn. lia. }
  destruct use; cbn.
  - (* the file is in use: everything goes to the file *)
    destruct Hfile as (Hwfile & Hname & Hdata). symmetry in Huse.
    apply Z.ltb_lt in Huse.
    unfold writeToFile; cbn. destruct wfile as [w|]; [|congruence].
    rewrite Hfw. cbn. eexists; split; [f_equal; try (f_equal; f_equal; lia)|].
    split; [|reflexivity]. constructor; cbn; try reflexivity.
    + rewrite len_app. lia.
    + rewrite firstn_app.
      replace (Z.to_nat t - Datatypes.length s)%nat with 0%nat by (unfold len in Huse; lia).
      rewrite firstn_0, app_nil_r. reflexivity.
    + symmetry. apply Z.ltb_lt. rewrite len_app. pose proof (len_nonneg data). lia.
    + repeat split; try assumption. subst fdata.
      rewrite skipn_app.
      replace (Z.to_nat t - Datatypes.length s)%nat with 0%nat by (unfold len in Huse; lia).
      reflexivity.
  - (* memory only so far *)
    destruct Hfile as (Hwfile & Hname & Hdata). symmetry in Huse.
    apply Z.ltb_ge in Huse. subst wfile fname fdata.
    rewrite Hlen, Z.min_r by lia.
    rewrite (firstn_all2 s) by (unfold len in Huse; lia).
    destruct (len s + len data <=? t) eqn:Hfit.
    + apply Z.leb_le in Hfit. cbn. eexists; split; [reflexivity|].
      split; [|reflexivity]. constructor; cbn; try reflexivity.
      * rewrite len_app; lia.
      * rewrite firstn_all2; [reflexivity|]. rewrite length_app. unfold len in Hfit. lia.
      * symmetry. apply Z.ltb_ge. rewrite len_app. lia.
      * replace (t <? len (s ++ data)) with false
          by (symmetry; apply Z.ltb_ge; rewrite len_app; lia).
        repeat split.
    + apply Z.leb_gt in Hfit.
      replace (t - len s <? 0) with false by (symmetry; apply Z.ltb_ge; lia).
      destruct (tempfile io) as [rnd|] eqn:Hrnd; [|congruence].
      cbn. rewrite Henc. cbn. rewrite andb_false_r.
      unfold writeToFile; cbn. rewrite Hfw. cbn.
      assert (Hb : (Z.to_nat (t - len s) <= Datatypes.length data)%nat)
        by (unfold len in *; lia).
      eexists; split;
        [f_equal; try (f_equal; f_equal; unfold len in *; rewrite length_skipn; lia)|].
      split; [|reflexivity]. constructor; cbn; try reflexivity.
      * rewrite len_app. unfold len. rewrite length_skipn. unfold len in *. lia.
      * rewrite firstn_app. rewrite (firstn_all2 s) by (unfold len in *; lia).
        f_equal. f_equal. unfold len. lia.
      * symmetry. apply Z.ltb_lt. rewrite len_app. lia.
      * split; [discriminate|]. split; [apply tempName_not_empty|].
        rewrite skipn_app. rewrite (skipn_all2 s) by (unfold len in *; lia).
        cbn. f_equal. unfold len. lia.
Qed.

Lemma writeAll_holds (t : Z) (ws : list (list byte * IO)) :
  0 <= t -> Forall (fun w => reliable (snd w)) ws ->
  forall (s : list byte) (b : Buffer), holds t s b ->
  exists b', writeAll b ws = (b', map (fun w => Ret (len (fst w), None)) ws)
             /\ holds t (s ++ List.concat (map fst ws)) b' /\ encrypt b' = encrypt b.
Proof.
  intros Ht Hall. induction Hall as [|[data io] ws Hio _ IH]; intros s b Hb.
  - exists b. cbn. rewrite app_nil_r. auto.
  - cbn in Hio. destruct (Write_holds t s data b io Ht Hb Hio) as (b1 & HW & Hb1 & He1).
    destruct (IH _ _ Hb1) as (b2 & HA & Hb2 & He2).
    exists b2. cbn. rewrite HW, HA. rewrite <- app_assoc in Hb2.
    split; [reflexivity|]. split; [assumption|congruence].
Qed.

(** While everything fits into the memory, [Write] asks nothing of its
    environment. *)
Lemma Write_fits (t : Z) (s data : list byte) (b : Buffer) (io : IO) :
  holds t s b -> len s + len data <= t ->
  exists b', Write b data io = (b', Ret (len data, None)) /\ holds t (s ++ data) b'.
Proof.
  intros [Hmax Hw Hr Hsz Hoff Hbuff Hrf Huse Hfile] Hfit.
  destruct b as [mx wf rf sz off dir enc key bf wfile rfile use fname fdata].
  cbn in *. subst mx wf rf sz off rfile bf.
  pose proof (len_nonneg data) as Hd. pose proof (len_nonneg s) as Hs.
  assert (Hu : (t <? len s) = false) by (apply Z.ltb_ge; lia).
  rewrite Hu in Huse. subst use. cbn in Hfile. destruct Hfile as (Hwfile & Hname & Hdata).
  subst wfile fname fdata.
  unfold Write; cbn.
  rewrite (firstn_all2 s) by (unfold len in *; lia).
  replace (len s + len data <=? t) with true by (symmetry; apply Z.leb_le; lia).
  cbn. eexists; split; [reflexivity|].
  constructor; cbn; try reflexivity.
  - rewrite len_app; lia.
  - rewrite firstn_all2; [reflexivity|]. rewrite length_app. unfold len in *. lia.
  - symmetry. apply Z.ltb_ge. rewrite len_app. lia.
  - replace (t <? len (s ++ data)) with false
      by (symmetry; apply Z.ltb_ge; rewrite len_app; lia).
    repeat split.
Qed.

Lemma writeAll_fits (t : Z) (ws : list (list byte * IO)) :
  forall (s : list byte) (b : Buffer), holds t s b ->
  len s + len (List.concat (map fst ws)) <= t ->
  exists b', writeAll b ws = (b', map (fun w => Ret (len (fst w), None)) ws)
             /\ holds t (s ++ List.concat (map fst ws)) b'.
Proof.
  induction ws as [|[data io] ws IH]; intros s b Hb Hfit.
  - exists b. cbn. rewrite app_nil_r. auto.
  - cbn in Hfit. rewrite len_app in Hfit.
    pose proof (len_nonneg (List.concat (map fst ws))) as Hc.
    destruct (Write_fits t s data b io Hb) as (b1 & HW & Hb1); [lia|].
    destruct (IH _ _ Hb1) as (b2 & HA & Hb2); [rewrite len_app; lia|].
    exists b2. cbn. rewrite HW, HA. rewrite <- app_assoc in Hb2.
    split; [reflexivity|assumption].
Qed.

(** ** The sequential stream *)

Lemma readFromFile_reliable (b : Buffer) (n : nat) (io : IO) :
  reliable io -> (readFile b = None -> filename b <> EmptyString) ->
  let out := firstn n (skipn (filePos b) (file_data b)) in
  exists k,
    readFromFile b n io =
      (set_readFile (Some (mkReadHandle k (filePos b + List.length out))) b, out,
       if (0 <? n)%nat && (List.length out =? 0)%nat then Some EOF else None).
Proof.
  intros (_ & _ & _ & Hopen & Hdec) Hname out. subst out.
  unfold readFromFile, filePos, canOpen.
  destruct (readFile b) as [h|].
  - exists (kind h). reflexivity.
  - specialize (Hname eq_refl). apply String.eqb_neq in Hname.
    rewrite Hname, Hopen, Hdec. cbn.
    destruct (encrypt b); eexists; reflexivity.
Qed.

Lemma finishWriting_frame (b : Buffer) :
  let b' := finishWriting b in
  writingFinished b' = true /\ readingFinished b' = readingFinished b
  /\ size b' = size b /\ offset b' = offset b /\ buff b' = buff b
  /\ readFile b' = readFile b /\ useFile b' = useFile b
  /\ filename b' = filename b /\ file_data b' = file_data b
  /\ encrypt b' = encrypt b /\ maxInMemorySize b' = maxInMemorySize b.
Proof.
  unfold finishWriting. destruct (writingFinished b) eqn:H; cbn; repeat split; assumption.
Qed.

Lemma readDeferred_full (b : Buffer) (n want : nat) :
  (want <= n)%nat -> readingFinished b = false ->
  readDeferred b n want = set_offset (offset b + Z.of_nat n) b.
Proof.
  intros Hn Hr. unfold readDeferred.
  replace (n <? want)%nat with false by (symmetry; apply Nat.ltb_ge; exact Hn).
  cbn. rewrite Hr. reflexivity.
Qed.

Lemma readDeferred_short (b : Buffer) (n want : nat) :
  (n < want)%nat ->
  readDeferred b n want =
    let b' := set_readingFinished true (set_offset (offset b + Z.of_nat n) b) in
    match readFile b with
    | Some _ => set_filename EmptyString (set_readFile None (set_file_data [] b'))
    | None => b'
    end.
Proof.
  intros Hn. unfold readDeferred.
  replace (n <? want)%nat with true by (symmetry; apply Nat.ltb_lt; exact Hn).
  reflexivity.
Qed.

Local Arguments Nat.ltb : simpl never.
Local Arguments Nat.eqb : simpl never.
Local Arguments Nat.leb : simpl never.
Local Arguments Nat.sub : simpl never.

(** One [Read] of a readable buffer in a reliable environment takes the next
    [want] bytes of the stream, or all that is left. *)
Lemma Read_readable (b : Buffer) (want : nat) (io : IO) :
  readable b -> reliable io -> (0 < want)%nat ->
  exists b' err,
    Read b want io = (b', firstn want (remaining b), err)
    /\ size b' = size b
    /\ offset b' = offset b + len (firstn want (remaining b))
    /\ writingFinished b' = true
    /\ ((want <= List.length (remaining b))%nat ->
        err = None /\ readable b' /\ remaining b' = skipn want (remaining b))
    /\ ((List.length (remaining b) < want)%nat ->
        readingFinished b' = true /\ (err = None \/ err = Some EOF)).
Proof.
  intros [Hrf Hname] Hio Hwant.
  unfold Read. rewrite Hrf.
  destruct (finishWriting_frame b)
    as (Fw & Fr & Fsz & Foff & Fbuff & Frfile & Fuse & Fname & Fdata & _).
  assert (Hrem : remaining (finishWriting b) = remaining b)
    by (unfold remaining, filePos; rewrite Fbuff, Fuse, Frfile, Fdata; reflexivity).
  rewrite <- Hrem. rewrite <- Fsz, <- Foff. rewrite <- Fr in Hrf.
  rewrite <- Fuse, <- Frfile, <- Fname in Hname.
  clear Hrem Fr Fsz Foff Fbuff Frfile Fuse Fname Fdata.
  revert Fw Hrf Hname. generalize (finishWriting b). clear b. intros b Fw Hrf Hname.
  destruct b as [mx wf rf sz off dir enc key bf wfile rfile use fname fdata].
  cbn in *. subst wf rf. unfold remaining, filePos; cbn.
  assert (Hfile : forall b0 : Buffer, readFile b0 = rfile -> filename b0 = fname ->
            useFile b0 = use -> use = true ->
            readFile b0 = None -> filename b0 <> EmptyString)
    by (intros b0 E1 E2 E3 E4 E5; rewrite E2; apply Hname; congruence).
  set (p := match rfile with Some h => pos h | None => 0%nat end).
  destruct bf as [|x bf'].
  - destruct use; cbn.
    + (* the memory is empty: the file alone *)
      match goal with
      | |- context [readFromFile ?b0 ?n ?io] =>
          destruct (readFromFile_reliable b0 n io Hio) as [k Hk];
            [apply Hfile; reflexivity|]
      end.
      rewrite Hk; clear Hk. unfold filePos; cbn. fold p.
      set (out := firstn want (skipn p fdata)).
      assert (Hout : List.length out = Nat.min want (List.length (skipn p fdata)))
        by apply length_firstn.
      destruct (Nat.lt_ge_cases (List.length out) want) as [Hshort|Hshort].
      * rewrite readDeferred_short by exact Hshort.
        do 2 eexists. split; [reflexivity|]. cbn.
        repeat split; try reflexivity; try lia.
        destruct (0 <? want)%nat, (Datatypes.length out =? 0)%nat; cbn; auto.
      * rewrite readDeferred_full by (cbn; auto).
        do 2 eexists. split; [reflexivity|]. cbn.
        split; [reflexivity|]. split; [reflexivity|]. split; [reflexivity|].
        split; [|lia]. intros _.
        replace (Datatypes.length out =? 0)%nat with false
          by (symmetry; apply Nat.eqb_neq; lia).
        rewrite andb_false_r. split; [reflexivity|].
        split; [constructor; cbn; [reflexivity|discriminate]|].
        unfold remaining, filePos; cbn. rewrite skipn_skipn.
        f_equal. lia.
    + (* nothing at all *)
      rewrite readDeferred_short by exact Hwant. cbn.
      rewrite firstn_nil.
      destruct rfile; (do 2 eexists; split; [reflexivity|]);
        cbn; repeat split; try reflexivity; try lia; auto.
  - set (bf := x :: bf') in *. clearbody bf.
    assert (Hfirst : List.length (firstn want bf) = Nat.min want (List.length bf))
      by apply length_firstn.
    destruct (Nat.le_gt_cases want (List.length bf)) as [Hmem|Hmem].
    + (* the memory suffices *)
      replace (Datatypes.length (firstn want bf) =? want)%nat with true
        by (symmetry; apply Nat.eqb_eq; lia).
      cbn [orb]. rewrite readDeferred_full by (cbn; auto; lia).
      rewrite firstn_app.
      replace (want - Datatypes.length bf)%nat with 0%nat by lia.
      rewrite firstn_0, app_nil_r.
      do 2 eexists. split; [reflexivity|]. cbn.
      split; [reflexivity|]. split; [reflexivity|]. split; [reflexivity|].
      split; [|rewrite length_app; lia]. intros _. split; [reflexivity|].
      split; [constructor; cbn; [reflexivity|exact Hname]|].
      unfold remaining, filePos; cbn. fold p. rewrite skipn_app.
      replace (want - Datatypes.length bf)%nat with 0%nat by lia.
      reflexivity.
    + replace (Datatypes.length (firstn want bf) =? want)%nat with false
        by (symmetry; apply Nat.eqb_neq; lia).
      cbn [orb]. destruct use; cbn [negb].
      * (* the memory, then the file *)
        match goal with
        | |- context [readFromFile ?b0 ?n ?io] =>
            destruct (readFromFile_reliable b0 n io Hio) as [k Hk];
              [apply Hfile; reflexivity|]
        end.
        rewrite Hk; clear Hk. unfold filePos; cbn. fold p.
        rewrite (firstn_all2 bf) by lia.
        set (out1 := firstn (want - Datatypes.length bf) (skipn p fdata)).
        assert (Hout : List.length out1
                       = Nat.min (want - List.length bf) (List.length (skipn p fdata)))
          by apply length_firstn.
        assert (Heq : firstn want (bf ++ skipn p fdata) = bf ++ out1)
          by (rewrite firstn_app, (firstn_all2 bf) by lia; reflexivity).
        rewrite Heq.
        destruct (Nat.lt_ge_cases (List.length (bf ++ out1)) want) as [Hshort|Hshort].
        -- rewrite readDeferred_short by exact Hshort.
           do 2 eexists. split; [reflexivity|]. cbn.
           split; [reflexivity|]. split; [reflexivity|]. split; [reflexivity|].
           split; [intros Hc; rewrite length_app in *; lia|]. intros _.
           split; [reflexivity|].
           destruct (0 <? want - Datatypes.length bf)%nat,
             (Datatypes.length out1 =? 0)%nat; cbn; auto.
        -- rewrite readDeferred_full by (cbn; auto).
           do 2 eexists. split; [reflexivity|]. cbn.
           split; [reflexivity|]. split; [reflexivity|]. split; [reflexivity|].
           split; [|intros Hc; rewrite length_app in *; lia]. intros _.
           replace (Datatypes.length out1 =? 0)%nat with false
             by (symmetry; apply Nat.eqb_neq; rewrite length_app in *; lia).
           rewrite andb_false_r. split; [reflexivity|].
           split; [constructor; cbn; [reflexivity|discriminate]|].
           unfold remaining, filePos; cbn.
           rewrite skipn_app, (skipn_all2 bf), skipn_skipn by lia.
           cbn. rewrite length_app in Hshort. f_equal. lia.
      * (* the memory alone, and not enough of it *)
        rewrite app_nil_r. rewrite (firstn_all2 bf) by lia.
        rewrite readDeferred_short by lia.
        destruct rfile; (do 2 eexists; split; [reflexivity|]);
          cbn; repeat split; try reflexivity; try lia; auto.
Qed.

Lemma Read_finished (b : Buffer) (want : nat) (io : IO) :
  readingFinished b = true -> Read b want io = (b, [], Some EOF).
Proof. intros H. unfold Read. rewrite H. reflexivity. Qed.

Section Drain.

Variable want : nat -> nat.
Variable env : nat -> IO.
Hypothesis want_pos : forall i, (0 < want i)%nat.
Hypothesis env_reliable : forall i, reliable (env i).

(** Reading until end of data delivers the whole remaining stream, with
    at most one call per byte and two more. *)
Lemma readUntilEOF_drains (fuel : nat) :
  forall (b : Buffer) (i : nat),
    readable b -> (List.length (remaining b) + 2 <= fuel)%nat ->
    exists b', readUntilEOF fuel b want env i = Some (b', remaining b, None)
               /\ size b' = size b
               /\ offset b' = offset b + len (remaining b)
               /\ readingFinished b' = true.
Proof.
  induction fuel as [|fuel IH]; intros b i Hb Hfuel; [lia|].
  destruct (Read_readable b (want i) (env i) Hb (env_reliable i) (want_pos i))
    as (b1 & err & HR & Hsz & Hoff & _ & Hfull & Hshort).
  cbn [readUntilEOF]. rewrite HR.
  destruct (Nat.le_gt_cases (want i) (List.length (remaining b))) as [Hle|Hgt].
  - destruct (Hfull Hle) as (-> & Hb1 & Hrem1).
    pose proof (want_pos i) as Hw.
    destruct (IH b1 (S i) Hb1) as (b' & HU & Hsz' & Hoff' & Hfin').
    { rewrite Hrem1, length_skipn. lia. }
    rewrite HU. exists b'. rewrite Hrem1, firstn_skipn.
    split; [reflexivity|]. split; [congruence|]. split; [|exact Hfin'].
    rewrite Hoff', Hoff, Hrem1. unfold len.
    rewrite length_firstn, length_skipn. lia.
  - destruct (Hshort Hgt) as (Hfin & Herr).
    rewrite firstn_all2 in * by lia.
    destruct Herr as [-> | ->].
    + destruct fuel as [|fuel]; [lia|].
      cbn [readUntilEOF]. rewrite (Read_finished b1 _ _ Hfin).
      exists b1. rewrite app_nil_r. auto.
    + exists b1. auto.
Qed.

End Drain.

(** ** Random access *)

Lemma openReaderAt_reliable (b : Buffer) (io : IO) :
  reliable io ->
  match access b with
  | CanReadAt =>
      exists b' h, openReaderAt b io = inl (b', h) /\ isReaderAt (kind h) = true
                   /\ (b' = b \/ b' = set_readFile (Some h) b)
                   /\ access b' = CanReadAt
  | NoReaderAt =>
      exists h, openReaderAt b io = inl (b, h) /\ isReaderAt (kind h) = false
  | CannotOpen => openReaderAt b io = inr ErrOpenTemp
  end.
Proof.
  intros (_ & _ & _ & Hopen & Hdec).
  unfold access, openReaderAt, canOpen.
  destruct (readFile b) as [h|] eqn:Hrf.
  - destruct (isReaderAt (kind h)) eqn:Hk.
    + exists b, h. unfold access. rewrite Hrf, Hk. auto.
    + exists h. auto.
  - destruct (String.eqb (filename b) EmptyString) eqn:Hname; cbn; [reflexivity|].
    rewrite Hopen, Hdec.
    destruct (encrypt b); do 2 eexists; (split; [reflexivity|]);
      (split; [reflexivity|]); (split; [right; reflexivity|]); reflexivity.
Qed.

Lemma ReadAt_reliable (b : Buffer) (want : nat) (off : Z) (io : IO) :
  reliable io -> 0 <= off < size b -> (0 < want)%nat ->
  (useFile b = true -> access b = CanReadAt) ->
  let out := firstn want (skipn (Z.to_nat off) (stored b)) in
  exists b',
    ReadAt b want off io
    = (b', out, if (List.length out <? want)%nat then Some EOF else None).
Proof.
  intros Hio [Hoff Hsize] Hwant Hpos out.
  unfold ReadAt.
  replace (off <? 0) with false by (symmetry; apply Z.ltb_ge; lia).
  replace (want =? 0)%nat with false by (symmetry; apply Nat.eqb_neq; lia).
  replace (off >=? size b) with false by (symmetry; rewrite Z.geb_leb; apply Z.leb_gt; lia).
  destruct (finishWriting_frame b)
    as (_ & _ & _ & _ & Fbuff & Frfile & Fuse & Fname & Fdata & Fenc & _).
  assert (Hst : stored (finishWriting b) = stored b)
    by (unfold stored; rewrite Fbuff, Fuse, Fdata; reflexivity).
  unfold access in Hpos. rewrite <- Fuse, <- Frfile, <- Fname in Hpos.
  fold (access (finishWriting b)) in Hpos.
  subst out. rewrite <- Hst.
  clear Hst Fbuff Frfile Fuse Fname Fdata Fenc Hsize.
  revert Hpos. generalize (finishWriting b). clear b. intros b Hpos.
  unfold stored, fileReadAt.
  set (o := Z.to_nat off).
  set (bs := List.length (buff b)).
  assert (Hbs : len (buff b) = Z.of_nat bs) by reflexivity.
  rewrite Hbs.
  set (out1 := if off <? Z.of_nat bs
               then firstn (Z.to_nat (Z.min (Z.of_nat bs - off) (Z.of_nat want)))
                      (skipn o (buff b))
               else []).
  assert (Hout1 : out1 = firstn want (skipn o (buff b))).
  { subst out1. destruct (off <? Z.of_nat bs) eqn:Hin.
    - apply Z.ltb_lt in Hin.
      destruct (Z.le_gt_cases (Z.of_nat bs - off) (Z.of_nat want)) as [Hle|Hgt].
      + rewrite Z.min_l by lia.
        rewrite !firstn_all2; [reflexivity| |]; rewrite length_skipn; lia.
      + rewrite Z.min_r by lia. rewrite Nat2Z.id. reflexivity.
    - apply Z.ltb_ge in Hin. rewrite skipn_all2 by lia.
      now rewrite firstn_nil. }
  assert (Hlen1 : List.length out1 = Nat.min want (bs - o)).
  { rewrite Hout1, length_firstn, length_skipn. reflexivity. }
  set (X := if useFile b then file_data b else []).
  assert (Hall : firstn want (skipn o (buff b ++ X))
                 = out1 ++ firstn (want - List.length out1) (skipn (o - bs) X)).
  { rewrite skipn_app, firstn_app, <- Hout1. fold bs.
    rewrite length_skipn. fold bs.
    destruct (Nat.le_gt_cases want (bs - o)) as [Hle|Hgt].
    - replace (want - Datatypes.length out1)%nat with 0%nat by lia.
      replace (want - (bs - o))%nat with 0%nat by lia. reflexivity.
    - replace (want - Datatypes.length out1)%nat with (want - (bs - o))%nat by lia.
      reflexivity. }
  rewrite Hall.
  set (rest := (want - Datatypes.length out1)%nat).
  destruct (0 <? rest)%nat eqn:Hrest; cbn [andb].
  - apply Nat.ltb_lt in Hrest.
    destruct (useFile b) eqn:Huse; subst X.
    + specialize (Hpos eq_refl).
      assert (Hfo : off + len out1 - Z.of_nat bs = Z.of_nat (o - bs)).
      { unfold len. rewrite Hlen1. subst rest o. lia. }
      assert (Hread : forall b0 : Buffer, file_data b0 = file_data b ->
        (let '(out2, err) :=
           (if off + len out1 - Z.of_nat bs <? 0
            then ([], Some ErrNegativeOffset)
            else
              (firstn rest (skipn (Z.to_nat (off + len out1 - Z.of_nat bs)) (file_data b0)),
               if (Datatypes.length
                     (firstn rest
                        (skipn (Z.to_nat (off + len out1 - Z.of_nat bs)) (file_data b0)))
                   <? rest)%nat
               then Some EOF else None)) in
         match err with
         | Some EOF | None =>
             (b0, out1 ++ out2,
              if (Datatypes.length (out1 ++ out2) <? want)%nat then Some EOF else None)
         | Some e => (b0, out1 ++ out2, Some e)
         end)
        = (b0, out1 ++ firstn rest (skipn (o - bs) (file_data b)),
           if (Datatypes.length (out1 ++ firstn rest (skipn (o - bs) (file_data b)))
               <? want)%nat then Some EOF else None)).
      { intros b0 E. rewrite E, Hfo.
        replace (Z.of_nat (o - bs) <? 0) with false by (symmetry; apply Z.ltb_ge; lia).
        rewrite Nat2Z.id.
        destruct (Datatypes.length (firstn rest (skipn (o - bs) (file_data b))) <? rest)%nat;
          reflexivity. }
      pose proof (openReaderAt_reliable b io Hio) as Hop. rewrite Hpos in Hop.
      destruct Hop as (b' & h & -> & -> & Hb' & _).
      exists b'. apply Hread. destruct Hb' as [-> | ->]; reflexivity.
    + rewrite skipn_nil, firstn_nil, app_nil_r. eexists. reflexivity.
  - apply Nat.ltb_ge in Hrest.
    replace rest with 0%nat by lia. rewrite firstn_0.
    eexists. rewrite app_nil_r. reflexivity.
Qed.

Lemma sameView_refl (b : Buffer) : sameView b b.
Proof. constructor; reflexivity. Qed.

Lemma sameView_trans (b1 b2 b3 : Buffer) :
  sameView b1 b2 -> sameView b2 b3 -> sameView b1 b3.
Proof. intros [] []. constructor; congruence. Qed.

Lemma openReaderAt_cases (b : Buffer) (io : IO) :
  match openReaderAt b io with
  | inl (b', h) =>
      b' = b
      \/ (b' = set_readFile (Some h) b /\ isReaderAt (kind h) = true
          /\ access b = CanReadAt)
  | inr _ => True
  end.
Proof.
  unfold openReaderAt, access, canOpen.
  destruct (readFile b) as [h|]; [left; reflexivity|].
  destruct (String.eqb (filename b) EmptyString); cbn; [exact I|].
  destruct (open_ok io); [|exact I].
  destruct (encrypt b); [destruct (decrypt_reader_ok io); [|exact I]|];
    right; repeat split.
Qed.

(** The state [ReadAt] leaves behind: the one it found, possibly with the
    write side closed, possibly with a positional read handle cached. *)
Lemma ReadAt_state (b : Buffer) (want : nat) (off : Z) (io : IO) :
  let b' := fst (fst (ReadAt b want off io)) in
  b' = b \/ b' = finishWriting b
  \/ (exists h, b' = set_readFile (Some h) (finishWriting b)
                /\ isReaderAt (kind h) = true
                /\ access (finishWriting b) = CanReadAt).
Proof.
  unfold ReadAt.
  destruct (off <? 0); [left; reflexivity|].
  destruct (want =? 0)%nat; [left; reflexivity|].
  destruct (off >=? size b); [left; reflexivity|].
  generalize (finishWriting b). intros B. cbv zeta.
  match goal with |- context [if ?c then _ else _] => destruct c end;
    [|right; left; reflexivity].
  pose proof (openReaderAt_cases B io) as Hop.
  destruct (openReaderAt B io) as [[b' h]|e]; [|right; left; reflexivity].
  assert (Hb' : b' = B \/ (exists h, b' = set_readFile (Some h) B
                                    /\ isReaderAt (kind h) = true
                                    /\ access B = CanReadAt))
    by (destruct Hop as [->|Hop]; [left; reflexivity|right; exists h; exact Hop]).
  clear Hop.
  destruct (isReaderAt (kind h)); [|cbn; right; exact Hb'].
  match goal with |- context [fileReadAt ?x ?y ?z] => destruct (fileReadAt x y z) as [out2 err] end.
  destruct err as [[]|]; cbn; right; exact Hb'.
Qed.

(** [ReadAt] leaves everything but the write side and the cached read
    handle as it was, whatever the environment answers. *)
Lemma ReadAt_frame (b : Buffer) (want : nat) (off : Z) (io : IO) :
  let b' := fst (fst (ReadAt b want off io)) in
  size b' = size b /\ offset b' = offset b
  /\ readingFinished b' = readingFinished b /\ buff b' = buff b
  /\ useFile b' = useFile b /\ file_data b' = file_data b
  /\ filename b' = filename b /\ encrypt b' = encrypt b
  /\ maxInMemorySize b' = maxInMemorySize b.
Proof.
  cbv zeta.
  destruct (finishWriting_frame b)
    as (_ & F1 & F2 & F3 & F4 & _ & F5 & F6 & F7 & F8 & F9).
  destruct (ReadAt_state b want off io) as [-> | [-> | (h & -> & _)]];
    cbn; repeat split; assumption.
Qed.

Lemma finishWriting_sameView (b : Buffer) : sameView b (finishWriting b).
Proof.
  destruct (finishWriting_frame b)
    as (_ & F1 & F2 & F3 & F4 & F4' & F5 & F6 & F7 & F8 & F9).
  constructor; try (symmetry; assumption).
  unfold access. rewrite F4', F6. reflexivity.
Qed.

Lemma ReadAt_sameView (b : Buffer) (want : nat) (off : Z) (io : IO) :
  sameView b (fst (fst (ReadAt b want off io))).
Proof.
  destruct (ReadAt_state b want off io) as [-> | [-> | (h & -> & Hk & Hacc)]].
  - apply sameView_refl.
  - apply finishWriting_sameView.
  - apply sameView_trans with (finishWriting b); [apply finishWriting_sameView|].
    constructor; try reflexivity.
    rewrite Hacc. unfold access; cbn. rewrite Hk. reflexivity.
Qed.

(** In reliable environments, states with the same view give the same
    answer to the same [ReadAt]. *)
Lemma ReadAt_congruence (b1 b2 : Buffer) (want : nat) (off : Z) (io1 io2 : IO) :
  sameView b1 b2 -> reliable io1 -> reliable io2 ->
  snd (fst (ReadAt b1 want off io1)) = snd (fst (ReadAt b2 want off io2))
  /\ snd (ReadAt b1 want off io1) = snd (ReadAt b2 want off io2).
Proof.
  intros V H1 H2. unfold ReadAt. rewrite (view_size _ _ V).
  destruct (off <? 0); [split; reflexivity|].
  destruct (want =? 0)%nat; [split; reflexivity|].
  destruct (off >=? size b2); [split; reflexivity|].
  assert (VB : sameView (finishWriting b1) (finishWriting b2)).
  { apply sameView_trans with b2; [|apply finishWriting_sameView].
    apply sameView_trans with b1; [|exact V].
    destruct (finishWriting_sameView b1). constructor; congruence. }
  clear V. revert VB. generalize (finishWriting b1), (finishWriting b2).
  clear b1 b2. intros b1 b2 V. cbv zeta.
  rewrite (view_buff _ _ V), (view_useFile _ _ V).
  match goal with |- context [if ?c then _ else _] => destruct c end;
    [|split; reflexivity].
  pose proof (openReaderAt_reliable b1 io1 H1) as O1.
  pose proof (openReaderAt_reliable b2 io2 H2) as O2.
  rewrite (view_access _ _ V) in O1.
  destruct (access b2).
  - destruct O1 as (b1' & h1 & -> & -> & Hb1 & _).
    destruct O2 as (b2' & h2 & -> & -> & Hb2 & _).
    unfold fileReadAt.
    replace (file_data b1') with (file_data b2').
    + match goal with |- context [if ?c then _ else _] => destruct c end;
        [split; reflexivity|].
      match goal with |- context [if ?c then _ else _] => destruct c end;
        split; reflexivity.
    + transitivity (file_data b2); [destruct Hb2 as [-> | ->]; reflexivity|].
      rewrite <- (view_file_data _ _ V). destruct Hb1 as [-> | ->]; reflexivity.
  - destruct O1 as (h1 & -> & ->). destruct O2 as (h2 & -> & ->). split; reflexivity.
  - rewrite O1, O2. split; reflexivity.
Qed.

(** ** The counters [size] and [offset] *)

(** [Write] adds to [size] the count it reports (nothing when it panics)
    and leaves [offset] alone, whatever the environment answers. *)
Lemma Write_counters (b : Buffer) (data : list byte) (io : IO) :
  let '(b', r) := Write b data io in
  offset b' = offset b
  /\ match r with
     | Ret (n, _) => size b' = size b + n
     | Panic => size b' = size b
     end.
Proof.
  destruct b as [mx wf rf sz o dir enc key bf wfile rfile use fname fdata].
  unfold Write, writeToFile; cbn.
  destruct wf; [cbn; split; [reflexivity|lia]|].
  destruct use; cbn.
  - destruct wfile; [destruct (file_write io)|]; cbn; split; reflexivity || lia.
  - destruct (len bf + len data <=? mx); [cbn; split; reflexivity|].
    destruct (mx - len bf <? 0); [cbn; split; reflexivity|].
    destruct (tempfile io); [|cbn; split; reflexivity].
    destruct (enc && negb (encrypt_writer_ok io)); [cbn; split; reflexivity|].
    cbn. destruct (file_write io); cbn; split; reflexivity.
Qed.

Lemma readFromFile_frame (b : Buffer) (n : nat) (io : IO) :
  let '(b', _, _) := readFromFile b n io in
  size b' = size b /\ offset b' = offset b
  /\ readingFinished b' = readingFinished b.
Proof.
  unfold readFromFile, handleRead.
  destruct (readFile b); [cbn; auto|].
  destruct (canOpen b io); [|cbn; auto].
  destruct (encrypt b); [destruct (decrypt_reader_ok io)|]; cbn; auto.
Qed.

Lemma readDeferred_counters (b : Buffer) (n want : nat) :
  size (readDeferred b n want) = size b
  /\ offset (readDeferred b n want) = offset b + Z.of_nat n.
Proof.
  unfold readDeferred. destruct (n <? want)%nat; cbn.
  - destruct (readFile b); cbn; auto.
  - destruct (readingFinished b); [destruct (readFile b)|]; cbn; auto.
Qed.

(** [Read] advances [offset] by the number of bytes it returns and leaves
    [size] alone, whatever the environment answers. *)
Lemma Read_counters (b : Buffer) (want : nat) (io : IO) :
  let '(b', out, _) := Read b want io in
  size b' = size b /\ offset b' = offset b + len out.
Proof.
  unfold Read. destruct (readingFinished b); [cbn; split; [reflexivity|lia]|].
  destruct (finishWriting_frame b) as (_ & _ & <- & <- & _).
  generalize (finishWriting b). intros B.
  assert (Hfile : forall (B0 : Buffer) (k : nat) (pre : list byte),
    size B0 = size B -> offset B0 = offset B ->
    let '(b', out, _) :=
      let '(b1, out1, err) := readFromFile B0 k io in
      (readDeferred b1 (Datatypes.length (pre ++ out1)) want, pre ++ out1, err) in
    size b' = size B /\ offset b' = offset B + len out).
  { intros B0 k pre E1 E2.
    pose proof (readFromFile_frame B0 k io) as HF.
    destruct (readFromFile B0 k io) as [[b1 out1] err].
    destruct HF as (F1 & F2 & _).
    destruct (readDeferred_counters b1 (Datatypes.length (pre ++ out1)) want) as [D1 D2].
    unfold len. split; congruence. }
  destruct (buff B) as [|x l] eqn:Hbuff.
  - destruct (useFile B).
    + specialize (Hfile B want [] eq_refl eq_refl). cbn [app] in Hfile.
      destruct (readFromFile B want io) as [[b1 out1] err]. exact Hfile.
    + destruct (readDeferred_counters B 0 want) as [D1 D2]. cbn.
      split; [exact D1|]. rewrite D2. reflexivity.
  - unfold readFromBuffer. rewrite Hbuff.
    match goal with |- context [if ?c then _ else _] => destruct c end.
    + match goal with
      | |- context [readDeferred ?b0 ?n ?w] =>
          destruct (readDeferred_counters b0 n w) as [D1 D2]
      end.
      split; [exact D1|]. rewrite D2. reflexivity.
    + specialize (Hfile (set_buff (skipn want (x :: l)) B)
                    (want - Datatypes.length (firstn want (x :: l)))%nat
                    (firstn want (x :: l)) eq_refl eq_refl).
      destruct (readFromFile (set_buff (skipn want (x :: l)) B)
                  (want - Datatypes.length (firstn want (x :: l))) io)
        as [[b1 out1] err].
      exact Hfile.
Qed.

Lemma Next_frame (b : Buffer) (n : Z) :
  let '(b', r) := Next b n in
  size b' = size b /\ offset b' = offset b /\ useFile b' = useFile b
  /\ readFile b' = readFile b /\ file_data b' = file_data b
  /\ filename b' = filename b /\ writingFinished b' = writingFinished b
  /\ readingFinished b' = readingFinished b
  /\ match r with
     | Ret out => buff b = out ++ buff b' /\ len out <= Z.max 0 n
     | Panic => b' = b
     end.
Proof.
  unfold Next. destruct ((n <? 0) || (maxAlloc <? n)) eqn:Hn; [repeat split|].
  apply orb_false_elim in Hn. destruct Hn as [Hn _]. apply Z.ltb_ge in Hn.
  destruct (buff b) as [|x l] eqn:Hbuff.
  - destruct (n =? 0); repeat split; try assumption.
    + cbn. congruence.
    + unfold len; cbn [Datatypes.length]; lia.
  - cbn -[firstn skipn]. repeat split.
    + symmetry. apply firstn_skipn.
    + unfold len. rewrite length_firstn. lia.
Qed.

Lemma Reset_counters (b : Buffer) :
  size (Reset b) = size b /\ offset (Reset b) = offset b.
Proof.
  unfold Reset. destruct (String.eqb (filename (set_buff [] b)) EmptyString); split; reflexivity.
Qed.

(** Along any sequence of calls, [Len] moves by what [Write] reported and
    by what [Read] returned, and by nothing else. *)
Lemma run_counters (os : list op) :
  forall b : Buffer,
    Len (fst (run b os))
    = Len b + written (snd (run b os)) - consumed (snd (run b os)).
Proof.
  induction os as [|o os IH]; intros b; [cbn; lia|].
  cbn [run].
  destruct (step b o) as [b1 e] eqn:Hstep.
  specialize (IH b1). destruct (run b1 os) as [b2 es].
  cbn [fst snd] in *. rewrite IH. clear IH.
  assert (H : Len b1 = Len b + written [e] - consumed [e]
              /\ written (e :: es) = written [e] + written es
              /\ consumed (e :: es) = consumed [e] + consumed es);
    [|lia].
  unfold Len. destruct o as [data io|want io|want off io|n| |key];
    cbn [step] in Hstep.
  - pose proof (Write_counters b data io) as H.
    destruct (Write b data io) as [b' r]. inversion Hstep; subst; clear Hstep.
    destruct H as [H1 H2]. destruct r as [[n err]|]; cbn; lia.
  - pose proof (Read_counters b want io) as H.
    destruct (Read b want io) as [[b' out] err]. inversion Hstep; subst; clear Hstep.
    destruct H as [H1 H2]. cbn. lia.
  - destruct (ReadAt_frame b want off io) as (H1 & H2 & _).
    destruct (ReadAt b want off io) as [[b' out] err]. inversion Hstep; subst; clear Hstep.
    cbn in *. lia.
  - pose proof (Next_frame b n) as H.
    destruct (Next b n) as [b' r]. inversion Hstep; subst; clear Hstep.
    destruct H as (H1 & H2 & _). cbn. lia.
  - inversion Hstep; subst; clear Hstep.
    destruct (Reset_counters b) as [H1 H2]. rewrite H1, H2.
    cbn [written consumed]. lia.
  - inversion Hstep; subst; clear Hstep. destruct key; cbn; lia.
Qed.

(** ** From the constructor to the properties *)

Lemma NewBufferWithMaxMemorySize_unused (t : Z) :
  0 <= t -> Z.quot t 2 <= maxAlloc ->
  NewBufferWithMaxMemorySize t = Ret (fresh t false) /\ unused t (fresh t false).
Proof.
  intros Ht Hmax. split; [|apply fresh_holds; exact Ht].
  unfold NewBufferWithMaxMemorySize.
  replace (Z.quot t 2 <? 0) with false
    by (symmetry; apply Z.ltb_ge; apply Z.quot_pos; lia).
  replace (maxAlloc <? Z.quot t 2) with false
    by (symmetry; apply Z.ltb_ge; exact Hmax).
  reflexivity.
Qed.

Lemma EnableEncryption_unused (t : Z) (b : Buffer) (key : option (list byte)) :
  unused t b -> unused t (fst (EnableEncryption b key)).
Proof.
  intros []. unfold EnableEncryption. destruct key; constructor; assumption.
Qed.

Lemma ChangeTempDir_unused (t : Z) (b : Buffer) (abs : option string) :
  unused t b -> unused t (fst (ChangeTempDir b abs)).
Proof.
  intros []. unfold ChangeTempDir. destruct abs; constructor; assumption.
Qed.

Lemma reliable_io_ok : reliable io_ok.
Proof. unfold reliable, io_ok; cbn. repeat split; discriminate. Qed.

(** A buffer that holds [s] and was not read yet: the stream to read and the
    bytes to address are [s]. *)
Lemma holds_stream (t : Z) (s : list byte) (b : Buffer) :
  0 <= t -> holds t s b ->
  readable b /\ remaining b = s /\ stored b = s
  /\ (useFile b = true -> access b = CanReadAt).
Proof.
  intros Ht [Hmax Hw Hr Hsz Hoff Hbuff Hrf Huse Hfile].
  unfold remaining, stored, filePos, access. rewrite Hrf, Hbuff.
  destruct (useFile b) eqn:Hu.
  - destruct Hfile as (_ & Hname & ->). rewrite skipn_0, firstn_skipn.
    split; [constructor; [exact Hr|intros _ _; exact Hname]|].
    apply String.eqb_neq in Hname. rewrite Hname. auto.
  - symmetry in Huse. apply Z.ltb_ge in Huse.
    rewrite app_nil_r, firstn_all2 by (unfold len in Huse; lia).
    split; [constructor; [exact Hr|intros H; congruence]|].
    split; [reflexivity|]. split; [reflexivity|]. intros H; discriminate H.
Qed.

(** C1. Sequential round trip: after any sequence of [Write] calls on an
    unused buffer, in a reliable environment, calling [Read] with slices of
    any positive lengths until it reports end of data returns chunks whose
    concatenation is the concatenation of the written payloads, whatever the
    threshold; the loop ends within [length s + 2] calls. *)
Theorem sequential_round_trip (t : Z) (b0 : Buffer) (ws : list (list byte * IO))
  (want : nat -> nat) (env : nat -> IO) (fuel : nat) :
  0 <= t -> unused t b0 ->
  Forall (fun w => reliable (snd w)) ws ->
  (forall i, (0 < want i)%nat) -> (forall i, reliable (env i)) ->
  (List.length (List.concat (map fst ws)) + 2 <= fuel)%nat ->
  exists b b',
    writeAll b0 ws = (b, map (fun w => Ret (len (fst w), None)) ws)
    /\ readUntilEOF fuel b want env 0
       = Some (b', List.concat (map fst ws), None).
Proof.
  intros Ht Hb0 Hws Hwant Henv Hfuel.
  destruct (writeAll_holds t ws Ht Hws [] b0 Hb0) as (b & HW & Hb & _).
  cbn [app] in Hb.
  destruct (holds_stream t _ b Ht Hb) as (Hread & Hrem & _).
  destruct (readUntilEOF_drains want env Hwant Henv fuel b 0%nat Hread)
    as (b' & HR & _); [rewrite Hrem; exact Hfuel|].
  exists b, b'. rewrite Hrem in HR. split; assumption.
Qed.

Lemma sequential_round_trip_witness :
  exists b b',
    writeAll (fresh 5 false)
      [(bytes "123", io_ok); (bytes "456", io_ok); (bytes "789", io_ok)]
    = (b, [Ret (3, None); Ret (3, None); Ret (3, None)])
    /\ readUntilEOF 11 b (fun _ => 4%nat) (fun _ => io_ok) 0
       = Some (b', bytes "123456789", None).
Proof.
  apply (sequential_round_trip 5 (fresh 5 false)
           [(bytes "123", io_ok); (bytes "456", io_ok); (bytes "789", io_ok)]
           (fun _ => 4%nat) (fun _ => io_ok) 11).
  - lia.
  - apply fresh_holds. lia.
  - repeat constructor; discriminate.
  - intros _. lia.
  - intros _. apply reliable_io_ok.
  - vm_compute. lia.
Defined.

(** C2. Cross-tier stitching: when the written content [s] is longer than
    the threshold and nothing else happened to the buffer, [ReadAt] with a
    slice of length [want] at offset [off], [off + want <= length s], stores
    exactly [s[off : off+want]] and reports [want] bytes and no error, across
    the boundary between memory and file too. *)
Theorem ReadAt_cross_tier_stitching (t : Z) (b0 : Buffer)
  (ws : list (list byte * IO)) (want : nat) (off : Z) (io : IO) :
  0 <= t -> unused t b0 ->
  Forall (fun w => reliable (snd w)) ws -> reliable io ->
  t < len (List.concat (map fst ws)) ->
  0 <= off -> off + Z.of_nat want <= len (List.concat (map fst ws)) ->
  let out := firstn want (skipn (Z.to_nat off) (List.concat (map fst ws))) in
  List.length out = want
  /\ exists b', ReadAt (fst (writeAll b0 ws)) want off io = (b', out, None).
Proof.
  intros Ht Hb0 Hws Hio Hlong Hoff Hend out.
  destruct (writeAll_holds t ws Ht Hws [] b0 Hb0) as (b & HW & Hb & _).
  cbn [app] in Hb. rewrite HW. cbn [fst].
  set (s := List.concat (map fst ws)) in *.
  assert (Hout : List.length out = want).
  { subst out. rewrite length_firstn, length_skipn. unfold len in *. lia. }
  split; [exact Hout|].
  destruct (Nat.eq_dec want 0) as [->|Hpos].
  - exists b. unfold ReadAt.
    replace (off <? 0) with false by (symmetry; apply Z.ltb_ge; lia).
    reflexivity.
  - destruct (holds_stream t s b Ht Hb) as (_ & _ & Hst & Hacc).
    destruct (ReadAt_reliable b want off io Hio) as (b' & HR);
      [rewrite (holds_size _ _ _ Hb); lia|lia|exact Hacc|].
    exists b'. rewrite HR, Hst. fold out. rewrite Hout, Nat.ltb_irrefl.
    reflexivity.
Qed.

Lemma ReadAt_cross_tier_stitching_witness :
  List.length (bytes "ell") = 3%nat
  /\ exists b', ReadAt (fst (writeAll (fresh 2 false) [(bytes "Hello, world!", io_ok)]))
                  3 1 io_ok
                = (b', bytes "ell", None).
Proof.
  apply (ReadAt_cross_tier_stitching 2 (fresh 2 false)
           [(bytes "Hello, world!", io_ok)] 3 1 io_ok).
  - lia.
  - apply fresh_holds. lia.
  - repeat constructor; discriminate.
  - apply reliable_io_ok.
  - vm_compute. reflexivity.
  - lia.
  - vm_compute. discriminate.
Defined.

(** C3. Threshold boundary: writes that total at most the threshold [t] (so
    exactly [t] too) never create the file, whatever the environment; in a
    reliable environment, writes that total [t + 1] bytes or more create it,
    with the first [t] bytes in the memory and the other [total - t] bytes
    in the file. *)
Theorem threshold_boundary (t : Z) (b0 : Buffer) (ws : list (list byte * IO)) :
  0 <= t -> unused t b0 ->
  let s := List.concat (map fst ws) in
  let b := fst (writeAll b0 ws) in
  (len s <= t ->
   useFile b = false /\ filename b = EmptyString /\ writeFile b = None
   /\ file_data b = [] /\ buff b = s /\ size b = len s)
  /\ (Forall (fun w => reliable (snd w)) ws -> t + 1 <= len s ->
      useFile b = true /\ filename b <> EmptyString /\ writeFile b <> None
      /\ file_data b = skipn (Z.to_nat t) s /\ len (file_data b) = size b - t
      /\ buff b = firstn (Z.to_nat t) s /\ len (buff b) = t
      /\ size b = len s).
Proof.
  intros Ht Hb0 s b. split.
  - intros Hfit.
    destruct (writeAll_fits t ws [] b0 Hb0) as (b1 & HW & Hb1);
      [cbn; exact Hfit|].
    subst b. rewrite HW. cbn [fst app] in *. fold s in Hb1.
    destruct Hb1 as [_ _ _ Hsz _ Hbuff _ Huse Hfile].
    replace (t <? len s) with false in Huse by (symmetry; apply Z.ltb_ge; lia).
    rewrite Huse in *. destruct Hfile as (Hwf & Hname & Hdata).
    rewrite firstn_all2 in Hbuff by (unfold len in Hfit; lia).
    repeat split; assumption.
  - intros Hws Hover.
    destruct (writeAll_holds t ws Ht Hws [] b0 Hb0) as (b1 & HW & Hb1 & _).
    subst b. rewrite HW. cbn [fst app] in *. fold s in Hb1.
    destruct Hb1 as [_ _ _ Hsz _ Hbuff _ Huse Hfile].
    replace (t <? len s) with true in Huse by (symmetry; apply Z.ltb_lt; lia).
    rewrite Huse in *. destruct Hfile as (Hwf & Hname & Hdata).
    repeat split; try assumption.
    + rewrite Hdata, Hsz. unfold len. rewrite length_skipn. unfold len in Hover. lia.
    + rewrite Hbuff. unfold len. rewrite length_firstn. unfold len in Hover. lia.
Qed.

Lemma threshold_boundary_witness :
  let b5 := fst (writeAll (fresh 5 false) [(bytes "123", io_ok); (bytes "45", io_ok)]) in
  let b6 := fst (writeAll (fresh 5 false) [(bytes "123", io_ok); (bytes "456", io_ok)]) in
  (useFile b5 = false /\ filename b5 = EmptyString)
  /\ (useFile b6 = true /\ file_data b6 = bytes "6" /\ buff b6 = bytes "12345").
Proof.
  split.
  - destruct (threshold_boundary 5 (fresh 5 false)
                [(bytes "123", io_ok); (bytes "45", io_ok)]) as [H _].
    + lia.
    + apply fresh_holds. lia.
    + destruct H as (H1 & H2 & _); [vm_compute; discriminate|]. split; assumption.
  - destruct (threshold_boundary 5 (fresh 5 false)
                [(bytes "123", io_ok); (bytes "456", io_ok)]) as [_ H].
    + lia.
    + apply fresh_holds. lia.
    + destruct H as (H1 & _ & _ & H2 & _ & H3 & _).
      * repeat constructor; discriminate.
      * vm_compute. discriminate.
      * repeat split; assumption.
Defined.

(** ** The gate between writing and reading *)

(** Once writing is finished, [Write] reports [ErrBufferFinished] and
    changes nothing. *)
Lemma Write_finished (b : Buffer) (data : list byte) (io : IO) :
  writingFinished b = true -> Write b data io = (b, Ret (0, Some ErrBufferFinished)).
Proof. intros H. unfold Write. rewrite H. reflexivity. Qed.

Lemma Write_flags (b : Buffer) (data : list byte) (io : IO) :
  writingFinished (fst (Write b data io)) = writingFinished b
  /\ readingFinished (fst (Write b data io)) = readingFinished b.
Proof.
  destruct b as [mx wf rf sz o dir enc key bf wfile rfile use fname fdata].
  unfold Write, writeToFile; cbn.
  destruct wf; [cbn; split; reflexivity|].
  destruct use; cbn.
  - destruct wfile; [destruct (file_write io)|]; cbn; split; reflexivity.
  - destruct (len bf + len data <=? mx); [cbn; split; reflexivity|].
    destruct (mx - len bf <? 0); [cbn; split; reflexivity|].
    destruct (tempfile io); [|cbn; split; reflexivity].
    destruct (enc && negb (encrypt_writer_ok io)); [cbn; split; reflexivity|].
    cbn. destruct (file_write io); cbn; split; reflexivity.
Qed.

Lemma Read_finishes_writing (b : Buffer) (want : nat) (io : IO) :
  readingFinished b = false -> writingFinished (fst (fst (Read b want io))) = true.
Proof.
  intros Hr. unfold Read. rewrite Hr.
  destruct (finishWriting_frame b) as (Hw & _).
  revert Hw. generalize (finishWriting b). intros B Hw.
  assert (HD : forall b0 n, writingFinished b0 = true ->
                            writingFinished (readDeferred b0 n want) = true).
  { intros b0 n H0. unfold readDeferred.
    destruct (n <? want)%nat; cbn.
    - destruct (readFile b0); cbn; exact H0.
    - destruct (readingFinished b0); [destruct (readFile b0)|]; cbn; exact H0. }
  assert (HF : forall b0 n, writingFinished b0 = true ->
                            writingFinished (fst (fst (readFromFile b0 n io))) = true).
  { intros b0 n H0. unfold readFromFile, handleRead.
    destruct (readFile b0); [exact H0|].
    destruct (canOpen b0 io); [|exact H0].
    destruct (encrypt b0); [destruct (decrypt_reader_ok io)|]; exact H0. }
  destruct (buff B) as [|x l] eqn:Hbuff.
  - destruct (useFile B).
    + specialize (HF B want Hw).
      destruct (readFromFile B want io) as [[b1 out1] err]. cbn in *.
      apply HD. exact HF.
    + cbn. apply HD. exact Hw.
  - unfold readFromBuffer.
    match goal with |- context [if ?c then _ else _] => destruct c end.
    + cbn. apply HD. exact Hw.
    + specialize (HF (set_buff (skipn want (buff B)) B)
                    (want - Datatypes.length (firstn want (buff B)))%nat Hw).
      destruct (readFromFile (set_buff (skipn want (buff B)) B)
                  (want - Datatypes.length (firstn want (buff B))) io)
        as [[b1 out1] err].
      cbn in *. apply HD. exact HF.
Qed.

Lemma step_gated (b : Buffer) (o : op) : gated b -> gated (fst (step b o)).
Proof.
  unfold gated. intros Hb.
  destruct o as [data io|want io|want off io|n| |key]; cbn [step].
  - destruct (Write_flags b data io) as [H1 H2].
    destruct (Write b data io) as [b' r]. cbn in *.
    intros Hr. rewrite H1. apply Hb. rewrite <- H2. exact Hr.
  - destruct (readingFinished b) eqn:Hr.
    + unfold Read. rewrite Hr. cbn. intros _. exact (Hb eq_refl).
    + pose proof (Read_finishes_writing b want io Hr) as H.
      destruct (Read b want io) as [[b' out] err]. cbn in *. intros _. exact H.
  - destruct (finishWriting_frame b) as (Fw & Fr & _).
    pose proof (ReadAt_state b want off io) as H.
    destruct (ReadAt b want off io) as [[b' out] err]. cbn in H |- *.
    destruct H as [-> | [-> | (h & -> & _)]]; [exact Hb| |]; intros _; exact Fw.
  - pose proof (Next_frame b n) as H.
    destruct (Next b n) as [b' r]. cbn.
    destruct H as (_ & _ & _ & _ & _ & _ & Hw & Hr & _).
    intros Hr'. rewrite Hw. apply Hb. rewrite <- Hr. exact Hr'.
  - unfold Reset. destruct (String.eqb (filename (set_buff [] b)) EmptyString); cbn; discriminate.
  - unfold EnableEncryption. destruct key; cbn; exact Hb.
Qed.

Lemma run_gated (os : list op) : forall b : Buffer, gated b -> gated (fst (run b os)).
Proof.
  induction os as [|o os IH]; intros b Hb; [exact Hb|].
  cbn [run]. pose proof (step_gated b o Hb) as H1.
  destruct (step b o) as [b1 e]. specialize (IH b1 H1).
  destruct (run b1 os) as [b2 es]. exact IH.
Qed.

(** What holds of the gate: after any history of calls on an unused buffer,
    a [Write] that follows a [Read] (and so a [ReadByte], a [ReadBytes], ...)
    reports [ErrBufferFinished] and accepts nothing. *)
Lemma Write_after_Read_is_rejected (t : Z) (b0 : Buffer) (os : list op)
  (want : nat) (io : IO) (data : list byte) (io' : IO) :
  unused t b0 ->
  let b := fst (fst (Read (fst (run b0 os)) want io)) in
  Write b data io' = (b, Ret (0, Some ErrBufferFinished)).
Proof.
  intros Hb0 b.
  assert (G : gated (fst (run b0 os))).
  { apply run_gated. unfold gated. rewrite (holds_reading _ _ _ Hb0). discriminate. }
  apply Write_finished. subst b.
  destruct (readingFinished (fst (run b0 os))) eqn:Hr.
  - unfold Read. rewrite Hr. cbn. exact (G Hr).
  - apply Read_finishes_writing. exact Hr.
Qed.

(** C4. Write after read, for [Next]: with threshold 5, after
    [Write("abc")] the call [Next(1)] returns "a" and leaves
    [writingFinished] false, so [Write("d")] is accepted: it returns
    [(1, nil)], not [ErrBufferFinished], although the comment of [Write] in
    the source names [Next] among the calls after which it fails. *)
Theorem Write_after_Next_is_accepted :
  let b := fst (Write (fresh 5 false) (bytes "abc") io_ok) in
  let b1 := fst (Next b 1) in
  snd (Next b 1) = Ret (bytes "a")
  /\ writingFinished b1 = false
  /\ snd (Write b1 (bytes "d") io_ok) = Ret (1, None)
  /\ buff (fst (Write b1 (bytes "d") io_ok)) = bytes "bcd".
Proof. vm_compute. repeat split. Qed.

(** C5. Reset: [Reset] clears the memory, the handles, the flags and the
    file name, but neither [size] nor [offset]: with threshold 5, after
    [Write("abc")] and [Reset], [Len] is 3 although nothing is left to read,
    while it is 0 for a new buffer. *)
Theorem Reset_keeps_size_and_offset :
  let b := fst (Write (fresh 5 false) (bytes "abc") io_ok) in
  Len (Reset b) = 3
  /\ buff (Reset b) = []
  /\ snd (fst (Read (Reset b) 10 io_ok)) = []
  /\ Len (fresh 5 false) = 0.
Proof. vm_compute. repeat split. Qed.

(** C6, as the specification states it, does not hold.  With threshold 2
    and content
    "Hello, world!", [ReadAt] of 3 bytes at offset 5 returns ", w"; a [Read]
    of 300 bytes then returns the whole content short of the request, which
    ends the stream and removes the file; the same [ReadAt] now returns no
    byte and the error of [os.Open].  The buffer was not reset. *)
Lemma ReadAt_differs_after_the_stream_ended :
  let b := fst (Write (fresh 2 false) (bytes "Hello, world!") io_ok) in
  let '(b1, out1, err1) := ReadAt b 3 5 io_ok in
  let '(b2, all, _) := Read b1 300 io_ok in
  let '(_, out2, err2) := ReadAt b2 3 5 io_ok in
  out1 = bytes ", w" /\ err1 = None
  /\ all = bytes "Hello, world!" /\ readingFinished b2 = true
  /\ out2 = [] /\ err2 = Some ErrOpenTemp
  /\ out1 <> out2.
Proof. vm_compute. repeat split; discriminate. Qed.

(** A second way for two equal [ReadAt] calls to differ: [ReadAt] addresses
    the unread part of the memory ([b.buff.Len()], [b.buff.Bytes()]).  With threshold 5
    and content "123456789", [ReadAt] of 2 bytes at offset 0 returns "12";
    after a [Read] of 3 bytes the same call returns "45". *)
Lemma ReadAt_shifts_with_the_memory_drained :
  let b := fst (Write (fresh 5 false) (bytes "123456789") io_ok) in
  let '(b1, out1, _) := ReadAt b 2 0 io_ok in
  let '(b2, _, _) := Read b1 3 io_ok in
  let '(_, out2, _) := ReadAt b2 2 0 io_ok in
  out1 = bytes "12" /\ out2 = bytes "45".
Proof. vm_compute. split; reflexivity. Qed.

Lemma readAtAll_sameView (calls : list (nat * Z * IO)) :
  forall b : Buffer, sameView b (readAtAll b calls).
Proof.
  induction calls as [|[[want off] io] calls IH]; intros b; cbn [readAtAll].
  - apply sameView_refl.
  - eapply sameView_trans; [apply (ReadAt_sameView b want off io)|apply IH].
Qed.

(** C6, amended.  [ReadAt] never changes [offset], [readingFinished] or
    [size] (so not [Len] either), whatever the environment answers; and in
    reliable environments two [ReadAt] calls with the same arguments return
    the same bytes and the same error when only [ReadAt] calls, with any
    arguments and in any environment, happen between them. *)
Theorem ReadAt_independent_and_repeatable (b : Buffer) (want : nat) (off : Z) (io : IO) :
  (let b1 := fst (fst (ReadAt b want off io)) in
   offset b1 = offset b /\ readingFinished b1 = readingFinished b
   /\ size b1 = size b /\ Len b1 = Len b)
  /\ (forall (calls : list (nat * Z * IO)) (io' : IO),
        reliable io -> reliable io' ->
        let b2 := readAtAll (fst (fst (ReadAt b want off io))) calls in
        snd (fst (ReadAt b2 want off io')) = snd (fst (ReadAt b want off io))
        /\ snd (ReadAt b2 want off io') = snd (ReadAt b want off io)).
Proof.
  split.
  - destruct (ReadAt_frame b want off io) as (H1 & H2 & H3 & _).
    cbv zeta. unfold Len. rewrite H1, H2, H3. repeat split.
  - intros calls io' Hio Hio' b2. subst b2.
    apply ReadAt_congruence; [|exact Hio'|exact Hio].
    destruct (sameView_trans _ _ _ (ReadAt_sameView b want off io)
                (readAtAll_sameView calls (fst (fst (ReadAt b want off io))))).
    constructor; symmetry; assumption.
Qed.

Lemma ReadAt_independent_and_repeatable_witness :
  let b := fst (Write (fresh 2 false) (bytes "Hello, world!") io_ok) in
  let b2 := readAtAll (fst (fst (ReadAt b 3 1 io_ok))) [(5%nat, 7, io_ok); (2%nat, 0, io_ok)] in
  snd (fst (ReadAt b2 3 1 io_ok)) = snd (fst (ReadAt b 3 1 io_ok))
  /\ snd (ReadAt b2 3 1 io_ok) = snd (ReadAt b 3 1 io_ok).
Proof.
  intros b b2.
  destruct (ReadAt_independent_and_repeatable b 3 1 io_ok) as [_ H].
  apply (H [(5%nat, 7, io_ok); (2%nat, 0, io_ok)] io_ok).
  - apply reliable_io_ok.
  - apply reliable_io_ok.
Defined.

(** C7, as the specification states it, does not hold: on a buffer whose
    memory holds no unread
    byte, [Next(1)] panics ([bytes.Buffer.Read] reports [io.EOF], [Next]
    panics on every error); it does not return an empty slice. *)
Lemma Next_panics_on_empty_memory :
  Next (fresh 5 false) 1 = (fresh 5 false, Panic)
  /\ ~ (exists out, snd (Next (fresh 5 false) 1) = Ret out).
Proof.
  split; [reflexivity|]. intros [out H]. vm_compute in H. discriminate H.
Qed.

(** C7, amended.  For [0 <= n]: when [n] is at most [maxAlloc], the largest
    slice there is, and the memory holds an unread byte or [n = 0],
    [Next(n)] returns the first [min n (unread bytes)] unread bytes of the
    memory and removes them from it, without error and without touching the
    file, its handles or the counters, however much the file holds; when
    the memory holds no unread byte and [n > 0], [Next(n)] panics and
    changes nothing; and so it does, whatever the memory holds, when [n] is
    beyond [maxAlloc]. *)
Theorem Next_memory_only (b : Buffer) (n : Z) :
  0 <= n ->
  (n <= maxAlloc -> buff b <> [] \/ n = 0 ->
   exists b',
     Next b n = (b', Ret (firstn (Z.to_nat n) (buff b)))
     /\ len (firstn (Z.to_nat n) (buff b)) = Z.min n (len (buff b))
     /\ buff b' = skipn (Z.to_nat n) (buff b)
     /\ file_data b' = file_data b /\ readFile b' = readFile b
     /\ filename b' = filename b /\ useFile b' = useFile b
     /\ size b' = size b /\ offset b' = offset b)
  /\ (buff b = [] -> 0 < n -> Next b n = (b, Panic))
  /\ (maxAlloc < n -> Next b n = (b, Panic)).
Proof.
  intros Hn. unfold Next.
  replace (n <? 0) with false by (symmetry; apply Z.ltb_ge; exact Hn).
  cbn [orb]. split; [|split].
  - intros Hmax Hcase.
    replace (maxAlloc <? n) with false by (symmetry; apply Z.ltb_ge; exact Hmax).
    destruct (buff b) as [|x l] eqn:Hbuff.
    + destruct Hcase as [Hne | ->]; [congruence|].
      exists b. cbn. rewrite Hbuff. repeat split.
    + eexists. split; [reflexivity|].
      split; [unfold len; rewrite length_firstn; lia|].
      cbn -[firstn skipn]. repeat split.
  - intros Hbuff Hpos. rewrite Hbuff.
    replace (n =? 0) with false by (symmetry; apply Z.eqb_neq; lia).
    destruct (maxAlloc <? n); reflexivity.
  - intros Hbig.
    replace (maxAlloc <? n) with true by (symmetry; apply Z.ltb_lt; exact Hbig).
    reflexivity.
Qed.

Lemma Next_memory_only_witness :
  let b := fst (Write (fresh 5 false) (bytes "123456789") io_ok) in
  (exists b', Next b 7 = (b', Ret (bytes "12345")) /\ file_data b' = bytes "6789")
  /\ Next (fresh 5 false) 3 = (fresh 5 false, Panic)
  /\ Next b (2 ^ 49) = (b, Panic).
Proof.
  intros b. split; [|split].
  - destruct (Next_memory_only b 7) as [H _]; [lia|].
    destruct H as (b' & H1 & _ & _ & H2 & _);
      [vm_compute; discriminate|left; discriminate|].
    exists b'. split; [exact H1|exact H2].
  - destruct (Next_memory_only (fresh 5 false) 3) as (_ & H & _); [lia|].
    apply H; [reflexivity|lia].
  - destruct (Next_memory_only b (2 ^ 49)) as (_ & _ & H);
      [vm_compute; discriminate|].
    apply H. vm_compute. reflexivity.
Defined.

(** C8. Length accounting: [Len] and [Cap] are [size - offset]; along any
    sequence of calls [Len] grows by the counts the [Write] calls reported
    and shrinks by the bytes the [Read] calls returned, and by nothing else;
    one [Read] lowers it by what it returns, [ReadAt] never changes it; and
    an unused buffer has [Len] 0, and [Len] [k] after [k] bytes were written
    in a reliable environment. *)
Theorem length_accounting (b : Buffer) (os : list op) :
  Len b = size b - offset b
  /\ Cap b = Len b
  /\ Len (fst (run b os))
     = Len b + written (snd (run b os)) - consumed (snd (run b os))
  /\ (forall want io,
        Len (fst (fst (Read b want io))) = Len b - len (snd (fst (Read b want io))))
  /\ (forall want off io, Len (fst (fst (ReadAt b want off io))) = Len b)
  /\ (forall t,
        unused t b ->
        Len b = 0
        /\ Len (fst (run b os)) = written (snd (run b os)) - consumed (snd (run b os)))
  /\ (forall t ws,
        0 <= t -> unused t b -> Forall (fun w => reliable (snd w)) ws ->
        Len (fst (writeAll b ws)) = len (List.concat (map fst ws))).
Proof.
  split; [reflexivity|]. split; [reflexivity|].
  split; [apply run_counters|].
  split; [|split; [|split]].
  - intros want io. pose proof (Read_counters b want io) as H.
    destruct (Read b want io) as [[b' out] err]. cbn [fst snd].
    destruct H as [H1 H2]. unfold Len. lia.
  - intros want off io. destruct (ReadAt_frame b want off io) as (H1 & H2 & _).
    unfold Len. cbv zeta in H1, H2. lia.
  - intros t Hb.
    assert (H0 : Len b = 0)
      by (unfold Len; rewrite (holds_size _ _ _ Hb), (holds_offset _ _ _ Hb);
          reflexivity).
    split; [exact H0|]. rewrite run_counters, H0. lia.
  - intros t ws Ht Hb Hws.
    destruct (writeAll_holds t ws Ht Hws [] b Hb) as (b' & HW & Hb' & _).
    rewrite HW. cbn [fst app] in *. unfold Len.
    rewrite (holds_size _ _ _ Hb'), (holds_offset _ _ _ Hb'). lia.
Qed.

Lemma length_accounting_witness :
  let b := fresh 5 false in
  let ws := [(bytes "123", io_ok); (bytes "456", io_ok); (bytes "789", io_ok)] in
  Len b = 0 /\ Len (fst (writeAll b ws)) = 9.
Proof.
  intros b ws.
  destruct (length_accounting b []) as (_ & _ & _ & _ & _ & H0 & H).
  split.
  - apply (H0 5). apply fresh_holds. lia.
  - apply (H 5 ws).
    + lia.
    + apply fresh_holds. lia.
    + repeat constructor; discriminate.
Defined.

(** C9. [Next] drains the memory without moving the cursor: in every state,
    when [Next(n)] returns [out], [size], [offset] and so [Len] are what
    they were, while [out] is gone from the memory and from the stream of
    the sequential reads.  On a buffer that was only written, reading until
    end of data after the [Next], in a reliable environment, then delivers
    what was written without [out], and [Len] stays [length out] too
    high. *)
Theorem Next_keeps_cursor (b : Buffer) (n : Z) (b' : Buffer) (out : list byte) :
  Next b n = (b', Ret out) ->
  size b' = size b /\ offset b' = offset b /\ Len b' = Len b
  /\ buff b = out ++ buff b'
  /\ remaining b = out ++ remaining b'
  /\ (forall (t : Z) (b0 : Buffer) (ws : list (list byte * IO))
             (want : nat -> nat) (env : nat -> IO) (fuel : nat),
        0 <= t -> unused t b0 -> Forall (fun w => reliable (snd w)) ws ->
        b = fst (writeAll b0 ws) ->
        (forall i, (0 < want i)%nat) -> (forall i, reliable (env i)) ->
        (List.length (remaining b') + 2 <= fuel)%nat ->
        List.concat (map fst ws) = out ++ remaining b'
        /\ exists b'',
             readUntilEOF fuel b' want env 0 = Some (b'', remaining b', None)
             /\ Len b'' = Len b - len (remaining b')
             /\ Len b'' = len out).
Proof.
  intros HN. pose proof (Next_frame b n) as HF. rewrite HN in HF.
  destruct HF as (Hsz & Hoff & Huse & Hrf & Hfd & Hname & _ & Hr & Hbuff & _).
  assert (HLen : Len b' = Len b) by (unfold Len; lia).
  assert (Hrem : remaining b = out ++ remaining b').
  { unfold remaining, filePos. rewrite Hbuff, Huse, Hrf, Hfd, app_assoc. reflexivity. }
  repeat (split; [assumption|]).
  intros t b0 ws want env fuel Ht Hb0 Hws Hb Hwant Henv Hfuel.
  destruct (writeAll_holds t ws Ht Hws [] b0 Hb0) as (bw & HW & Hh & _).
  cbn [app] in Hh. rewrite HW in Hb. cbn [fst] in Hb. subst bw.
  destruct (holds_stream t _ b Ht Hh) as ([Hb1 Hb2] & Hs & _).
  split; [rewrite <- Hs; exact Hrem|].
  assert (Hb' : readable b')
    by (constructor; [congruence|rewrite Huse, Hrf, Hname; exact Hb2]).
  destruct (readUntilEOF_drains want env Hwant Henv fuel b' 0%nat Hb' Hfuel)
    as (b'' & HR & Hsz'' & Hoff'' & _).
  exists b''. split; [exact HR|].
  assert (Hl : len (remaining b) = len out + len (remaining b'))
    by (rewrite Hrem; apply len_app).
  rewrite Hs in Hl.
  pose proof (holds_size _ _ _ Hh) as Hsize. pose proof (holds_offset _ _ _ Hh) as Hzero.
  unfold Len in *. lia.
Qed.

Lemma Next_keeps_cursor_witness :
  let b := fst (writeAll (fresh 5 false) [(bytes "123456789", io_ok)]) in
  let b' := fst (Next b 2) in
  Len b' = Len b /\ buff b = bytes "12" ++ buff b'
  /\ exists b'',
       readUntilEOF 9 b' (fun _ => 4%nat) (fun _ => io_ok) 0
       = Some (b'', bytes "3456789", None)
       /\ Len b'' = 2.
Proof.
  intros b b'.
  destruct (Next_keeps_cursor b 2 b' (bytes "12") eq_refl)
    as (_ & _ & H1 & H2 & _ & H3).
  split; [exact H1|]. split; [exact H2|].
  destruct (H3 5 (fresh 5 false) [(bytes "123456789", io_ok)]
              (fun _ => 4%nat) (fun _ => io_ok) 9%nat)
    as (_ & b'' & HR & _ & HL).
  - lia.
  - apply fresh_holds. lia.
  - repeat constructor; discriminate.
  - reflexivity.
  - intros _. lia.
  - intros _. apply reliable_io_ok.
  - vm_compute. lia.
  - exists b''. split; [exact HR|exact HL].
Defined.

(** C10. [Write] counts what it reports, on failure too: whenever [Write]
    returns [(n, err)], [size] has grown by exactly [n]; and when the data
    does not fit and the temporary file cannot be created, [Write] returns
    the count of the bytes that filled the memory with an error, and those
    bytes stay stored and counted, with [useFile] set. *)
Theorem Write_counts_what_it_reports (b : Buffer) (data : list byte) (io : IO) :
  (forall b' n err, Write b data io = (b', Ret (n, err)) -> size b' = size b + n)
  /\ (writingFinished b = false -> useFile b = false ->
      len (buff b) <= maxInMemorySize b < len (buff b) + len data ->
      tempfile io = None ->
      let bound := maxInMemorySize b - len (buff b) in
      exists b',
        Write b data io = (b', Ret (bound, Some ErrTempFile))
        /\ buff b' = buff b ++ firstn (Z.to_nat bound) data
        /\ size b' = size b + bound
        /\ useFile b' = true /\ writeFile b' = writeFile b
        /\ filename b' = filename b).
Proof.
  split.
  - intros b' n err HW. pose proof (Write_counters b data io) as H.
    rewrite HW in H. apply H.
  - intros Hw Hu [Hlo Hhi] Htmp bound. unfold Write.
    rewrite Hw, Hu. cbn [negb].
    replace (len (buff b) + len data <=? maxInMemorySize b) with false
      by (symmetry; apply Z.leb_gt; lia).
    fold bound.
    replace (bound <? 0) with false by (symmetry; apply Z.ltb_ge; subst bound; lia).
    cbn. rewrite Htmp. eexists. split; [reflexivity|]. cbn. repeat split.
Qed.

Lemma Write_counts_what_it_reports_witness :
  let io := mkIO None true None true true in
  let b := fst (Write (fresh 5 false) (bytes "123") io) in
  exists b',
    Write b (bytes "456") io = (b', Ret (2, Some ErrTempFile))
    /\ buff b' = bytes "12345" /\ size b' = 5.
Proof.
  intros io b.
  destruct (Write_counts_what_it_reports b (bytes "456") io) as [_ H].
  destruct H as (b' & H1 & H2 & H3 & _).
  - reflexivity.
  - reflexivity.
  - vm_compute. split; [discriminate|reflexivity].
  - reflexivity.
  - exists b'. split; [exact H1|]. split; [exact H2|exact H3].
Defined.

(** ** Reading in any environment *)

(** [readFromFile] either fails before reading and changes nothing, or reads
    from where the sequential reads of the file stand. *)
Lemma readFromFile_any (b : Buffer) (n : nat) (io : IO) :
  let '(b', out, err) := readFromFile b n io in
  (b' = b /\ out = [] /\ (err = Some ErrOpenTemp \/ err = Some ErrDecryptStream)
   /\ readFile b = None)
  \/ (exists k, b' = set_readFile (Some (mkReadHandle k (filePos b + List.length out))) b
               /\ out = firstn n (skipn (filePos b) (file_data b))
               /\ err = if (0 <? n)%nat && (List.length out =? 0)%nat
                        then Some EOF else None).
Proof.
  unfold readFromFile, handleRead, filePos.
  destruct (readFile b) as [h|] eqn:Hrf.
  - right. exists (kind h). repeat split.
  - destruct (canOpen b io); [|left; auto].
    destruct (encrypt b); [destruct (decrypt_reader_ok io); [|left; auto]|];
      right; eexists; repeat split.
Qed.

(** What one [Read] does to the stream, whatever the environment answers:
    it returns at most [want] bytes, all taken from the front of the stream,
    and the stream left is no longer than the rest. *)
Lemma Read_any (b : Buffer) (want : nat) (io : IO) :
  readingFinished b = false ->
  let '(b', out, err) := Read b want io in
  maxInMemorySize b' = maxInMemorySize b
  /\ buff b' = skipn want (buff b)
  /\ useFile b' = useFile b
  /\ (List.length out <= want)%nat
  /\ out = firstn (List.length out) (remaining b)
  /\ (List.length (remaining b') + List.length out <= List.length (remaining b))%nat
  /\ (out = [] -> (0 < want)%nat -> err <> None).
Proof.
  intros Hr. unfold Read. rewrite Hr.
  destruct (finishWriting_frame b)
    as (_ & _ & _ & _ & Fbuff & Frfile & Fuse & Fname & Fdata & _ & Fmax).
  assert (Hrem : remaining (finishWriting b) = remaining b)
    by (unfold remaining, filePos; rewrite Fbuff, Fuse, Frfile, Fdata; reflexivity).
  rewrite <- Hrem, <- Fbuff, <- Fuse, <- Fmax.
  clear Hrem Fbuff Frfile Fuse Fname Fdata Fmax Hr.
  generalize (finishWriting b). clear b. intros b.
  (* the deferred function *)
  assert (HD : forall (b0 : Buffer) (n : nat),
    maxInMemorySize (readDeferred b0 n want) = maxInMemorySize b0
    /\ buff (readDeferred b0 n want) = buff b0
    /\ useFile (readDeferred b0 n want) = useFile b0
    /\ (List.length (remaining (readDeferred b0 n want))
        <= List.length (remaining b0))%nat).
  { intros b0 n. unfold readDeferred.
    assert (Hclean : forall b1 : Buffer,
      (List.length (remaining (set_filename EmptyString
                                 (set_readFile None (set_file_data [] b1))))
       <= List.length (remaining b1))%nat).
    { intros b1. unfold remaining, filePos; cbn.
      destruct (useFile b1); rewrite !length_app; cbn; lia. }
    destruct (n <? want)%nat; cbn.
    - destruct (readFile b0) eqn:Hrf; cbn.
      + repeat split.
        specialize (Hclean (set_readingFinished true
                              (set_offset (offset b0 + Z.of_nat n) b0))).
        unfold remaining, filePos in *; cbn in *. rewrite Hrf in Hclean |- *. exact Hclean.
      + repeat split. unfold remaining, filePos; cbn. rewrite Hrf. lia.
    - destruct (readingFinished b0); [destruct (readFile b0) eqn:Hrf|]; cbn.
      + repeat split.
        specialize (Hclean (set_offset (offset b0 + Z.of_nat n) b0)).
        unfold remaining, filePos in *; cbn in *. rewrite Hrf in Hclean |- *. exact Hclean.
      + repeat split. unfold remaining, filePos; cbn. rewrite Hrf. lia.
      + repeat split. unfold remaining, filePos; cbn. lia. }
  (* a read of the file, after [pre] was taken from the memory *)
  assert (HF : forall (b0 : Buffer) (k : nat) (pre : list byte),
    useFile b0 = true ->
    (0 < want -> 0 < k)%nat ->
    let '(b1, out1, err) := readFromFile b0 k io in
    maxInMemorySize b1 = maxInMemorySize b0 /\ buff b1 = buff b0
    /\ useFile b1 = useFile b0
    /\ (List.length out1 <= k)%nat
    /\ out1 = firstn (List.length out1) (skipn (filePos b0) (file_data b0))
    /\ (List.length (remaining b1) + List.length out1 <= List.length (remaining b0))%nat
    /\ (pre ++ out1 = [] -> (0 < want)%nat -> err <> None)).
  { intros b0 k pre Hu Hk. pose proof (readFromFile_any b0 k io) as H.
    destruct (readFromFile b0 k io) as [[b1 out1] err].
    destruct H as [(-> & -> & Herr & _) | (kd & -> & Hout & ->)].
    - repeat split; try (cbn; lia).
      intros _ _. destruct Herr as [-> | ->]; discriminate.
    - assert (Hl : (List.length out1 <= k)%nat)
        by (rewrite Hout, length_firstn; lia).
      split; [reflexivity|]. split; [reflexivity|]. split; [reflexivity|].
      split; [exact Hl|].
      split.
      { rewrite Hout at 1. rewrite Hout, length_firstn.
        set (X := skipn (filePos b0) (file_data b0)).
        destruct (Nat.le_gt_cases k (List.length X)).
        - rewrite Nat.min_l by lia. reflexivity.
        - rewrite Nat.min_r by lia. rewrite !firstn_all2 by lia. reflexivity. }
      split.
      { unfold remaining, filePos at 1; cbn. rewrite Hu.
        rewrite !length_app, !length_skipn.
        assert (List.length out1 <= List.length (file_data b0) - filePos b0)%nat
          by (rewrite Hout, length_firstn, length_skipn; lia).
        lia. }
      intros Hnil Hw. apply app_eq_nil in Hnil. destruct Hnil as [_ ->].
      replace (0 <? k)%nat with true by (symmetry; apply Nat.ltb_lt; auto).
      cbn. discriminate. }
  destruct (buff b) as [|x l] eqn:Hbuff.
  - rewrite skipn_nil.
    destruct (useFile b) eqn:Huse.
    + specialize (HF b want [] Huse (fun H => H)).
      destruct (readFromFile b want io) as [[b1 out1] err].
      destruct HF as (F1 & F2 & F3 & F4 & F5 & F6 & F7).
      destruct (HD b1 (List.length out1)) as (D1 & D2 & D3 & D4).
      assert (Hrem : remaining b = skipn (filePos b) (file_data b))
        by (unfold remaining; rewrite Hbuff, Huse; reflexivity).
      rewrite Hrem.
      split; [rewrite D1; exact F1|]. split; [rewrite D2, F2; exact Hbuff|].
      split; [rewrite D3, F3; exact Huse|].
      split; [exact F4|]. split; [exact F5|].
      split; [rewrite Hrem in F6; lia|exact F7].
    + match goal with
      | |- context [readDeferred ?b0 ?n ?w] => destruct (HD b0 n) as (D1 & D2 & D3 & D4)
      end.
      split; [exact D1|]. split; [rewrite D2; exact Hbuff|].
      split; [rewrite D3; exact Huse|].
      cbn [List.length] in *. split; [lia|]. split; [reflexivity|].
      split; [lia|]. intros _ _. discriminate.
  - unfold readFromBuffer. rewrite Hbuff. set (bf := x :: l) in *.
    assert (Hbf : (0 < List.length bf)%nat) by (subst bf; cbn; lia).
    clearbody bf.
    assert (Hmem : List.length (firstn want bf) = Nat.min want (List.length bf))
      by apply length_firstn.
    assert (Hpre : firstn want bf
                   = firstn (List.length (firstn want bf)) (remaining b)).
    { unfold remaining. rewrite Hbuff, firstn_app, Hmem.
      replace (Nat.min want (Datatypes.length bf) - Datatypes.length bf)%nat
        with 0%nat by lia.
      rewrite firstn_0, app_nil_r.
      destruct (Nat.le_gt_cases want (List.length bf)).
      - rewrite Nat.min_l by lia. reflexivity.
      - rewrite Nat.min_r by lia. rewrite !firstn_all2 by lia. reflexivity. }
    match goal with |- context [if ?c then _ else _] => destruct c eqn:Hc end.
    + match goal with
      | |- context [readDeferred ?b0 ?n ?w] => destruct (HD b0 n) as (D1 & D2 & D3 & D4)
      end.
      split; [exact D1|]. split; [exact D2|]. split; [exact D3|].
      split; [lia|]. split; [exact Hpre|].
      split.
      { eapply Nat.le_trans; [apply Nat.add_le_mono_r; exact D4|].
        unfold remaining, filePos; cbn. rewrite Hbuff, !length_app, length_skipn. lia. }
      intros Hnil Hw. exfalso. rewrite Hnil in Hmem. cbn in Hmem. lia.
    + apply orb_false_iff in Hc. destruct Hc as [Hc Hu].
      apply Nat.eqb_neq in Hc. apply negb_false_iff in Hu. cbn in Hu.
      specialize (HF (set_buff (skipn want bf) b)
                    (want - Datatypes.length (firstn want bf))%nat
                    (firstn want bf) Hu).
      destruct (readFromFile (set_buff (skipn want bf) b)
                  (want - Datatypes.length (firstn want bf)) io)
        as [[b1 out1] err].
      destruct HF as (F1 & F2 & F3 & F4 & F5 & F6 & F7); [lia|].
      destruct (HD b1 (List.length (firstn want bf ++ out1))) as (D1 & D2 & D3 & D4).
      cbn in F1, F2, F3.
      split; [rewrite D1; exact F1|]. split; [rewrite D2; exact F2|].
      split; [rewrite D3; exact F3|].
      rewrite length_app in *.
      split; [lia|].
      assert (Hall : firstn want bf = bf) by (apply firstn_all2; lia).
      split.
      { unfold remaining. rewrite Hbuff, Hu, firstn_app, Hall.
        replace (Datatypes.length bf + Datatypes.length out1 - Datatypes.length bf)%nat
          with (Datatypes.length out1) by lia.
        rewrite firstn_all2 by lia. f_equal. exact F5. }
      split; [|exact F7].
      eapply Nat.le_trans; [apply Nat.add_le_mono_r; exact D4|].
      assert (Hr0 : (List.length (remaining (set_buff (skipn want bf) b)) + List.length bf
               = List.length (remaining b))%nat).
      { unfold remaining, filePos; cbn. rewrite Hbuff, !length_app.
        rewrite skipn_all2 by lia. cbn. lia. }
      rewrite Hall. lia.
Qed.

(** ** Invariants *)

Ltac split_conditions :=
  repeat match goal with
    | |- context [if ?c then _ else _] => destruct c eqn:?
    | |- context [match ?c with Some _ => _ | None => _ end] => destruct c eqn:?
    | |- context [match ?c with [] => _ | _ :: _ => _ end] => destruct c eqn:?
    end.

Ltac arith_hyps :=
  repeat match goal with
    | H : (_ <=? _) = true |- _ => apply Z.leb_le in H
    | H : (_ <=? _) = false |- _ => apply Z.leb_gt in H
    | H : (_ <? _) = true |- _ => apply Z.ltb_lt in H
    | H : (_ <? _) = false |- _ => apply Z.ltb_ge in H
    | H : (_ =? _) = true |- _ => apply Z.eqb_eq in H
    | H : (_ =? _) = false |- _ => apply Z.eqb_neq in H
    | H : (_ <? _)%nat = true |- _ => apply Nat.ltb_lt in H
    | H : (_ <? _)%nat = false |- _ => apply Nat.ltb_ge in H
    | H : (_ =? _)%nat = true |- _ => apply Nat.eqb_eq in H
    | H : (_ =? _)%nat = false |- _ => apply Nat.eqb_neq in H
    end.

Ltac lengths :=
  unfold len in *; cbn [List.length] in *;
  repeat (rewrite length_app in * || rewrite length_firstn in *
          || rewrite length_skipn in *);
  cbn [List.length] in *; try lia.

Lemma unused_consistent (t : Z) (b : Buffer) : 0 <= t -> unused t b -> consistent b.
Proof.
  intros Ht [Hmax Hw Hr Hsz Hoff Hbuff Hrf Huse Hfile].
  rewrite firstn_nil in Hbuff.
  replace (t <? len []) with false in Huse
    by (symmetry; apply Z.ltb_ge; exact Ht).
  rewrite Huse in Hfile. destruct Hfile as (Hwf & Hname & Hfd).
  constructor; unfold filePos; rewrite ?Hrf, ?Hfd, ?Hbuff, ?Hoff, ?Hsz, ?Hmax;
    cbn; try lia; auto; congruence.
Qed.

Lemma Write_consistent (b : Buffer) (data : list byte) (io : IO) :
  consistent b -> consistent (fst (Write b data io)).
Proof.
  intros [K1 K0 K2 K3 K4 K5].
  destruct b as [mx wf rf sz o dir enc key bf wfile rfile use fname fdata].
  unfold filePos in *. cbn in *.
  unfold Write, writeToFile; cbn -[tempName].
  split_conditions; cbn -[tempName]; arith_hyps;
    constructor; unfold filePos; cbn -[tempName]; auto;
    try discriminate; try congruence;
    try (intros; apply tempName_not_empty);
    try (intros H; exfalso; apply (tempName_not_empty _ _ H));
    try (intros Hn; exfalso; apply K3; [discriminate|exact Hn]);
    try (destruct rfile; lengths; fail);
    try (intros _; lengths; fail).
Qed.

Lemma finishWriting_consistent (b : Buffer) :
  consistent b -> consistent (finishWriting b) /\ writingFinished (finishWriting b) = true.
Proof.
  intros K. unfold finishWriting.
  destruct (writingFinished b) eqn:Hw; [split; [exact K|exact Hw]|].
  destruct K as [K1 K0 K2 K3 K4 K5].
  split; [|reflexivity].
  constructor; unfold filePos in *; cbn; auto; congruence.
Qed.

(** The bytes [Read] has taken and not yet counted in [offset] are owed to
    the counter: [set_offset] anticipates the deferred function. *)
Lemma readFromBuffer_consistent (b : Buffer) (want : nat) :
  consistent b ->
  consistent (set_offset (offset b + len (firstn want (buff b)))
                (set_buff (skipn want (buff b)) b)).
Proof.
  intros [K1 K0 K2 K3 K4 K5].
  constructor; unfold filePos in *; cbn; auto.
  - lengths.
  - pose proof (len_nonneg (firstn want (buff b))). lia.
  - intros H. specialize (K5 H). lengths.
Qed.

Lemma readFromFile_consistent (b : Buffer) (k : nat) (io : IO) (o : Z) :
  consistent (set_offset o b) ->
  consistent (set_offset (o + len (snd (fst (readFromFile b k io))))
                (fst (fst (readFromFile b k io))))
  /\ writingFinished (fst (fst (readFromFile b k io))) = writingFinished b
  /\ offset (fst (fst (readFromFile b k io))) = offset b.
Proof.
  intros [K1 K0 K2 K3 K4 K5]. unfold filePos in *. cbn in *.
  assert (Hsame : consistent (set_offset (o + len []) b)).
  { constructor; unfold filePos; cbn; auto; cbn; lia. }
  assert (Hread : forall h : ReadHandle,
    (readFile b = None -> pos h = 0%nat /\ filename b <> EmptyString) ->
    (forall h0, readFile b = Some h0 -> pos h = pos h0) ->
    consistent (set_offset (o + len (snd (fst (handleRead b h k))))
                  (fst (fst (handleRead b h k))))).
  { intros h Hnone Hsome. unfold handleRead; cbn.
    assert (Hpos : pos h = match readFile b with Some h0 => pos h0 | None => 0%nat end).
    { destruct (readFile b) as [h0|]; [apply Hsome; reflexivity|apply Hnone; reflexivity]. }
    rewrite <- Hpos in K1.
    constructor; unfold filePos; cbn; auto.
    - lengths.
    - pose proof (len_nonneg (firstn k (skipn (pos h) (file_data b)))). lia.
    - intros Hn. exfalso.
      destruct (readFile b) as [h0|] eqn:Hrf.
      + destruct (K2 Hn) as [_ H]. discriminate H.
      + destruct (Hnone eq_refl) as [_ H]. exact (H Hn). }
  unfold readFromFile, canOpen.
  destruct (readFile b) as [h|] eqn:Hrf.
  - split; [|split; reflexivity]. apply Hread; [discriminate|].
    intros h0 E. congruence.
  - destruct (String.eqb (filename b) EmptyString) eqn:Hname; cbn;
      [split; [exact Hsame|split; reflexivity]|].
    apply String.eqb_neq in Hname.
    destruct (open_ok io); [|split; [exact Hsame|split; reflexivity]].
    destruct (encrypt b); [destruct (decrypt_reader_ok io)|];
      try (split; [exact Hsame|split; reflexivity]);
      (split; [|split; reflexivity]); apply Hread; cbn; auto; discriminate.
Qed.

Lemma readDeferred_consistent (b : Buffer) (n want : nat) :
  writingFinished b = true ->
  consistent (set_offset (offset b + Z.of_nat n) b) ->
  consistent (readDeferred b n want).
Proof.
  intros Hw [K1 K0 K2 K3 K4 K5]. unfold filePos in *. cbn in *.
  specialize (K4 Hw).
  assert (Hclean : forall b0 : Buffer,
    offset b0 = offset b + Z.of_nat n -> size b0 = size b -> buff b0 = buff b ->
    writeFile b0 = None -> maxInMemorySize b0 = maxInMemorySize b ->
    consistent (set_filename EmptyString (set_readFile None (set_file_data [] b0)))).
  { intros b0 E1 E2 E3 E4 E5.
    pose proof (len_nonneg (skipn
      match readFile b with Some h => pos h | None => 0%nat end (file_data b))).
    constructor; unfold filePos; cbn; auto; try congruence;
      rewrite ?E1, ?E2, ?E3, ?E5; auto; unfold len in *; cbn; lia. }
  assert (Hkeep : forall b0 : Buffer,
    offset b0 = offset b + Z.of_nat n -> size b0 = size b -> buff b0 = buff b ->
    writeFile b0 = writeFile b -> maxInMemorySize b0 = maxInMemorySize b ->
    readFile b0 = readFile b -> filename b0 = filename b ->
    file_data b0 = file_data b -> writingFinished b0 = writingFinished b ->
    consistent b0).
  { intros b0 E1 E2 E3 E4 E5 E6 E7 E8 E9.
    constructor; unfold filePos;
      rewrite ?E1, ?E2, ?E3, ?E4, ?E5, ?E6, ?E7, ?E8, ?E9; auto. }
  unfold readDeferred.
  destruct (n <? want)%nat; cbn.
  - destruct (readFile b) eqn:Hrf; cbn.
    + apply Hclean; cbn; auto.
    + apply Hkeep; cbn; auto.
  - destruct (readingFinished b); [destruct (readFile b) eqn:Hrf|]; cbn.
    + apply Hclean; cbn; auto.
    + apply Hkeep; cbn; auto.
    + apply Hkeep; cbn; auto.
Qed.

Lemma Read_consistent (b : Buffer) (want : nat) (io : IO) :
  consistent b -> consistent (fst (fst (Read b want io))).
Proof.
  intros K. unfold Read.
  destruct (readingFinished b); [exact K|].
  destruct (finishWriting_consistent b K) as [KB Hw].
  revert KB Hw. generalize (finishWriting b). clear b K. intros b K Hw.
  assert (K' : consistent (set_offset (offset b + len []) b)).
  { destruct K as [K1 K0 K2 K3 K4 K5].
    constructor; unfold filePos in *; cbn; auto; cbn; lia. }
  destruct (buff b) as [|x l] eqn:Hbuff.
  - destruct (useFile b).
    + destruct (readFromFile_consistent b want io (offset b)) as (KF & HwF & HoF).
      { destruct K as [K1 K0 K2 K3 K4 K5].
        constructor; unfold filePos in *; cbn; auto. }
      destruct (readFromFile b want io) as [[b1 out1] err]. cbn [fst snd] in *.
      apply readDeferred_consistent; [congruence|].
      destruct KF as [F1 F0 F2 F3 F4 F5]. unfold filePos in *. cbn in *.
      rewrite HoF. constructor; unfold filePos; cbn; auto.
    + cbn [fst]. apply readDeferred_consistent; [exact Hw|exact K'].
  - pose proof (readFromBuffer_consistent b want K) as KM.
    unfold readFromBuffer. rewrite Hbuff in *.
    set (bf := x :: l) in *. clearbody bf.
    match goal with |- context [if ?c then _ else _] => destruct c end.
    + cbn [fst]. apply readDeferred_consistent; [exact Hw|].
      destruct KM as [F1 F0 F2 F3 F4 F5]. unfold filePos in *. cbn in *.
      constructor; unfold filePos; cbn; auto.
    + destruct (readFromFile_consistent (set_buff (skipn want bf) b)
                  (want - Datatypes.length (firstn want bf)) io
                  (offset b + len (firstn want bf))) as (KF & HwF & HoF).
      { exact KM. }
      destruct (readFromFile (set_buff (skipn want bf) b)
                  (want - Datatypes.length (firstn want bf)) io)
        as [[b1 out1] err].
      cbn [fst snd] in *.
      apply readDeferred_consistent; [rewrite HwF; exact Hw|].
      destruct KF as [F1 F0 F2 F3 F4 F5]. unfold filePos in *. cbn in *.
      rewrite HoF. constructor; unfold filePos; cbn; auto.
      * unfold len in *. rewrite length_app. lia.
      * unfold len in *. rewrite length_app. lia.
Qed.

(** The only handle [ReadAt] caches is one it has just opened: at position
    0, on a file that has a name, when none was open. *)
Lemma ReadAt_opens (b : Buffer) (want : nat) (off : Z) (io : IO) :
  let b' := fst (fst (ReadAt b want off io)) in
  b' = b \/ b' = finishWriting b
  \/ (exists k, b' = set_readFile (Some (mkReadHandle k 0)) (finishWriting b)
                /\ readFile (finishWriting b) = None
                /\ filename (finishWriting b) <> EmptyString).
Proof.
  unfold ReadAt.
  destruct (off <? 0); [left; reflexivity|].
  destruct (want =? 0)%nat; [left; reflexivity|].
  destruct (off >=? size b); [left; reflexivity|].
  generalize (finishWriting b). intros B. cbv zeta.
  match goal with |- context [if ?c then _ else _] => destruct c end;
    [|right; left; reflexivity].
  assert (Hop : match openReaderAt B io with
                | inl (b', h) =>
                    b' = B
                    \/ (exists k, b' = set_readFile (Some (mkReadHandle k 0)) B
                                  /\ readFile B = None
                                  /\ filename B <> EmptyString)
                | inr _ => True
                end).
  { unfold openReaderAt, canOpen.
    destruct (readFile B) as [h|]; [left; reflexivity|].
    destruct (String.eqb (filename B) EmptyString) eqn:Hname; cbn; [exact I|].
    apply String.eqb_neq in Hname.
    destruct (open_ok io); [|exact I].
    destruct (encrypt B); [destruct (decrypt_reader_ok io); [|exact I]|];
      right; eexists; repeat split; assumption. }
  destruct (openReaderAt B io) as [[b' h]|e]; [|right; left; reflexivity].
  destruct (isReaderAt (kind h)); [|cbn; right; exact Hop].
  match goal with
  | |- context [fileReadAt ?x ?y ?z] => destruct (fileReadAt x y z) as [out2 err]
  end.
  destruct err as [[]|]; cbn; right; exact Hop.
Qed.

Lemma ReadAt_consistent (b : Buffer) (want : nat) (off : Z) (io : IO) :
  consistent b -> consistent (fst (fst (ReadAt b want off io))).
Proof.
  intros K.
  destruct (finishWriting_consistent b K) as [KB _].
  destruct (ReadAt_opens b want off io) as [-> | [-> | (k & -> & Hrf & Hname)]];
    [exact K|exact KB|].
  revert KB Hrf Hname. generalize (finishWriting b).
  intros B [K1 K0 K2 K3 K4 K5] Hrf Hname.
  unfold filePos in *. rewrite Hrf in K1.
  constructor; unfold filePos; cbn; auto.
  intros Hn. exfalso. exact (Hname Hn).
Qed.

Lemma Next_consistent (b : Buffer) (n : Z) :
  consistent b -> consistent (fst (Next b n)).
Proof.
  intros K. unfold Next.
  destruct ((n <? 0) || (maxAlloc <? n)); [exact K|].
  destruct (buff b) as [|x l] eqn:Hbuff; [destruct (n =? 0); exact K|].
  destruct K as [K1 K0 K2 K3 K4 K5]. rewrite <- Hbuff.
  constructor; unfold filePos in *; cbn; auto.
  - lengths.
  - intros H. specialize (K5 H). lengths.
Qed.

Lemma Reset_consistent (b : Buffer) : consistent b -> consistent (Reset b).
Proof.
  intros [K1 K0 K2 K3 K4 K5]. unfold filePos in *.
  pose proof (len_nonneg (buff b)) as P1.
  pose proof (len_nonneg (skipn match readFile b with
                                | Some h => pos h
                                | None => 0%nat
                                end (file_data b))) as P2.
  unfold Reset. cbn.
  destruct (String.eqb (filename b) EmptyString) eqn:Hname.
  - apply String.eqb_eq in Hname. destruct (K2 Hname) as [Hfd _].
    constructor; unfold filePos; cbn; auto; try congruence;
      try (rewrite ?Hfd; cbn; lia); try (intros; cbn; lia).
  - constructor; unfold filePos; cbn; auto; try congruence;
      try lia; try (intros; cbn; lia).
Qed.

Lemma step_consistent (b : Buffer) (o : op) :
  consistent b -> consistent (fst (step b o)).
Proof.
  intros K. destruct o as [data io|want io|want off io|n| |key]; cbn [step].
  - pose proof (Write_consistent b data io K) as H.
    destruct (Write b data io) as [b' r]. exact H.
  - pose proof (Read_consistent b want io K) as H.
    destruct (Read b want io) as [[b' out] err]. exact H.
  - pose proof (ReadAt_consistent b want off io K) as H.
    destruct (ReadAt b want off io) as [[b' out] err]. exact H.
  - pose proof (Next_consistent b n K) as H.
    destruct (Next b n) as [b' r]. exact H.
  - apply Reset_consistent. exact K.
  - destruct K as [K1 K0 K2 K3 K4 K5].
    unfold EnableEncryption. destruct key; constructor; assumption.
Qed.

Lemma run_consistent (os : list op) :
  forall b : Buffer, consistent b -> consistent (fst (run b os)).
Proof.
  induction os as [|o os IH]; intros b K; [exact K|].
  cbn [run]. pose proof (step_consistent b o K) as H1.
  destruct (step b o) as [b1 e]. specialize (IH b1 H1).
  destruct (run b1 os) as [b2 es]. exact IH.
Qed.

Lemma step_threshold (b : Buffer) (o : op) :
  maxInMemorySize (fst (step b o)) = maxInMemorySize b.
Proof.
  destruct o as [data io|want io|want off io|n| |key]; cbn [step].
  - destruct b as [mx wf rf sz o dir enc key bf wfile rfile use fname fdata].
    unfold Write, writeToFile; cbn -[tempName].
    split_conditions; reflexivity.
  - destruct (readingFinished b) eqn:Hr.
    + unfold Read. rewrite Hr. reflexivity.
    + pose proof (Read_any b want io Hr) as H.
      destruct (Read b want io) as [[b' out] err]. apply H.
  - destruct (ReadAt_frame b want off io) as (_ & _ & _ & _ & _ & _ & _ & _ & H).
    destruct (ReadAt b want off io) as [[b' out] err]. exact H.
  - unfold Next. destruct ((n <? 0) || (maxAlloc <? n)); [reflexivity|].
    destruct (buff b); [destruct (n =? 0)|]; reflexivity.
  - unfold Reset. cbn. destruct (String.eqb (filename b) EmptyString); reflexivity.
  - unfold EnableEncryption. destruct key; reflexivity.
Qed.

Lemma run_threshold (os : list op) :
  forall b : Buffer, maxInMemorySize (fst (run b os)) = maxInMemorySize b.
Proof.
  induction os as [|o os IH]; intros b; [reflexivity|].
  cbn [run]. pose proof (step_threshold b o) as H1.
  destruct (step b o) as [b1 e]. specialize (IH b1).
  destruct (run b1 os) as [b2 es]. cbn [fst] in *. congruence.
Qed.

(** ** Properties of the states a buffer can reach *)

(** X1. In every state that calls on an unused buffer can reach, whatever
    the environment answers: [0 <= offset <= size], so [Len] is never
    negative, and the bytes the sequential reads can still deliver are at
    most [Len]. *)
Theorem Len_covers_the_unread_stream (t : Z) (b0 : Buffer) (os : list op) :
  0 <= t -> unused t b0 ->
  let b := fst (run b0 os) in
  0 <= offset b <= size b /\ 0 <= len (remaining b) <= Len b.
Proof.
  intros Ht Hb0 b.
  destruct (run_consistent os b0 (unused_consistent t b0 Ht Hb0))
    as [K1 K0 _ _ _ _].
  fold b in K1, K0.
  assert (Hrem : len (remaining b)
                 <= len (buff b) + len (skipn (filePos b) (file_data b))).
  { unfold remaining. rewrite len_app. destruct (useFile b); [lia|].
    pose proof (len_nonneg (skipn (filePos b) (file_data b))). cbn. lia. }
  pose proof (len_nonneg (remaining b)). pose proof (len_nonneg (buff b)).
  pose proof (len_nonneg (skipn (filePos b) (file_data b))).
  unfold Len. lia.
Qed.

Lemma Len_covers_the_unread_stream_witness :
  let b := fst (run (fresh 5 false)
                  [OpWrite (bytes "123456789") io_ok; OpNext 2; OpRead 3 io_ok]) in
  0 <= offset b <= size b /\ 0 <= len (remaining b) <= Len b.
Proof.
  apply (Len_covers_the_unread_stream 5 (fresh 5 false)).
  - lia.
  - apply fresh_holds. lia.
Defined.

(** X2. The memory never holds more than the threshold: in every state that
    calls on an unused buffer with threshold [t >= 0] can reach, whatever the
    environment answers, [b.buff.Len() <= t], and the threshold is [t]. *)
Theorem memory_stays_within_the_threshold (t : Z) (b0 : Buffer) (os : list op) :
  0 <= t -> unused t b0 ->
  let b := fst (run b0 os) in
  maxInMemorySize b = t /\ len (buff b) <= t.
Proof.
  intros Ht Hb0 b.
  assert (Hmax : maxInMemorySize b = t)
    by (subst b; rewrite run_threshold; apply (holds_max _ _ _ Hb0)).
  split; [exact Hmax|].
  destruct (run_consistent os b0 (unused_consistent t b0 Ht Hb0))
    as [_ _ _ _ _ K5].
  fold b in K5. rewrite Hmax in K5. apply K5. exact Ht.
Qed.

Lemma memory_stays_within_the_threshold_witness :
  let b := fst (run (fresh 5 false)
                  [OpWrite (bytes "1234") io_ok; OpNext 2;
                   OpWrite (bytes "56789abc") io_ok]) in
  maxInMemorySize b = 5 /\ len (buff b) <= 5.
Proof.
  apply (memory_stays_within_the_threshold 5 (fresh 5 false)).
  - lia.
  - apply fresh_holds. lia.
Defined.

(** X3. The handles follow the life of the file: in every state that calls
    on an unused buffer can reach, whatever the environment answers, no
    write handle is kept once writing is finished, a write handle implies a
    named file, and without a named file there is neither a read handle nor
    file content. *)
Theorem handles_follow_the_file (t : Z) (b0 : Buffer) (os : list op) :
  0 <= t -> unused t b0 ->
  let b := fst (run b0 os) in
  (writingFinished b = true -> writeFile b = None)
  /\ (writeFile b <> None -> filename b <> EmptyString)
  /\ (filename b = EmptyString -> readFile b = None /\ file_data b = []).
Proof.
  intros Ht Hb0 b.
  destruct (run_consistent os b0 (unused_consistent t b0 Ht Hb0))
    as [_ _ K2 K3 K4 _].
  fold b in K2, K3, K4.
  split; [exact K4|]. split; [exact K3|].
  intros H. destruct (K2 H). split; assumption.
Qed.

Lemma handles_follow_the_file_witness :
  let b := fst (run (fresh 2 false)
                  [OpWrite (bytes "Hello") io_ok; OpReadAt 2 1 io_ok;
                   OpRead 10 io_ok]) in
  (writingFinished b = true -> writeFile b = None)
  /\ (writeFile b <> None -> filename b <> EmptyString)
  /\ (filename b = EmptyString -> readFile b = None /\ file_data b = []).
Proof.
  apply (handles_follow_the_file 2 (fresh 2 false)).
  - lia.
  - apply fresh_holds. lia.
Defined.

(** ** The gate, for every reading call *)

Lemma Read_closes_writing (b : Buffer) (want : nat) (io : IO) :
  gated b ->
  writingFinished (fst (fst (Read b want io))) = true
  /\ gated (fst (fst (Read b want io))).
Proof.
  intros G.
  assert (H : writingFinished (fst (fst (Read b want io))) = true).
  { destruct (readingFinished b) eqn:Hr.
    - unfold Read. rewrite Hr. cbn. exact (G Hr).
    - apply Read_finishes_writing. exact Hr. }
  split; [exact H|]. intros _. exact H.
Qed.

Lemma ReadBytes_closes_writing (fuel : nat) :
  forall (b : Buffer) (delim : byte) (io : IO) (acc : list byte)
         (b' : Buffer) (out : list byte) (err : option error),
    gated b -> ReadBytes fuel b delim io acc = Some (b', out, err) ->
    writingFinished b' = true.
Proof.
  induction fuel as [|fuel IH]; intros b delim io acc b' out err G H;
    [discriminate H|].
  cbn [ReadBytes] in H. unfold ReadByte in H.
  destruct (Read_closes_writing b 1 io G) as [Hw G1].
  destruct (Read b 1 io) as [[b1 o1] e1]. cbn [fst] in *.
  destruct e1 as [e|].
  - inversion H; subst. exact Hw.
  - destruct (Byte.eqb (hd x00 o1) delim).
    + inversion H; subst. exact Hw.
    + eapply IH; [exact G1|exact H].
Qed.

(** X4. The gate between writing and reading: in every state that calls on
    an unused buffer can reach, after a [Read], a [ReadByte], a [ReadBytes]
    that returns, or a [ReadAt] that passes its argument checks, every
    [Write] returns [(0, ErrBufferFinished)] and changes nothing, whatever is
    left unread and whatever the environment answers. *)
Theorem Write_is_rejected_after_reading (t : Z) (b0 : Buffer) (os : list op)
  (data : list byte) (io' : IO) :
  unused t b0 ->
  let b := fst (run b0 os) in
  let rejected (b' : Buffer) :=
    Write b' data io' = (b', Ret (0, Some ErrBufferFinished)) in
  (forall want io, rejected (fst (fst (Read b want io))))
  /\ (forall io, rejected (fst (fst (ReadByte b io))))
  /\ (forall fuel delim io b' out err,
        ReadBytes fuel b delim io [] = Some (b', out, err) -> rejected b')
  /\ (forall want off io,
        0 <= off < size b -> (0 < want)%nat ->
        rejected (fst (fst (ReadAt b want off io)))).
Proof.
  intros Hb0 b rejected.
  assert (G : gated b).
  { apply run_gated. unfold gated. rewrite (holds_reading _ _ _ Hb0). discriminate. }
  split; [|split; [|split]].
  - intros want io. apply Write_finished.
    exact (proj1 (Read_closes_writing b want io G)).
  - intros io. apply Write_finished. unfold ReadByte.
    destruct (Read_closes_writing b 1 io G) as [Hw _].
    destruct (Read b 1 io) as [[b1 o1] e1]. exact Hw.
  - intros fuel delim io b' out err H. apply Write_finished.
    eapply ReadBytes_closes_writing; [exact G|exact H].
  - intros want off io [Hoff Hsz] Hwant. apply Write_finished.
    destruct (finishWriting_frame b) as (Fw & _).
    unfold ReadAt.
    replace (off <? 0) with false by (symmetry; apply Z.ltb_ge; lia).
    replace (want =? 0)%nat with false by (symmetry; apply Nat.eqb_neq; lia).
    replace (off >=? size b) with false
      by (symmetry; rewrite Z.geb_leb; apply Z.leb_gt; lia).
    revert Fw. generalize (finishWriting b). intros B Fw. cbv zeta.
    match goal with |- context [if ?c then _ else _] => destruct c end;
      [|exact Fw].
    pose proof (openReaderAt_cases B io) as Hop.
    destruct (openReaderAt B io) as [[b' h]|e]; [|exact Fw].
    assert (Hw' : writingFinished b' = true)
      by (destruct Hop as [-> | (-> & _)]; exact Fw).
    destruct (isReaderAt (kind h)); [|exact Hw'].
    match goal with
    | |- context [fileReadAt ?x ?y ?z] => destruct (fileReadAt x y z) as [out2 err]
    end.
    destruct err as [[]|]; exact Hw'.
Qed.

Lemma Write_is_rejected_after_reading_witness :
  let b := fst (run (fresh 5 false) [OpWrite (bytes "123456789") io_ok]) in
  Write (fst (fst (Read b 2 io_ok))) (bytes "x") io_ok
  = (fst (fst (Read b 2 io_ok)), Ret (0, Some ErrBufferFinished)).
Proof.
  intros b.
  destruct (Write_is_rejected_after_reading 5 (fresh 5 false)
              [OpWrite (bytes "123456789") io_ok] (bytes "x") io_ok) as [H _].
  - apply fresh_holds. lia.
  - apply (H 2%nat io_ok).
Defined.

(** X5. [ReadAt] ends the write phase exactly when its argument checks pass:
    with a negative offset, a slice of length 0 or an offset at or beyond
    [size] it returns no byte and leaves the buffer as it was (so a buffer
    that was never written stays writable after any [ReadAt]); otherwise
    [writingFinished] is set and the write handle dropped. *)
Theorem ReadAt_closes_writing_iff_checks_pass (b : Buffer) (want : nat) (off : Z)
  (io : IO) :
  (off < 0 \/ want = 0%nat \/ size b <= off ->
   fst (fst (ReadAt b want off io)) = b /\ snd (fst (ReadAt b want off io)) = []
   /\ snd (ReadAt b want off io)
      = if off <? 0 then Some ErrNegativeOffset
        else if (want =? 0)%nat then None else Some EOF)
  /\ (0 <= off < size b -> (0 < want)%nat ->
      writingFinished (fst (fst (ReadAt b want off io))) = true
      /\ (writingFinished b = false ->
          writeFile (fst (fst (ReadAt b want off io))) = None)).
Proof.
  split.
  - intros H. unfold ReadAt.
    destruct (off <? 0) eqn:H1; [repeat split|].
    destruct (want =? 0)%nat eqn:H2; [repeat split|].
    destruct (off >=? size b) eqn:H3; [repeat split|].
    exfalso. apply Z.ltb_ge in H1. apply Nat.eqb_neq in H2.
    rewrite Z.geb_leb in H3. apply Z.leb_gt in H3. lia.
  - intros [Hoff Hsz] Hwant.
    assert (Hne : fst (fst (ReadAt b want off io)) <> b
                  \/ writingFinished b = true).
    { destruct (writingFinished b) eqn:Hw; [right; reflexivity|left].
      intros E.
      assert (writingFinished (fst (fst (ReadAt b want off io))) = true);
        [|congruence].
      clear E. unfold ReadAt.
      replace (off <? 0) with false by (symmetry; apply Z.ltb_ge; lia).
      replace (want =? 0)%nat with false by (symmetry; apply Nat.eqb_neq; lia).
      replace (off >=? size b) with false
        by (symmetry; rewrite Z.geb_leb; apply Z.leb_gt; lia).
      destruct (finishWriting_frame b) as (Fw & _).
      revert Fw. generalize (finishWriting b). intros B Fw. cbv zeta.
      match goal with |- context [if ?c then _ else _] => destruct c end;
        [|exact Fw].
      pose proof (openReaderAt_cases B io) as Hop.
      destruct (openReaderAt B io) as [[b' h]|e]; [|exact Fw].
      assert (Hw' : writingFinished b' = true)
        by (destruct Hop as [-> | (-> & _)]; exact Fw).
      destruct (isReaderAt (kind h)); [|exact Hw'].
      match goal with
      | |- context [fileReadAt ?x ?y ?z] => destruct (fileReadAt x y z) as [out2 err]
      end.
      destruct err as [[]|]; exact Hw'. }
    destruct (finishWriting_frame b) as (Fw & _).
    assert (Fwf : writingFinished b = false -> writeFile (finishWriting b) = None)
      by (intros Hw; unfold finishWriting; rewrite Hw; reflexivity).
    destruct (ReadAt_state b want off io) as [E | [E | (h & E & _)]].
    + destruct Hne as [Hne | Hw]; [contradiction|].
      rewrite E. split; [exact Hw|]. intros Hf. congruence.
    + rewrite E. split; [exact Fw|exact Fwf].
    + rewrite E. cbn. split; [exact Fw|exact Fwf].
Qed.

Lemma ReadAt_closes_writing_iff_checks_pass_witness :
  let b := fst (Write (fresh 5 false) (bytes "abc") io_ok) in
  (fst (fst (ReadAt b 4 3 io_ok)) = b /\ snd (fst (ReadAt b 4 3 io_ok)) = []
   /\ snd (ReadAt b 4 3 io_ok) = Some EOF)
  /\ writingFinished (fst (fst (ReadAt b 4 2 io_ok))) = true.
Proof.
  intros b. split.
  - destruct (ReadAt_closes_writing_iff_checks_pass b 4 3 io_ok) as [H _].
    apply H. right. right. vm_compute. discriminate.
  - destruct (ReadAt_closes_writing_iff_checks_pass b 4 2 io_ok) as [_ H].
    apply H; [vm_compute; split; [discriminate|reflexivity]|lia].
Defined.

(** ** Random access, in general *)

(** X6. What [ReadAt] returns on a buffer that was only written: for a
    content [s] of any length (within the threshold or beyond it), an offset
    [0 <= off < length s] and a slice that is not empty, in a reliable
    environment, [ReadAt] returns the bytes of [s] from [off] on, as many as
    the slice takes, with [io.EOF] exactly when [s] ends before the slice is
    full. *)
Theorem ReadAt_returns_the_range_or_EOF (t : Z) (b0 : Buffer)
  (ws : list (list byte * IO)) (want : nat) (off : Z) (io : IO) :
  0 <= t -> unused t b0 ->
  Forall (fun w => reliable (snd w)) ws -> reliable io ->
  let s := List.concat (map fst ws) in
  0 <= off < len s -> (0 < want)%nat ->
  exists b',
    ReadAt (fst (writeAll b0 ws)) want off io
    = (b', firstn want (skipn (Z.to_nat off) s),
       if off + Z.of_nat want <=? len s then None else Some EOF).
Proof.
  intros Ht Hb0 Hws Hio s Hoff Hwant.
  destruct (writeAll_holds t ws Ht Hws [] b0 Hb0) as (b & HW & Hb & _).
  cbn [app] in Hb. rewrite HW. cbn [fst]. fold s in Hb.
  destruct (holds_stream t s b Ht Hb) as (_ & _ & Hst & Hacc).
  destruct (ReadAt_reliable b want off io Hio) as (b' & HR);
    [rewrite (holds_size _ _ _ Hb); exact Hoff|exact Hwant|exact Hacc|].
  exists b'. rewrite HR, Hst. f_equal.
  rewrite length_firstn, length_skipn. unfold len in *.
  destruct (off + Z.of_nat want <=? Z.of_nat (Datatypes.length s)) eqn:Hfit.
  - apply Z.leb_le in Hfit.
    replace (Nat.min want (Datatypes.length s - Z.to_nat off) <? want)%nat
      with false by (symmetry; apply Nat.ltb_ge; lia).
    reflexivity.
  - apply Z.leb_gt in Hfit.
    replace (Nat.min want (Datatypes.length s - Z.to_nat off) <? want)%nat
      with true by (symmetry; apply Nat.ltb_lt; lia).
    reflexivity.
Qed.

Lemma ReadAt_returns_the_range_or_EOF_witness :
  exists b',
    ReadAt (fst (writeAll (fresh 2 false) [(bytes "Hello, world!", io_ok)]))
      300 4 io_ok
    = (b', bytes "o, world!", Some EOF).
Proof.
  apply (ReadAt_returns_the_range_or_EOF 2 (fresh 2 false)
           [(bytes "Hello, world!", io_ok)] 300 4 io_ok).
  - lia.
  - apply fresh_holds. lia.
  - repeat constructor; discriminate.
  - apply reliable_io_ok.
  - vm_compute. split; [discriminate|reflexivity].
  - lia.
Defined.

Lemma readAtAll_stream (calls : list (nat * Z * IO)) :
  forall b : Buffer,
    readable b ->
    readable (readAtAll b calls)
    /\ remaining (readAtAll b calls) = remaining b
    /\ size (readAtAll b calls) = size b
    /\ offset (readAtAll b calls) = offset b.
Proof.
  induction calls as [|[[want off] io] calls IH]; intros b Hb; cbn [readAtAll];
    [split; [exact Hb|repeat split]|].
  assert (H1 : readable (fst (fst (ReadAt b want off io)))
               /\ remaining (fst (fst (ReadAt b want off io))) = remaining b
               /\ size (fst (fst (ReadAt b want off io))) = size b
               /\ offset (fst (fst (ReadAt b want off io))) = offset b).
  { destruct Hb as [Hr Hf].
    destruct (finishWriting_frame b)
      as (_ & Fr & Fsz & Foff & Fbuff & Frfile & Fuse & Fname & Fdata & _).
    assert (HB : readable (finishWriting b)
                 /\ remaining (finishWriting b) = remaining b
                 /\ size (finishWriting b) = size b
                 /\ offset (finishWriting b) = offset b).
    { split; [constructor; [congruence|rewrite Fuse, Frfile, Fname; exact Hf]|].
      split; [|split; assumption].
      unfold remaining, filePos. rewrite Fbuff, Fuse, Frfile, Fdata. reflexivity. }
    destruct (ReadAt_opens b want off io) as [-> | [-> | (k & -> & Hrf & Hname)]].
    - repeat split; assumption.
    - exact HB.
    - destruct HB as ([Hr' Hf'] & Hrem & Hsz & Ho).
      split; [constructor; [exact Hr'|discriminate]|].
      split; [|split; assumption].
      rewrite <- Hrem. unfold remaining, filePos. cbn. rewrite Hrf. reflexivity. }
  destruct H1 as (R1 & E1 & S1 & O1).
  destruct (IH _ R1) as (R2 & E2 & S2 & O2).
  split; [exact R2|]. split; [congruence|]. split; congruence.
Qed.

(** X7. Random access does not disturb the sequential stream: after any
    writes on an unused buffer, any number of [ReadAt] calls (with any
    arguments, in any environment), reading sequentially until end of data in
    a reliable environment still returns exactly what was written, and
    [Len] is then 0. *)
Theorem ReadAt_calls_do_not_disturb_the_stream (t : Z) (b0 : Buffer)
  (ws : list (list byte * IO)) (calls : list (nat * Z * IO))
  (want : nat -> nat) (env : nat -> IO) (fuel : nat) :
  0 <= t -> unused t b0 ->
  Forall (fun w => reliable (snd w)) ws ->
  (forall i, (0 < want i)%nat) -> (forall i, reliable (env i)) ->
  (List.length (List.concat (map fst ws)) + 2 <= fuel)%nat ->
  exists b',
    readUntilEOF fuel (readAtAll (fst (writeAll b0 ws)) calls) want env 0
    = Some (b', List.concat (map fst ws), None)
    /\ Len b' = 0.
Proof.
  intros Ht Hb0 Hws Hwant Henv Hfuel.
  destruct (writeAll_holds t ws Ht Hws [] b0 Hb0) as (b & HW & Hb & _).
  cbn [app] in Hb. rewrite HW. cbn [fst].
  destruct (holds_stream t _ b Ht Hb) as (Hread & Hrem & _).
  destruct (readAtAll_stream calls b Hread) as (R & E & S & O).
  destruct (readUntilEOF_drains want env Hwant Henv fuel (readAtAll b calls) 0%nat R)
    as (b' & HR & Hsz & Hoff & _); [rewrite E, Hrem; exact Hfuel|].
  exists b'. rewrite E, Hrem in HR. split; [exact HR|].
  unfold Len. rewrite Hsz, Hoff, S, O, E, Hrem.
  rewrite (holds_size _ _ _ Hb), (holds_offset _ _ _ Hb). lia.
Qed.

Lemma ReadAt_calls_do_not_disturb_the_stream_witness :
  exists b',
    readUntilEOF 15
      (readAtAll (fst (writeAll (fresh 2 true) [(bytes "Hello, world!", io_ok)]))
         [(3%nat, 5, io_ok); (2%nat, 0, io_ok)])
      (fun _ => 4%nat) (fun _ => io_ok) 0
    = Some (b', bytes "Hello, world!", None)
    /\ Len b' = 0.
Proof.
  apply (ReadAt_calls_do_not_disturb_the_stream 2 (fresh 2 true)
           [(bytes "Hello, world!", io_ok)] [(3%nat, 5, io_ok); (2%nat, 0, io_ok)]
           (fun _ => 4%nat) (fun _ => io_ok) 15).
  - lia.
  - apply fresh_holds. lia.
  - repeat constructor; discriminate.
  - intros _. lia.
  - intros _. apply reliable_io_ok.
  - vm_compute. lia.
Defined.

(** X8. What one [Read] returns, whatever the state and the environment:
    once the stream has ended, no byte and [io.EOF], the buffer unchanged;
    before that, at most as many bytes as the slice takes, and these are the
    next bytes of the stream, in order; no byte for a slice that is not empty
    always comes with an error. *)
Theorem Read_returns_the_next_bytes (b : Buffer) (want : nat) (io : IO) :
  (readingFinished b = true -> Read b want io = (b, [], Some EOF))
  /\ (readingFinished b = false ->
      let out := snd (fst (Read b want io)) in
      (List.length out <= want)%nat
      /\ out = firstn (List.length out) (remaining b)
      /\ (out = [] -> (0 < want)%nat -> snd (Read b want io) <> None)).
Proof.
  split; [apply Read_finished|].
  intros Hr. pose proof (Read_any b want io Hr) as H.
  destruct (Read b want io) as [[b' out] err]. cbn [fst snd].
  destruct H as (_ & _ & _ & H1 & H2 & _ & H3). repeat split; assumption.
Qed.

Lemma Read_returns_the_next_bytes_witness :
  let b := fst (Write (fresh 5 false) (bytes "123456789")
                  (mkIO (Some "1"%string) true None false true)) in
  (List.length (snd (fst (Read b 7 (mkIO None true None false true)))) <= 7)%nat
  /\ snd (fst (Read b 7 (mkIO None true None false true))) = bytes "12345".
Proof.
  intros b.
  destruct (Read_returns_the_next_bytes b 7 (mkIO None true None false true))
    as [_ H].
  destruct (H eq_refl) as (H1 & H2 & _).
  split; [exact H1|]. rewrite H2. reflexivity.
Defined.

(** ** The end of the stream *)

(** The [Read] that ends the stream, in a reliable environment: nothing is
    left in the memory, no read handle stays open, and the file, if there
    was one, is removed and forgotten. *)
Lemma Read_ends_the_stream (b : Buffer) (want : nat) (io : IO) :
  readable b -> reliable io -> (List.length (remaining b) < want)%nat ->
  let b' := fst (fst (Read b want io)) in
  readFile b' = None /\ buff b' = [] /\ useFile b' = useFile b
  /\ (useFile b = true -> filename b' = EmptyString /\ file_data b' = []).
Proof.
  intros [Hrf Hname] Hio Hshort. cbv zeta.
  assert (Hbuff : (List.length (buff b) < want)%nat)
    by (unfold remaining in Hshort; rewrite length_app in Hshort; lia).
  assert (HA : buff (fst (fst (Read b want io))) = skipn want (buff b)
               /\ useFile (fst (fst (Read b want io))) = useFile b).
  { pose proof (Read_any b want io Hrf) as HA.
    destruct (Read b want io) as [[b1 o1] e1]. cbn [fst].
    destruct HA as (_ & A2 & A3 & _). split; assumption. }
  unfold Read in *. rewrite Hrf in *.
  destruct (finishWriting_frame b)
    as (_ & Fr & _ & _ & Fbuff & Frfile & Fuse & Fname & Fdata & _).
  assert (Hrem : remaining (finishWriting b) = remaining b)
    by (unfold remaining, filePos; rewrite Fbuff, Fuse, Frfile, Fdata; reflexivity).
  rewrite <- Hrem in Hshort. rewrite <- Fbuff in Hbuff.
  rewrite <- Fuse, <- Frfile, <- Fname in Hname. rewrite <- Fuse.
  rewrite <- Fuse, <- Fbuff in HA.
  clear Hrem Fr Fbuff Frfile Fuse Fname Fdata Hrf.
  revert Hname Hshort Hbuff HA. generalize (finishWriting b). clear b.
  intros b Hname Hshort Hbuff HA.
  assert (Hfile : forall (b0 : Buffer) (k : nat) (pre : list byte),
    readFile b0 = readFile b -> filename b0 = filename b -> useFile b = true ->
    file_data b0 = file_data b ->
    (List.length pre + List.length (skipn (filePos b) (file_data b)) < want)%nat ->
    (List.length pre + k = want)%nat ->
    let '(b1, out1, _) := readFromFile b0 k io in
    let b' := readDeferred b1 (List.length (pre ++ out1)) want in
    readFile b' = None /\ filename b' = EmptyString /\ file_data b' = []).
  { intros b0 k pre E1 E2 Hu E3 Hlt Hk.
    destruct (readFromFile_reliable b0 k io Hio) as [kd HR].
    { intros H. rewrite E2. apply Hname; [exact Hu|congruence]. }
    rewrite HR. rewrite readDeferred_short.
    - cbn. repeat split.
    - rewrite length_app, length_firstn.
      unfold filePos in *. rewrite E1, E3. lia. }
  destruct (buff b) as [|x l] eqn:Hb.
  - destruct (useFile b) eqn:Hu.
    + specialize (Hfile b want [] eq_refl eq_refl eq_refl eq_refl).
      destruct (readFromFile b want io) as [[b1 out1] err].
      cbn [fst snd app List.length] in *.
      destruct HA as (A2 & A3).
      destruct Hfile as (F1 & F2 & F3);
        [unfold remaining in Hshort; rewrite Hb, Hu in Hshort; cbn in Hshort; lia
        |lia|].
      rewrite A2, skipn_nil. auto.
    + cbn [fst]. rewrite readDeferred_short by (cbn; lia).
      destruct (readFile b) eqn:Hrf0; cbn; rewrite ?Hb, ?Hu; repeat split;
        congruence.
  - unfold readFromBuffer in *. rewrite Hb in *. set (bf := x :: l) in *. clearbody bf.
    replace (Datatypes.length (firstn want bf) =? want)%nat with false in *
      by (symmetry; apply Nat.eqb_neq; rewrite length_firstn; lia).
    cbn [orb] in *. cbn [useFile set_buff] in *.
    destruct (useFile b) eqn:Hu; cbn [negb] in *.
    + specialize (Hfile (set_buff (skipn want bf) b)
                    (want - Datatypes.length (firstn want bf))%nat
                    (firstn want bf) eq_refl eq_refl eq_refl eq_refl).
      destruct (readFromFile (set_buff (skipn want bf) b)
                  (want - Datatypes.length (firstn want bf)) io)
        as [[b1 out1] err].
      cbn [fst snd] in *.
      destruct HA as (A2 & A3).
      destruct Hfile as (F1 & F2 & F3).
      { unfold remaining in Hshort. rewrite Hb, length_app, Hu in Hshort.
        rewrite length_firstn. lia. }
      { rewrite length_firstn. lia. }
      rewrite A2, skipn_all2 by lia. auto.
    + cbn [fst]. rewrite readDeferred_short by (rewrite length_firstn; lia).
      change (readFile (set_buff (skipn want bf) b)) with (readFile b).
      destruct (readFile b) eqn:Hrf0; cbn; rewrite ?Hu, ?skipn_all2 by lia;
        repeat split; congruence.
Qed.

Section DrainToTheEnd.

Variable want : nat -> nat.
Variable env : nat -> IO.
Hypothesis want_pos : forall i, (0 < want i)%nat.
Hypothesis env_reliable : forall i, reliable (env i).

(** The state in which reading until end of data leaves the buffer. *)
Lemma readUntilEOF_ends (fuel : nat) :
  forall (b : Buffer) (i : nat),
    readable b -> (List.length (remaining b) + 2 <= fuel)%nat ->
    exists b', readUntilEOF fuel b want env i = Some (b', remaining b, None)
               /\ size b' = size b
               /\ offset b' = offset b + len (remaining b)
               /\ readingFinished b' = true /\ writingFinished b' = true
               /\ readFile b' = None /\ buff b' = []
               /\ useFile b' = useFile b
               /\ (useFile b = true ->
                   filename b' = EmptyString /\ file_data b' = []).
Proof.
  induction fuel as [|fuel IH]; intros b i Hb Hfuel; [lia|].
  destruct (Read_readable b (want i) (env i) Hb (env_reliable i) (want_pos i))
    as (b1 & err & HR & Hsz & Hoff & Hwf & Hfull & Hshort).
  pose proof (Read_any b (want i) (env i) (readable_reading _ Hb)) as HA.
  pose proof (Read_ends_the_stream b (want i) (env i) Hb (env_reliable i)) as HE.
  cbn [readUntilEOF]. rewrite HR in *. cbn [fst] in HE.
  destruct HA as (_ & _ & Huse & _).
  destruct (Nat.le_gt_cases (want i) (List.length (remaining b))) as [Hle|Hgt].
  - destruct (Hfull Hle) as (-> & Hb1 & Hrem1).
    pose proof (want_pos i) as Hw.
    destruct (IH b1 (S i) Hb1)
      as (b' & HU & Hsz' & Hoff' & Hfin' & Hwf' & Hrf' & Hbuff' & Huse' & Hfile').
    { rewrite Hrem1, length_skipn. lia. }
    rewrite HU. exists b'. rewrite Hrem1, firstn_skipn.
    split; [reflexivity|]. split; [congruence|].
    split; [rewrite Hoff', Hoff, Hrem1; unfold len;
            rewrite length_firstn, length_skipn; lia|].
    repeat (split; [assumption|]).
    split; [congruence|]. intros Hu. apply Hfile'. congruence.
  - destruct (Hshort Hgt) as (Hfin & Herr).
    destruct (HE Hgt) as (E1 & E2 & E3 & E4).
    rewrite firstn_all2 in * by lia.
    assert (Hend : size b1 = size b
                   /\ offset b1 = offset b + len (remaining b)
                   /\ readingFinished b1 = true /\ writingFinished b1 = true
                   /\ readFile b1 = None /\ buff b1 = []
                   /\ useFile b1 = useFile b
                   /\ (useFile b = true ->
                       filename b1 = EmptyString /\ file_data b1 = []))
      by (repeat (split; [assumption|]); exact E4).
    destruct Herr as [-> | ->].
    + destruct fuel as [|fuel]; [lia|].
      cbn [readUntilEOF]. rewrite (Read_finished b1 _ _ Hfin).
      exists b1. rewrite app_nil_r. split; [reflexivity|exact Hend].
    + exists b1. split; [reflexivity|exact Hend].
Qed.

End DrainToTheEnd.

(** X9. Reading to the end releases the file: after any writes on an unused
    buffer, reading sequentially until end of data, in a reliable
    environment, leaves [Len] 0, an empty memory, no open handle and no file
    (its name is forgotten and it is removed).  From then on every [Read]
    returns no byte and [io.EOF], and every [ReadAt] that passes its checks
    returns no byte: with [io.EOF] when the content had stayed in the memory,
    with the error of [os.Open] when it had overflowed into the file. *)
Theorem reading_to_the_end_releases_the_file (t : Z) (b0 : Buffer)
  (ws : list (list byte * IO)) (want : nat -> nat) (env : nat -> IO) (fuel : nat) :
  0 <= t -> unused t b0 ->
  Forall (fun w => reliable (snd w)) ws ->
  (forall i, (0 < want i)%nat) -> (forall i, reliable (env i)) ->
  let s := List.concat (map fst ws) in
  (List.length s + 2 <= fuel)%nat ->
  exists b',
    readUntilEOF fuel (fst (writeAll b0 ws)) want env 0 = Some (b', s, None)
    /\ Len b' = 0 /\ buff b' = [] /\ readFile b' = None /\ writeFile b' = None
    /\ filename b' = EmptyString /\ file_data b' = []
    /\ (forall n io, Read b' n io = (b', [], Some EOF))
    /\ (forall n off io,
          0 <= off < len s -> (0 < n)%nat ->
          ReadAt b' n off io
          = (b', [], if t <? len s then Some ErrOpenTemp else Some EOF)).
Proof.
  intros Ht Hb0 Hws Hwant Henv s Hfuel.
  destruct (writeAll_holds t ws Ht Hws [] b0 Hb0) as (b & HW & Hb & _).
  cbn [app] in Hb. rewrite HW. cbn [fst]. fold s in Hb.
  destruct (holds_stream t s b Ht Hb) as (Hread & Hrem & _).
  destruct (readUntilEOF_ends want env Hwant Henv fuel b 0%nat Hread)
    as (b' & HR & Hsz & Hoff & Hfin & Hwf & Hrf & Hbuff & Huse & Hfile);
    [rewrite Hrem; exact Hfuel|].
  rewrite Hrem in *.
  assert (K : consistent b').
  { pose proof (run_consistent (map (fun w => OpWrite (fst w) (snd w)) ws) b0
                  (unused_consistent t b0 Ht Hb0)) as K0.
    assert (Hrun : forall (l : list (list byte * IO)) (x : Buffer),
               fst (run x (map (fun w => OpWrite (fst w) (snd w)) l))
               = fst (writeAll x l)).
    { induction l as [|[d io] l IHl]; intros x; [reflexivity|].
      cbn [map run writeAll fst snd step].
      destruct (Write x d io) as [x1 r]. specialize (IHl x1).
      destruct (run x1 (map (fun w => OpWrite (fst w) (snd w)) l)).
      destruct (writeAll x1 l). cbn [fst] in *. exact IHl. }
    rewrite Hrun, HW in K0. cbn [fst] in K0.
    assert (Hloop : forall f (x : Buffer) (j : nat) x' o e,
               consistent x -> readUntilEOF f x want env j = Some (x', o, e) ->
               consistent x').
    { induction f as [|f IHf]; intros x j x' o e Kx Hx; [discriminate Hx|].
      cbn [readUntilEOF] in Hx.
      pose proof (Read_consistent x (want j) (env j) Kx) as K1.
      destruct (Read x (want j) (env j)) as [[x1 o1] e1]. cbn [fst] in K1.
      destruct e1 as [[]|]; try (inversion Hx; subst; exact K1).
      destruct (readUntilEOF f x1 want env (S j)) as [[[x2 o2] e2]|] eqn:Hrec;
        [|discriminate Hx].
      inversion Hx; subst. eapply IHf; [exact K1|exact Hrec]. }
    eapply Hloop; [exact K0|exact HR]. }
  destruct K as [_ _ K2 _ K4 _].
  assert (Hname : filename b' = EmptyString /\ file_data b' = []).
  { destruct (useFile b) eqn:Hu; [apply Hfile; reflexivity|].
    destruct Hb as [_ _ _ _ _ _ _ Huse0 Hfile0]. rewrite Hu in Hfile0.
    destruct Hfile0 as (_ & Hn & Hd).
    (* no file was ever created: reading changes neither name nor content *)
    assert (Hkeep : forall f (x : Buffer) (j : nat) x' o e,
               useFile x = false -> filename x = EmptyString -> file_data x = [] ->
               readUntilEOF f x want env j = Some (x', o, e) ->
               filename x' = EmptyString /\ file_data x' = []).
    { induction f as [|f IHf]; intros x j x' o e Hux Hnx Hdx Hx; [discriminate Hx|].
      cbn [readUntilEOF] in Hx.
      assert (H1 : useFile (fst (fst (Read x (want j) (env j)))) = false
                   /\ filename (fst (fst (Read x (want j) (env j)))) = EmptyString
                   /\ file_data (fst (fst (Read x (want j) (env j)))) = []).
      { unfold Read. destruct (readingFinished x); [auto|].
        destruct (finishWriting_frame x)
          as (_ & _ & _ & _ & _ & _ & Fu & Fn & Fd & _).
        rewrite <- Fu in Hux. rewrite <- Fn in Hnx. rewrite <- Fd in Hdx.
        revert Hux Hnx Hdx. generalize (finishWriting x). intros y Hux Hnx Hdx.
        rewrite Hux. unfold readFromBuffer.
        assert (HD : forall (y0 : Buffer) (n : nat),
                   useFile y0 = false -> filename y0 = EmptyString ->
                   file_data y0 = [] ->
                   useFile (readDeferred y0 n (want j)) = false
                   /\ filename (readDeferred y0 n (want j)) = EmptyString
                   /\ file_data (readDeferred y0 n (want j)) = []).
        { intros y0 n U N D. unfold readDeferred.
          destruct (n <? want j)%nat; cbn.
          - destruct (readFile y0); cbn; auto.
          - destruct (readingFinished y0); [destruct (readFile y0)|]; cbn; auto. }
        destruct (buff y) as [|c l].
        - cbn [fst]. apply HD; assumption.
        - change (useFile (set_buff (skipn (want j) (c :: l)) y)) with (useFile y).
          rewrite Hux. cbn [negb]. rewrite orb_true_r. cbn [fst].
          apply HD; assumption. }
      destruct (Read x (want j) (env j)) as [[x1 o1] e1]. cbn [fst] in H1.
      destruct H1 as (U1 & N1 & D1).
      destruct e1 as [[]|]; try (inversion Hx; subst; auto).
      destruct (readUntilEOF f x1 want env (S j)) as [[[x2 o2] e2]|] eqn:Hrec;
        [|discriminate Hx].
      inversion Hx; subst. eapply IHf; eassumption. }
    eapply Hkeep; [exact Hu|exact Hn|exact Hd|exact HR]. }
  destruct Hname as [Hn Hd].
  exists b'. split; [exact HR|].
  split; [unfold Len; rewrite Hsz, Hoff, (holds_size _ _ _ Hb),
            (holds_offset _ _ _ Hb); lia|].
  split; [exact Hbuff|]. split; [exact Hrf|]. split; [exact (K4 Hwf)|].
  split; [exact Hn|]. split; [exact Hd|].
  split; [intros n io; apply Read_finished; exact Hfin|].
  intros n off io [Hoff0 Hoff1] Hn0.
  unfold ReadAt.
  replace (off <? 0) with false by (symmetry; apply Z.ltb_ge; lia).
  replace (n =? 0)%nat with false by (symmetry; apply Nat.eqb_neq; lia).
  replace (off >=? size b') with false
    by (symmetry; rewrite Z.geb_leb; apply Z.leb_gt;
        rewrite Hsz, (holds_size _ _ _ Hb); lia).
  unfold finishWriting. rewrite Hwf. cbv zeta. rewrite Hbuff.
  replace (off <? len []) with false by (symmetry; apply Z.ltb_ge; cbn; lia).
  cbn [List.length]. rewrite Nat.sub_0_r.
  replace (0 <? n)%nat with true by (symmetry; apply Nat.ltb_lt; lia).
  rewrite Huse, (holds_useFile _ _ _ Hb). cbn [andb].
  destruct (t <? len s); [|reflexivity].
  unfold openReaderAt, canOpen. rewrite Hrf, Hn. reflexivity.
Qed.

Lemma reading_to_the_end_releases_the_file_witness :
  exists b',
    readUntilEOF 15 (fst (writeAll (fresh 2 false) [(bytes "Hello, world!", io_ok)]))
      (fun _ => 4%nat) (fun _ => io_ok) 0
    = Some (b', bytes "Hello, world!", None)
    /\ Len b' = 0 /\ filename b' = EmptyString
    /\ ReadAt b' 3 5 io_ok = (b', [], Some ErrOpenTemp).
Proof.
  destruct (reading_to_the_end_releases_the_file 2 (fresh 2 false)
              [(bytes "Hello, world!", io_ok)] (fun _ => 4%nat) (fun _ => io_ok) 15)
    as (b' & H1 & H2 & _ & _ & _ & H3 & _ & _ & H4).
  - lia.
  - apply fresh_holds. lia.
  - repeat constructor; discriminate.
  - intros _. lia.
  - intros _. apply reliable_io_ok.
  - vm_compute. lia.
  - exists b'. split; [exact H1|]. split; [exact H2|]. split; [exact H3|].
    apply (H4 3%nat 5 io_ok); [vm_compute; split; [discriminate|reflexivity]|lia].
Defined.

(** ** After [Reset] *)

(** [Write] looks at neither counter: with other values in [size] and
    [offset] it does the same and counts the same. *)
Lemma Write_recount (b : Buffer) (s o : Z) (data : list byte) (io : IO) :
  Write (set_size s (set_offset o b)) data io
  = (set_size (s + (size (fst (Write b data io)) - size b))
       (set_offset o (fst (Write b data io))),
     snd (Write b data io)).
Proof.
  destruct b as [mx wf rf sz o0 dir enc key bf wfile rfile use fname fdata].
  unfold Write, writeToFile; cbn -[tempName].
  split_conditions; cbn -[tempName]; unfold set_size, set_offset; cbn -[tempName];
    f_equal; f_equal; lia.
Qed.

Lemma writeAll_recount (ws : list (list byte * IO)) :
  forall (b : Buffer) (s o : Z),
    exists s',
      writeAll (set_size s (set_offset o b)) ws
      = (set_size s' (set_offset o (fst (writeAll b ws))), snd (writeAll b ws))
      /\ s' - s = size (fst (writeAll b ws)) - size b.
Proof.
  induction ws as [|[data io] ws IH]; intros b s o.
  - exists s. cbn. split; [reflexivity|lia].
  - cbn [writeAll]. rewrite Write_recount.
    destruct (Write b data io) as [b1 r1]. cbn [fst snd].
    destruct (IH b1 (s + (size b1 - size b)) o) as (s' & HW & Hs).
    rewrite HW. destruct (writeAll b1 ws) as [b2 rs]. cbn [fst snd] in *.
    exists s'. split; [reflexivity|lia].
Qed.

(** What [Reset] leaves is an unused buffer, but for the counters. *)
Lemma Reset_unused (b : Buffer) :
  consistent b -> 0 <= maxInMemorySize b ->
  unused (maxInMemorySize b) (set_size 0 (set_offset 0 (Reset b)))
  /\ Reset b = set_size (size b) (set_offset (offset b)
                 (set_size 0 (set_offset 0 (Reset b)))).
Proof.
  intros [_ _ K2 _ _ _] Ht. unfold Reset. cbn.
  assert (Hlt : (maxInMemorySize b <? len []) = false)
    by (apply Z.ltb_ge; cbn; lia).
  destruct (String.eqb (filename b) EmptyString) eqn:Hname.
  - apply String.eqb_eq in Hname. destruct (K2 Hname) as [Hfd _].
    split; [|reflexivity].
    constructor; cbn; rewrite ?firstn_nil, ?Hlt; auto.
  - split; [|reflexivity].
    constructor; cbn; rewrite ?firstn_nil, ?Hlt; auto.
Qed.

Lemma run_writes (ws : list (list byte * IO)) :
  forall b : Buffer,
    fst (run b (map (fun w => OpWrite (fst w) (snd w)) ws)) = fst (writeAll b ws).
Proof.
  induction ws as [|[d io] ws IH]; intros b; [reflexivity|].
  cbn [map run writeAll fst snd step].
  destruct (Write b d io) as [b1 r]. specialize (IH b1).
  destruct (run b1 (map (fun w => OpWrite (fst w) (snd w)) ws)).
  destruct (writeAll b1 ws). cbn [fst] in *. exact IH.
Qed.

(** X10. [Reset] makes the buffer reusable, but for [Len]: in every state
    that calls on an unused buffer with threshold [t >= 0] can reach, after
    [Reset] the memory is empty, no file and no handle is left, and writes
    are accepted again; in a reliable environment, the writes that follow
    are all accepted in full and reading until end of data returns exactly
    their bytes; [size] and [offset] however keep counting from their old
    values, so [Len] is off by what it was before [Reset]. *)
Theorem Reset_makes_the_buffer_reusable (t : Z) (b0 : Buffer) (os : list op)
  (ws : list (list byte * IO)) (want : nat -> nat) (env : nat -> IO) (fuel : nat) :
  0 <= t -> unused t b0 ->
  let b := Reset (fst (run b0 os)) in
  let s := List.concat (map fst ws) in
  (buff b = [] /\ useFile b = false /\ filename b = EmptyString
   /\ file_data b = [] /\ readFile b = None /\ writeFile b = None
   /\ writingFinished b = false /\ readingFinished b = false
   /\ Len b = Len (fst (run b0 os)))
  /\ (Forall (fun w => reliable (snd w)) ws ->
      (forall i, (0 < want i)%nat) -> (forall i, reliable (env i)) ->
      (List.length s + 2 <= fuel)%nat ->
      exists b1 b2,
        writeAll b ws = (b1, map (fun w => Ret (len (fst w), None)) ws)
        /\ Len b1 = Len (fst (run b0 os)) + len s
        /\ readUntilEOF fuel b1 want env 0 = Some (b2, s, None)
        /\ Len b2 = Len (fst (run b0 os))).
Proof.
  intros Ht Hb0 b s.
  set (a := fst (run b0 os)) in *.
  assert (K : consistent a)
    by (apply run_consistent, (unused_consistent t b0 Ht Hb0)).
  assert (Hmax : maxInMemorySize a = t)
    by (subst a; rewrite run_threshold; apply (holds_max _ _ _ Hb0)).
  destruct (Reset_unused a K) as [Hu Heq]; [lia|]. rewrite Hmax in Hu.
  fold b in Hu, Heq.
  destruct (Reset_counters a) as [Rs Ro]. fold b in Rs, Ro.
  split.
  - clear Hu Heq Rs Ro. subst b. unfold Reset, Len. cbn.
    destruct (String.eqb (filename a) EmptyString) eqn:Hname; cbn;
      [|repeat split].
    apply String.eqb_eq in Hname. destruct K as [_ _ K2 _ _ _].
    destruct (K2 Hname) as [Hfd _]. repeat split. exact Hfd.
  - intros Hws Hwant Henv Hfuel.
    set (c := set_size 0 (set_offset 0 b)) in *.
    destruct (writeAll_holds t ws Ht Hws [] c Hu) as (c1 & HW & Hc1 & _).
    cbn [app] in Hc1. fold s in Hc1.
    destruct (writeAll_recount ws c (size a) (offset a)) as (s' & HW' & Hs').
    rewrite <- Heq in HW'. rewrite HW in HW', Hs'. cbn [fst snd] in HW', Hs'.
    destruct (holds_stream t s c1 Ht Hc1) as ([Hr1 Hr2] & Hrem & _).
    set (b1 := set_size s' (set_offset (offset a) c1)) in *.
    assert (Hb1 : readable b1) by (constructor; [exact Hr1|exact Hr2]).
    assert (Hrem1 : remaining b1 = s) by exact Hrem.
    destruct (readUntilEOF_drains want env Hwant Henv fuel b1 0%nat Hb1)
      as (b2 & HR & Hsz & Hoff & _); [rewrite Hrem1; exact Hfuel|].
    rewrite Hrem1 in HR, Hoff.
    exists b1, b2. split; [exact HW'|].
    assert (Hs1 : s' = size a + len s).
    { rewrite (holds_size _ _ _ Hc1) in Hs'. subst c. cbn in Hs'. lia. }
    split; [unfold Len; subst b1; cbn; lia|].
    split; [exact HR|].
    unfold Len. rewrite Hsz, Hoff. subst b1. cbn. lia.
Qed.

Lemma Reset_makes_the_buffer_reusable_witness :
  let b := Reset (fst (run (fresh 2 false)
                         [OpWrite (bytes "Hello") io_ok; OpRead 3 io_ok])) in
  exists b1 b2,
    writeAll b [(bytes "abc", io_ok); (bytes "def", io_ok)]
    = (b1, [Ret (3, None); Ret (3, None)])
    /\ Len b1 = 2 + 6
    /\ readUntilEOF 8 b1 (fun _ => 4%nat) (fun _ => io_ok) 0
       = Some (b2, bytes "abcdef", None)
    /\ Len b2 = 2.
Proof.
  destruct (Reset_makes_the_buffer_reusable 2 (fresh 2 false)
              [OpWrite (bytes "Hello") io_ok; OpRead 3 io_ok]
              [(bytes "abc", io_ok); (bytes "def", io_ok)]
              (fun _ => 4%nat) (fun _ => io_ok) 8) as [_ H].
  - lia.
  - apply fresh_holds. lia.
  - apply H.
    + repeat constructor; discriminate.
    + intros _. lia.
    + intros _. apply reliable_io_ok.
    + vm_compute. lia.
Defined.

(** ** When the file cannot be created *)

(** X11. A failed creation of the temporary file breaks the buffer for
    writing: when the data does not fit into the memory and
    [ioutil.TempFile] (or, with encryption, [sio.EncryptWriter]) fails,
    [Write] reports the error with the count of the bytes that filled the
    memory, but leaves [useFile] set and no write handle; every later
    [Write], of an empty slice too, then panics on the nil [b.writeFile];
    the bytes kept in the memory can still be read, and a [Read] that asks
    for more than them gets the error of [os.Open]. *)
Theorem failed_file_creation_breaks_writing (t : Z) (s data : list byte)
  (b : Buffer) (io : IO) :
  0 <= t -> holds t s b -> len s <= t < len s + len data ->
  tempfile io = None \/ (encrypt b = true /\ encrypt_writer_ok io = false) ->
  let b' := fst (Write b data io) in
  (exists e, snd (Write b data io) = Ret (t - len s, Some e)
             /\ (e = ErrTempFile \/ e = ErrEncryptStream))
  /\ buff b' = firstn (Z.to_nat t) (s ++ data)
  /\ useFile b' = true /\ writeFile b' = None /\ filename b' = EmptyString
  /\ (forall data' io', Write b' data' io' = (b', Panic))
  /\ (forall want io',
        (Z.to_nat t < want)%nat ->
        snd (fst (Read b' want io')) = firstn (Z.to_nat t) (s ++ data)
        /\ snd (Read b' want io') = Some ErrOpenTemp).
Proof.
  intros Ht [Hmax Hw Hr Hsz Hoff Hbuff Hrf Huse Hfile] [Hlo Hhi] Hfail.
  replace (t <? len s) with false in Huse by (symmetry; apply Z.ltb_ge; lia).
  rewrite Huse in Hfile. destruct Hfile as (Hwf & Hname & Hfd).
  assert (Hs : firstn (Z.to_nat t) s = s)
    by (apply firstn_all2; unfold len in *; lia).
  rewrite Hs in Hbuff.
  assert (Hall : firstn (Z.to_nat t) (s ++ data)
                 = s ++ firstn (Z.to_nat (t - len s)) data).
  { rewrite firstn_app, Hs. f_equal. f_equal. unfold len. lia. }
  destruct b as [mx wf rf sz o dir enc key bf wfile rfile use fname fdata].
  cbn in *. subst mx wf rf sz o bf rfile use wfile fname fdata.
  assert (HW : exists e,
    Write (mkBuffer t false false (len s) 0 dir enc key s None None false
             EmptyString []) data io
    = (mkBuffer t false false (len s + (t - len s)) 0 dir enc key
         (s ++ firstn (Z.to_nat (t - len s)) data) None None true EmptyString [],
       Ret (t - len s, Some e))
    /\ (e = ErrTempFile \/ e = ErrEncryptStream)).
  { unfold Write; cbn -[tempName].
    replace (len s + len data <=? t) with false by (symmetry; apply Z.leb_gt; lia).
    replace (t - len s <? 0) with false by (symmetry; apply Z.ltb_ge; lia).
    destruct (tempfile io) as [rnd|] eqn:Htmp.
    - destruct Hfail as [Hf | [-> ->]]; [discriminate Hf|].
      cbn. exists ErrEncryptStream. split; [reflexivity|right; reflexivity].
    - exists ErrTempFile. split; [reflexivity|left; reflexivity]. }
  destruct HW as (e & HW & He). rewrite HW. cbn [fst snd].
  split; [exists e; split; [reflexivity|exact He]|].
  split; [cbn; symmetry; exact Hall|].
  split; [reflexivity|]. split; [reflexivity|]. split; [reflexivity|].
  split.
  - intros data' io'. unfold Write, writeToFile; cbn. f_equal.
    unfold set_size; cbn. f_equal. lia.
  - intros want io' Hwant. rewrite Hall.
    set (m := s ++ firstn (Z.to_nat (t - len s)) data).
    assert (Hm : (List.length m <= Z.to_nat t)%nat).
    { subst m. rewrite length_app, length_firstn. unfold len in *. lia. }
    unfold Read, finishWriting, readFromBuffer, readFromFile, canOpen; cbn.
    destruct m as [|x l] eqn:Em; cbn -[firstn skipn Nat.sub].
    + split; reflexivity.
    + rewrite <- Em in *. 
      replace (Datatypes.length (firstn want m) =? want)%nat with false
        by (symmetry; apply Nat.eqb_neq; rewrite length_firstn; lia).
      cbn. rewrite app_nil_r. split; [apply firstn_all2; lia|reflexivity].
Qed.

Lemma failed_file_creation_breaks_writing_witness :
  let io := mkIO None true None true true in
  let b := fresh 5 false in
  let b' := fst (Write b (bytes "123456789") io) in
  snd (Write b (bytes "123456789") io) = Ret (5, Some ErrTempFile)
  /\ Write b' [] io_ok = (b', Panic)
  /\ snd (fst (Read b' 9 io_ok)) = bytes "12345".
Proof.
  intros io b b'.
  destruct (failed_file_creation_breaks_writing 5 [] (bytes "123456789") b io)
    as ((e & H1 & _) & _ & _ & _ & _ & H2 & H3).
  - lia.
  - apply fresh_holds. lia.
  - vm_compute. split; [discriminate|reflexivity].
  - left. reflexivity.
  - split; [reflexivity|]. split; [apply H2|].
    destruct (H3 9%nat io_ok) as [H _]; [vm_compute; lia|exact H].
Defined.

(** ** Random access after sequential reading *)

(** A [Read] that the memory can serve. *)
Lemma Read_from_memory (b : Buffer) (want : nat) (io : IO) :
  readingFinished b = false -> (0 < want <= List.length (buff b))%nat ->
  Read b want io
  = (set_offset (offset b + Z.of_nat want)
       (set_buff (skipn want (buff b)) (finishWriting b)),
     firstn want (buff b), None).
Proof.
  intros Hr [Hpos Hle]. unfold Read. rewrite Hr.
  destruct (finishWriting_frame b) as (_ & Fr & _ & Foff & Fbuff & _).
  rewrite <- Fbuff in *. rewrite <- Fr in Hr. rewrite <- Foff. clear Fr Foff Fbuff.
  revert Hr Hle. generalize (finishWriting b). intros B Hr Hle.
  destruct (buff B) as [|x l] eqn:HB; [cbn in Hle; lia|].
  unfold readFromBuffer. rewrite HB.
  assert (Hlen : List.length (firstn want (x :: l)) = want)
    by (rewrite length_firstn; lia).
  rewrite Hlen, Nat.eqb_refl. cbn [orb].
  rewrite readDeferred_full; [rewrite Hlen; reflexivity|lia|exact Hr].
Qed.

(** A [Read] that empties the memory and goes on in the file, without
    reaching its end, on a buffer that was only written. *)
Lemma Read_into_file (t : Z) (s : list byte) (b : Buffer) (want : nat) (io : IO) :
  0 <= t -> holds t s b -> reliable io ->
  (Z.to_nat t < want <= List.length s)%nat ->
  exists b',
    Read b want io = (b', firstn want s, None)
    /\ buff b' = [] /\ useFile b' = true /\ file_data b' = skipn (Z.to_nat t) s
    /\ size b' = len s /\ writingFinished b' = true
    /\ encrypt b' = encrypt b
    /\ readFile b'
       = Some (mkReadHandle
                 (if encrypt b then SioDecryptReaderWrapper else OsFileR)
                 (want - Z.to_nat t)).
Proof.
  intros Ht [Hmax Hw Hr Hsz Hoff Hbuff Hrf Huse Hfile] (_ & _ & _ & Hopen & Hdec)
    [Hlo Hhi].
  replace (t <? len s) with true in Huse
    by (symmetry; apply Z.ltb_lt; unfold len; lia).
  rewrite Huse in Hfile. destruct Hfile as (Hwf & Hname & Hfd).
  apply String.eqb_neq in Hname.
  destruct b as [mx wf rf sz o dir enc key bf wfile rfile use fname fdata].
  cbn in *. subst mx wf rf sz o rfile use fdata.
  set (m := firstn (Z.to_nat t) s) in *.
  assert (Hm : List.length m = Z.to_nat t) by (subst m; rewrite length_firstn; lia).
  assert (Hcut : firstn want s = m ++ firstn (want - Z.to_nat t) (skipn (Z.to_nat t) s)).
  { rewrite <- (firstn_skipn (Z.to_nat t) s) at 1. fold m.
    rewrite firstn_app, Hm, firstn_all2 by lia. reflexivity. }
  assert (Hl2 : List.length (firstn (want - Z.to_nat t) (skipn (Z.to_nat t) s))
                = (want - Z.to_nat t)%nat)
    by (rewrite length_firstn, length_skipn; lia).
  subst bf.
  unfold Read, finishWriting, readFromBuffer, readFromFile, canOpen, handleRead; cbn.
  rewrite Hname, Hopen, Hdec. cbn.
  destruct m as [|x l] eqn:Em.
  - cbn [List.length] in Hm. rewrite <- Hm in *. rewrite Nat.sub_0_r in *.
    cbn [app] in Hcut. rewrite <- Hcut in *.
    destruct enc; cbn; rewrite ?skipn_0, ?Hl2;
      (replace ((0 <? want)%nat && (want =? 0)%nat) with false
         by (symmetry; apply andb_false_iff; right; apply Nat.eqb_neq; lia));
      rewrite readDeferred_full by (cbn; auto); cbn;
      eexists; (split; [reflexivity|]); cbn; rewrite ?Nat.add_0_l;
      repeat split; rewrite <- Hm; reflexivity.
  - rewrite <- Em in *.
    assert (Hf : firstn want m = m) by (apply firstn_all2; lia).
    assert (Hk : skipn want m = []) by (apply skipn_all2; lia).
    cbn -[firstn skipn Nat.sub]. rewrite Hf, Hk, Hm.
    replace (Z.to_nat t =? want)%nat with false
      by (symmetry; apply Nat.eqb_neq; lia).
    cbn -[firstn skipn Nat.sub].
    destruct enc; cbn -[firstn skipn Nat.sub]; rewrite ?skipn_0, ?Hl2;
      (replace ((0 <? want - Z.to_nat t)%nat && (want - Z.to_nat t =? 0)%nat)
         with false
         by (symmetry; apply andb_false_iff; right; apply Nat.eqb_neq; lia));
      rewrite readDeferred_full
        by (cbn; auto; rewrite length_app, Hm, Hl2; lia);
      cbn -[firstn skipn Nat.sub];
      eexists; (split; [rewrite Hcut; reflexivity|]); cbn -[firstn skipn Nat.sub];
      repeat split.
Qed.

(** X12. With encryption, random access into the file is lost once a
    sequential read has opened it: after writes that overflowed into the
    file, a [Read] that takes more than the memory holds (and does not end
    the stream) caches a sequential decrypting reader; every [ReadAt] that
    passes its checks then returns no byte and the error "readFile does not
    implement io.ReaderAt", whatever the environment. *)
Theorem encrypted_ReadAt_fails_after_sequential_read (t : Z) (b0 : Buffer)
  (ws : list (list byte * IO)) (want : nat) (io : IO) :
  0 <= t -> unused t b0 -> encrypt b0 = true ->
  Forall (fun w => reliable (snd w)) ws -> reliable io ->
  let s := List.concat (map fst ws) in
  (Z.to_nat t < want <= List.length s)%nat ->
  let b' := fst (fst (Read (fst (writeAll b0 ws)) want io)) in
  snd (fst (Read (fst (writeAll b0 ws)) want io)) = firstn want s
  /\ forall n off io',
       0 <= off < len s -> (0 < n)%nat ->
       ReadAt b' n off io' = (b', [], Some ErrNoReaderAt).
Proof.
  intros Ht Hb0 Henc Hws Hio s Hwant.
  destruct (writeAll_holds t ws Ht Hws [] b0 Hb0) as (b & HW & Hb & He).
  cbn [app] in Hb. rewrite HW. cbn [fst]. fold s in Hb.
  destruct (Read_into_file t s b want io Ht Hb Hio Hwant)
    as (b' & HR & Hbuff & Huse & Hfd & Hsz & Hwf & _ & Hrf).
  rewrite HR. cbn [fst snd]. split; [reflexivity|].
  intros n off io' [Ho1 Ho2] Hn.
  rewrite He, Henc in Hrf.
  unfold ReadAt.
  replace (off <? 0) with false by (symmetry; apply Z.ltb_ge; lia).
  replace (n =? 0)%nat with false by (symmetry; apply Nat.eqb_neq; lia).
  replace (off >=? size b') with false
    by (symmetry; rewrite Z.geb_leb; apply Z.leb_gt; lia).
  unfold finishWriting. rewrite Hwf. cbv zeta. rewrite Hbuff.
  replace (off <? len []) with false by (symmetry; apply Z.ltb_ge; cbn; lia).
  cbn [List.length]. rewrite Nat.sub_0_r.
  replace (0 <? n)%nat with true by (symmetry; apply Nat.ltb_lt; lia).
  rewrite Huse. cbn [andb]. unfold openReaderAt. rewrite Hrf. reflexivity.
Qed.

Lemma encrypted_ReadAt_fails_after_sequential_read_witness :
  let b := fst (writeAll (fresh 2 true) [(bytes "Hello, world!", io_ok)]) in
  let b' := fst (fst (Read b 4 io_ok)) in
  snd (fst (Read b 4 io_ok)) = bytes "Hell"
  /\ ReadAt b' 3 5 io_ok = (b', [], Some ErrNoReaderAt).
Proof.
  intros b b'.
  destruct (encrypted_ReadAt_fails_after_sequential_read 2 (fresh 2 true)
              [(bytes "Hello, world!", io_ok)] 4 io_ok) as [H1 H2].
  - lia.
  - apply fresh_holds. lia.
  - reflexivity.
  - repeat constructor; discriminate.
  - apply reliable_io_ok.
  - vm_compute. lia.
  - split; [exact H1|].
    apply (H2 3%nat 5 io_ok); [vm_compute; split; [discriminate|reflexivity]|lia].
Defined.

(** X13. [ReadAt] counts its offset from the first unread byte of the
    memory, not from the start of the content: after a sequential [Read] of
    [k] bytes that the memory could serve, [ReadAt] at offset [off] (checked
    against the whole [size]) returns the content from [off + k] on, in a
    reliable environment; without encryption, after a [Read] that emptied
    the memory and went on in the file, it returns the content from
    [off + t] on, [t] being the threshold. *)
Theorem ReadAt_offset_is_relative_to_the_unread_memory (t : Z) (b0 : Buffer)
  (ws : list (list byte * IO)) (k n : nat) (off : Z) (io io' : IO) :
  0 <= t -> unused t b0 ->
  Forall (fun w => reliable (snd w)) ws -> reliable io -> reliable io' ->
  let s := List.concat (map fst ws) in
  let b' := fst (fst (Read (fst (writeAll b0 ws)) k io)) in
  0 <= off < len s -> (0 < n)%nat -> (0 < k <= List.length s)%nat ->
  ((k <= Z.to_nat t)%nat ->
   snd (fst (ReadAt b' n off io')) = firstn n (skipn (Z.to_nat off + k) s)
   /\ snd (ReadAt b' n off io')
      = if off + Z.of_nat k + Z.of_nat n <=? len s then None else Some EOF)
  /\ ((Z.to_nat t < k)%nat -> encrypt b0 = false ->
      snd (fst (ReadAt b' n off io'))
      = firstn n (skipn (Z.to_nat off + Z.to_nat t) s)
      /\ snd (ReadAt b' n off io')
         = if off + t + Z.of_nat n <=? len s then None else Some EOF).
Proof.
  intros Ht Hb0 Hws Hio Hio' s b' Hoff Hn Hk.
  destruct (writeAll_holds t ws Ht Hws [] b0 Hb0) as (b & HW & Hb & He).
  cbn [app] in Hb. subst b'. rewrite HW. cbn [fst]. fold s in Hb.
  assert (Hres : forall (b' : Buffer) (d : nat),
    size b' = len s -> stored b' = skipn d s ->
    (useFile b' = true -> access b' = CanReadAt) ->
    snd (fst (ReadAt b' n off io')) = firstn n (skipn (Z.to_nat off + d) s)
    /\ snd (ReadAt b' n off io')
       = if off + Z.of_nat d + Z.of_nat n <=? len s then None else Some EOF).
  { intros b' d Hsz Hst Hacc.
    destruct (ReadAt_reliable b' n off io' Hio') as (b2 & HR);
      [rewrite Hsz; exact Hoff|exact Hn|exact Hacc|].
    rewrite HR, Hst, skipn_skipn. cbn [fst snd]. split; [reflexivity|].
    rewrite length_firstn, length_skipn. unfold len in *.
    destruct (off + Z.of_nat d + Z.of_nat n <=? Z.of_nat (Datatypes.length s))
      eqn:Hfit.
    - apply Z.leb_le in Hfit.
      replace (Nat.min n (Datatypes.length s - (Z.to_nat off + d)) <? n)%nat
        with false by (symmetry; apply Nat.ltb_ge; lia).
      reflexivity.
    - apply Z.leb_gt in Hfit.
      replace (Nat.min n (Datatypes.length s - (Z.to_nat off + d)) <? n)%nat
        with true by (symmetry; apply Nat.ltb_lt; lia).
      reflexivity. }
  split.
  - intros Hkt.
    destruct (finishWriting_frame b)
      as (_ & _ & Fsz & _ & Fbuff & Frfile & Fuse & Fname & Fdata & _).
    pose proof Hb as [Hmax Hw Hr Hsz Ho Hbuff Hrf Huse Hfile].
    rewrite Read_from_memory;
      [|exact Hr|rewrite Hbuff, length_firstn; lia].
    cbn [fst]. apply Hres.
    + cbn [size set_offset set_buff]. rewrite Fsz. exact Hsz.
    + unfold stored. cbn [buff useFile file_data set_offset set_buff]. rewrite ?Fbuff, ?Fuse, ?Fdata, Hbuff.
      destruct (useFile b).
      * destruct Hfile as (_ & _ & ->).
        rewrite <- (firstn_skipn (Z.to_nat t) s) at 3.
        rewrite skipn_app, length_firstn.
        replace (k - Nat.min (Z.to_nat t) (Datatypes.length s))%nat with 0%nat by lia.
        reflexivity.
      * symmetry in Huse. apply Z.ltb_ge in Huse.
        rewrite app_nil_r, firstn_all2 by (unfold len in Huse; lia). reflexivity.
    + cbn [useFile set_offset set_buff]. rewrite Fuse. intros Hu. unfold access. cbn [readFile filename set_offset set_buff]. rewrite Frfile, Fname, Hrf.
      rewrite Hu in Hfile. destruct Hfile as (_ & Hname & _).
      apply String.eqb_neq in Hname. rewrite Hname. reflexivity.
  - intros Hkt Henc.
    destruct (Read_into_file t s b k io Ht Hb Hio) as
      (b' & HR & Hbuff & Huse & Hfd & Hsz & Hwf & _ & Hrf); [lia|].
    rewrite HR. cbn [fst].
    rewrite He, Henc in Hrf.
    replace (off + t) with (off + Z.of_nat (Z.to_nat t)) by lia.
    apply Hres.
    + exact Hsz.
    + unfold stored. rewrite Hbuff, Huse, Hfd. reflexivity.
    + intros _. unfold access. rewrite Hrf. reflexivity.
Qed.

Lemma ReadAt_offset_is_relative_to_the_unread_memory_witness :
  let b := fst (writeAll (fresh 5 false) [(bytes "123456789", io_ok)]) in
  snd (fst (ReadAt (fst (fst (Read b 3 io_ok))) 2 0 io_ok)) = bytes "45"
  /\ snd (fst (ReadAt (fst (fst (Read b 7 io_ok))) 2 1 io_ok)) = bytes "78".
Proof.
  intros b. split.
  - destruct (ReadAt_offset_is_relative_to_the_unread_memory 5 (fresh 5 false)
                [(bytes "123456789", io_ok)] 3 2 0 io_ok io_ok) as [H _];
      try apply reliable_io_ok; try lia.
    + apply fresh_holds. lia.
    + repeat constructor; discriminate.
    + vm_compute. split; [discriminate|reflexivity].
    + vm_compute. lia.
    + destruct H as [H _]; [vm_compute; lia|exact H].
  - destruct (ReadAt_offset_is_relative_to_the_unread_memory 5 (fresh 5 false)
                [(bytes "123456789", io_ok)] 7 2 1 io_ok io_ok) as [_ H];
      try apply reliable_io_ok; try lia.
    + apply fresh_holds. lia.
    + repeat constructor; discriminate.
    + vm_compute. split; [discriminate|reflexivity].
    + vm_compute. lia.
    + destruct H as [H _]; [vm_compute; lia|reflexivity|exact H].
Defined.

(** ** Bytes, delimiters and strings *)

Lemma ReadByte_next (b : Buffer) (io : IO) (c : byte) (r : list byte) :
  readable b -> reliable io -> remaining b = c :: r ->
  exists b', ReadByte b io = (b', c, None)
             /\ readable b' /\ remaining b' = r
             /\ size b' = size b /\ offset b' = offset b + 1.
Proof.
  intros Hb Hio Hrem.
  destruct (Read_readable b 1 io Hb Hio) as (b' & err & HR & Hsz & Hoff & _ & Hfull & _);
    [lia|].
  rewrite Hrem in *. cbn [firstn] in *.
  destruct Hfull as (-> & Hb' & Hrem'); [cbn; lia|].
  exists b'. unfold ReadByte. rewrite HR. cbn [hd skipn] in *.
  split; [reflexivity|]. split; [exact Hb'|]. split; [exact Hrem'|].
  split; [exact Hsz|]. rewrite Hoff. reflexivity.
Qed.

Lemma ReadByte_at_the_end (b : Buffer) (io : IO) :
  readable b -> reliable io -> remaining b = [] ->
  exists b', ReadByte b io = (b', x00, Some EOF)
             /\ readingFinished b' = true
             /\ size b' = size b /\ offset b' = offset b.
Proof.
  intros Hb Hio Hrem.
  destruct (Read_readable b 1 io Hb Hio) as (b' & err & HR & Hsz & Hoff & _ & _ & Hshort);
    [lia|].
  pose proof (Read_any b 1 io (readable_reading b Hb)) as HA.
  rewrite HR in HA. destruct HA as (_ & _ & _ & _ & _ & _ & Hne).
  rewrite Hrem in *. cbn [firstn] in *.
  destruct Hshort as (Hfin & Herr); [cbn; lia|].
  exists b'. unfold ReadByte. rewrite HR. cbn [hd].
  assert (err = Some EOF) as ->.
  { destruct Herr as [-> | ->]; [|reflexivity].
    exfalso. apply Hne; [reflexivity|lia|reflexivity]. }
  repeat split; try assumption. rewrite Hoff. cbn. lia.
Qed.

Lemma ReadBytes_found (delim : byte) (io : IO) (pre : list byte) :
  reliable io -> ~ In delim pre ->
  forall (fuel : nat) (b : Buffer) (post acc : list byte),
    readable b -> remaining b = pre ++ delim :: post ->
    (List.length pre < fuel)%nat ->
    exists b', ReadBytes fuel b delim io acc = Some (b', acc ++ pre ++ [delim], None)
               /\ readable b' /\ remaining b' = post
               /\ size b' = size b
               /\ offset b' = offset b + len pre + 1.
Proof.
  intros Hio. induction pre as [|c pre IH]; intros Hnot fuel b post acc Hb Hrem Hfuel.
  - destruct fuel as [|fuel]; [cbn in Hfuel; lia|].
    destruct (ReadByte_next b io delim post Hb Hio Hrem) as (b' & HR & Hb' & Hrem' & Hsz & Hoff).
    exists b'. cbn [ReadBytes]. rewrite HR.
    replace (Byte.eqb delim delim) with true
      by (symmetry; apply Byte.byte_dec_lb; reflexivity).
    cbn [app]. repeat split; try assumption; try apply Hb'. cbn. lia.
  - destruct fuel as [|fuel]; [cbn in Hfuel; lia|].
    destruct (ReadByte_next b io c (pre ++ delim :: post) Hb Hio Hrem)
      as (b1 & HR & Hb1 & Hrem1 & Hsz1 & Hoff1).
    cbn [ReadBytes]. rewrite HR.
    assert (Hc : Byte.eqb c delim = false).
    { destruct (Byte.eqb c delim) eqn:E; [|reflexivity].
      apply Byte.byte_dec_bl in E. exfalso. apply Hnot. left. exact E. }
    rewrite Hc.
    destruct (IH (fun H => Hnot (or_intror H)) fuel b1 post (acc ++ [c]) Hb1 Hrem1)
      as (b' & HB & Hb' & Hrem' & Hsz & Hoff); [cbn in Hfuel; lia|].
    exists b'. rewrite HB, <- app_assoc. cbn [app].
    repeat split; try assumption; try apply Hb'; try congruence.
    rewrite Hoff, Hoff1. unfold len. cbn [List.length]. lia.
Qed.

Lemma ReadBytes_not_found (delim : byte) (io : IO) :
  reliable io ->
  forall (rest : list byte) (fuel : nat) (b : Buffer) (acc : list byte),
    ~ In delim rest -> readable b -> remaining b = rest ->
    (List.length rest < fuel)%nat ->
    exists b', ReadBytes fuel b delim io acc = Some (b', acc ++ rest, Some EOF)
               /\ readingFinished b' = true
               /\ size b' = size b
               /\ offset b' = offset b + len rest.
Proof.
  intros Hio. induction rest as [|c rest IH]; intros fuel b acc Hnot Hb Hrem Hfuel.
  - destruct fuel as [|fuel]; [cbn in Hfuel; lia|].
    destruct (ReadByte_at_the_end b io Hb Hio Hrem) as (b' & HR & Hfin & Hsz & Hoff).
    exists b'. cbn [ReadBytes]. rewrite HR, app_nil_r.
    repeat split; try assumption. cbn. lia.
  - destruct fuel as [|fuel]; [cbn in Hfuel; lia|].
    destruct (ReadByte_next b io c rest Hb Hio Hrem)
      as (b1 & HR & Hb1 & Hrem1 & Hsz1 & Hoff1).
    cbn [ReadBytes]. rewrite HR.
    assert (Hc : Byte.eqb c delim = false).
    { destruct (Byte.eqb c delim) eqn:E; [|reflexivity].
      apply Byte.byte_dec_bl in E. exfalso. apply Hnot. left. exact E. }
    rewrite Hc.
    destruct (IH fuel b1 (acc ++ [c]) (fun H => Hnot (or_intror H)) Hb1 Hrem1)
      as (b' & HB & Hfin & Hsz & Hoff); [cbn in Hfuel; lia|].
    exists b'. rewrite HB, <- app_assoc. cbn [app].
    repeat split; try assumption; try congruence.
    rewrite Hoff, Hoff1. unfold len. cbn [List.length]. lia.
Qed.

(** X14. On a buffer that was only written, [ReadBytes] (and [ReadString],
    its string form) reads the content byte by byte up to and including
    the first [delim]: the bytes after it stay unread and there is no
    error.  When the content holds no [delim], it returns all of it
    together with [io.EOF] and reading is finished.  Both in a reliable
    environment, for any threshold; [Len] goes down by the bytes
    returned. *)
Theorem ReadBytes_stops_at_the_delimiter (t : Z) (b0 : Buffer)
  (ws : list (list byte * IO)) (delim : byte) (io : IO) (fuel : nat) :
  0 <= t -> unused t b0 ->
  Forall (fun w => reliable (snd w)) ws -> reliable io ->
  let b := fst (writeAll b0 ws) in
  let s := List.concat (map fst ws) in
  (List.length s < fuel)%nat ->
  (forall pre post : list byte,
     s = pre ++ delim :: post -> ~ In delim pre ->
     exists b',
       ReadBytes fuel b delim io [] = Some (b', pre ++ [delim], None)
       /\ ReadString fuel b delim io
          = Some (b', string_of_list_byte (pre ++ [delim]), None)
       /\ remaining b' = post
       /\ Len b' = len post)
  /\ (~ In delim s ->
      exists b',
        ReadBytes fuel b delim io [] = Some (b', s, Some EOF)
        /\ ReadString fuel b delim io = Some (b', string_of_list_byte s, Some EOF)
        /\ readingFinished b' = true
        /\ Len b' = 0).
Proof.
  intros Ht Hb0 Hws Hio b s Hfuel.
  destruct (writeAll_holds t ws Ht Hws [] b0 Hb0) as (bw & HW & Hh & _).
  cbn [app] in Hh. fold s in Hh.
  assert (bw = b) as -> by (subst b; rewrite HW; reflexivity).
  destruct (holds_stream t s b Ht Hh) as (Hb & Hrem & _).
  pose proof (holds_size _ _ _ Hh) as Hsize.
  pose proof (holds_offset _ _ _ Hh) as Hzero.
  split.
  - intros pre post Hs Hnot.
    destruct (ReadBytes_found delim io pre Hio Hnot fuel b post [] Hb)
      as (b' & HR & _ & Hrem' & Hsz & Hoff).
    { rewrite Hrem. exact Hs. }
    { rewrite Hs, length_app in Hfuel. lia. }
    exists b'. unfold ReadString. rewrite HR. cbn [app].
    repeat split; try assumption.
    unfold Len. rewrite Hsz, Hoff, Hsize, Hzero, Hs, len_app.
    unfold len. cbn [List.length]. lia.
  - intros Hnot.
    destruct (ReadBytes_not_found delim io Hio s fuel b [] Hnot Hb Hrem Hfuel)
      as (b' & HR & Hfin & Hsz & Hoff).
    exists b'. unfold ReadString. rewrite HR. cbn [app].
    repeat split; try assumption. unfold Len. lia.
Qed.

Lemma ReadBytes_stops_at_the_delimiter_witness :
  let b := fst (writeAll (fresh 4 false) [(bytes "one,", io_ok); (bytes "two", io_ok)]) in
  (exists b', ReadString 8 b "," io_ok = Some (b', "one,"%string, None)
              /\ remaining b' = bytes "two")
  /\ (exists b', ReadString 8 b ";" io_ok = Some (b', "one,two"%string, Some EOF)
                 /\ Len b' = 0).
Proof.
  intros b.
  destruct (ReadBytes_stops_at_the_delimiter 4 (fresh 4 false)
              [(bytes "one,", io_ok); (bytes "two", io_ok)] "," io_ok 8) as [H1 _].
  { lia. }
  { apply fresh_holds. lia. }
  { repeat constructor; discriminate. }
  { apply reliable_io_ok. }
  { vm_compute. lia. }
  destruct (ReadBytes_stops_at_the_delimiter 4 (fresh 4 false)
              [(bytes "one,", io_ok); (bytes "two", io_ok)] ";" io_ok 8) as [_ H2].
  { lia. }
  { apply fresh_holds. lia. }
  { repeat constructor; discriminate. }
  { apply reliable_io_ok. }
  { vm_compute. lia. }
  split.
  - destruct (H1 (bytes "one") (bytes "two")) as (b' & _ & HS & Hrem & _).
    + reflexivity.
    + vm_compute. intuition discriminate.
    + exists b'. split; [exact HS|exact Hrem].
  - destruct H2 as (b' & _ & HS & _ & HL).
    + vm_compute. intuition discriminate.
    + exists b'. split; [exact HS|exact HL].
Defined.

Lemma string_of_line (s : string) (d : byte) :
  string_of_list_byte (list_byte_of_string s ++ [d])
  = (s ++ String (Ascii.ascii_of_byte d) EmptyString)%string.
Proof.
  unfold string_of_list_byte, list_byte_of_string.
  induction s as [|a s IH]; [reflexivity|].
  cbn. rewrite Ascii.ascii_of_byte_of_ascii. f_equal. exact IH.
Qed.

(** X15. A line written with [WriteString] and closed with [WriteByte] is
    what [ReadString] returns, whatever the threshold: on an unused buffer
    in a reliable environment, after [WriteString line], [WriteByte delim]
    and [WriteString rest], with no [delim] inside [line], [ReadString
    delim] returns [line] followed by [delim] without error, and [rest]
    stays to be read. *)
Theorem written_line_is_read_back (t : Z) (b0 : Buffer) (line rest : string)
  (delim : byte) (io1 io2 io3 io : IO) (fuel : nat) :
  0 <= t -> unused t b0 ->
  reliable io1 -> reliable io2 -> reliable io3 -> reliable io ->
  ~ In delim (list_byte_of_string line) ->
  (String.length line + String.length rest + 1 < fuel)%nat ->
  exists b1 b2 b3 b4,
    WriteString b0 line io1 = (b1, Ret (Z.of_nat (String.length line), None))
    /\ WriteByte b1 delim io2 = (b2, Ret None)
    /\ WriteString b2 rest io3 = (b3, Ret (Z.of_nat (String.length rest), None))
    /\ ReadString fuel b3 delim io
       = Some (b4, (line ++ String (Ascii.ascii_of_byte delim) EmptyString)%string, None)
    /\ remaining b4 = list_byte_of_string rest.
Proof.
  intros Ht Hb0 H1 H2 H3 Hio Hnot Hfuel.
  assert (Hlen : forall s, List.length (list_byte_of_string s) = String.length s).
  { intros s. unfold list_byte_of_string. rewrite length_map.
    induction s as [|a s IH]; [reflexivity|cbn; now rewrite IH]. }
  destruct (Write_holds t [] (list_byte_of_string line) b0 io1 Ht Hb0 H1)
    as (b1 & HW1 & Hb1 & _).
  destruct (Write_holds t _ [delim] b1 io2 Ht Hb1 H2) as (b2 & HW2 & Hb2 & _).
  destruct (Write_holds t _ (list_byte_of_string rest) b2 io3 Ht Hb2 H3)
    as (b3 & HW3 & Hb3 & _).
  cbn [app] in Hb3. rewrite <- app_assoc in Hb3. cbn [app] in Hb3.
  destruct (holds_stream t _ b3 Ht Hb3) as (Hr3 & Hrem3 & _).
  destruct (ReadBytes_found delim io (list_byte_of_string line) Hio Hnot fuel b3
              (list_byte_of_string rest) [] Hr3 Hrem3)
    as (b4 & HR & _ & Hrem4 & _); [rewrite Hlen; lia|].
  exists b1, b2, b3, b4. unfold WriteString, WriteByte, ReadString.
  rewrite HW1, HW2, HW3, HR. unfold len. rewrite !Hlen. cbn [app].
  rewrite string_of_line. repeat split. exact Hrem4.
Qed.

Lemma written_line_is_read_back_witness :
  exists b1 b2 b3 b4,
    WriteString (fresh 3 true) "key=value" io_ok = (b1, Ret (9, None))
    /\ WriteByte b1 x0a io_ok = (b2, Ret None)
    /\ WriteString b2 "next" io_ok = (b3, Ret (4, None))
    /\ ReadString 20 b3 x0a io_ok
       = Some (b4, String.append "key=value" (String (Ascii.ascii_of_byte x0a) EmptyString), None)
    /\ remaining b4 = bytes "next".
Proof.
  apply (written_line_is_read_back 3 (fresh 3 true) "key=value" "next" x0a
           io_ok io_ok io_ok io_ok 20);
    try apply reliable_io_ok.
  - lia.
  - apply fresh_holds. lia.
  - vm_compute. intuition discriminate.
  - vm_compute. lia.
Defined.

(** ** Construction *)

(** X16. [NewBuffer] (and [NewBufferString]) with at most
    [DefaultMaxMemorySize] bytes (2 MiB) never panics and never asks the
    file system for anything: whatever the environment, it returns a buffer
    that holds the bytes in memory, with no temporary file, and a reliable
    [Read] of [want] bytes returns the first [want] of them. *)
Theorem NewBuffer_small_content_stays_in_memory (buf : list byte) (io : IO) :
  len buf <= DefaultMaxMemorySize ->
  exists b,
    NewBuffer buf io = Ret b
    /\ (forall s, list_byte_of_string s = buf -> NewBufferString s io = Ret b)
    /\ holds DefaultMaxMemorySize buf b
    /\ buff b = buf /\ useFile b = false /\ filename b = EmptyString
    /\ Len b = len buf
    /\ forall (want : nat) (io' : IO),
         reliable io' -> (0 < want)%nat ->
         snd (fst (Read b want io')) = firstn want buf.
Proof.
  intros Hfit.
  assert (Ht : 0 <= DefaultMaxMemorySize) by (vm_compute; discriminate).
  destruct (NewBufferWithMaxMemorySize_unused DefaultMaxMemorySize Ht) as [HN Hu];
    [vm_compute; discriminate|].
  assert (Hnew : exists b, NewBuffer buf io = Ret b /\ holds DefaultMaxMemorySize buf b).
  { unfold NewBuffer. rewrite HN. destruct buf as [|c buf].
    - eexists. split; [reflexivity|exact Hu].
    - destruct (Write_fits DefaultMaxMemorySize [] (c :: buf) _ io Hu)
        as (b & HW & Hb); [exact Hfit|].
      rewrite HW. exists b. split; [reflexivity|exact Hb]. }
  destruct Hnew as (b & HB & Hb). exists b.
  split; [exact HB|].
  split; [intros s <-; exact HB|].
  split; [exact Hb|].
  pose proof Hb as [Hmax Hw Hr Hsz Ho Hbuff Hrf Huse Hfile].
  assert (Hu' : useFile b = false) by (rewrite Huse; apply Z.ltb_ge; exact Hfit).
  rewrite Hu' in Hfile. destruct Hfile as (_ & Hname & _).
  split; [rewrite Hbuff; apply firstn_all2; unfold len in Hfit; lia|].
  split; [exact Hu'|]. split; [exact Hname|].
  split; [unfold Len; lia|].
  intros want io' Hio' Hwant.
  destruct (holds_stream _ _ b Ht Hb) as (Hread & Hrem & _).
  destruct (Read_readable b want io' Hread Hio' Hwant) as (b' & err & HR & _).
  rewrite HR, Hrem. reflexivity.
Qed.

Lemma NewBuffer_small_content_stays_in_memory_witness :
  exists b,
    NewBufferString "abc" (mkIO None false (Some 0%nat) false false) = Ret b
    /\ buff b = bytes "abc" /\ useFile b = false
    /\ snd (fst (Read b 2 io_ok)) = bytes "ab".
Proof.
  destruct (NewBuffer_small_content_stays_in_memory (bytes "abc")
              (mkIO None false (Some 0%nat) false false))
    as (b & _ & HS & _ & Hbuff & Huse & _ & _ & HR).
  - vm_compute. discriminate.
  - exists b. split; [apply HS; reflexivity|]. split; [exact Hbuff|].
    split; [exact Huse|]. apply HR; [apply reliable_io_ok|lia].
Defined.

(** X17. A negative threshold never gives a usable buffer:
    [NewBufferWithMaxMemorySize] panics for every threshold below -1 (in
    [Grow], since Go's division truncates -1 / 2 to 0), and the buffer it
    returns for -1 panics in every [Write], also of no bytes, whatever the
    environment, and is left as it was. *)
Theorem negative_threshold_is_unusable (t : Z) :
  t < 0 ->
  (t < -1 -> NewBufferWithMaxMemorySize t = Panic)
  /\ (t = -1 ->
      exists b, NewBufferWithMaxMemorySize t = Ret b
                /\ forall (data : list byte) (io : IO), Write b data io = (b, Panic)).
Proof.
  intros Ht. split.
  - intros Hlt. unfold NewBufferWithMaxMemorySize.
    replace (Z.quot t 2 <? 0) with true; [reflexivity|].
    symmetry. apply Z.ltb_lt.
    assert (H : Z.quot (- t) 2 > 0).
    { apply Z.lt_gt. apply Z.quot_str_pos. lia. }
    rewrite Z.quot_opp_l in H by lia. lia.
  - intros ->. eexists. split; [reflexivity|].
    intros data io. unfold Write. cbn.
    pose proof (len_nonneg data) as Hd.
    replace (len data <=? -1) with false by (symmetry; apply Z.leb_gt; lia).
    reflexivity.
Qed.

Lemma negative_threshold_is_unusable_witness :
  NewBufferWithMaxMemorySize (-2) = Panic
  /\ exists b, NewBufferWithMaxMemorySize (-1) = Ret b
               /\ Write b [] io_ok = (b, Panic).
Proof.
  split.
  - apply (negative_threshold_is_unusable (-2)); lia.
  - destruct (negative_threshold_is_unusable (-1)) as [_ H]; [lia|].
    destruct (H eq_refl) as (b & HN & HW).
    exists b. split; [exact HN|apply HW].
Defined.

(** ** Copying from a reader and to a writer *)

Lemma ReadFrom_loop_delivers (t : Z) (answers : list Answer) :
  0 <= t -> Forall delivers answers ->
  forall (s0 : list byte) (b : Buffer) (n : Z) (rest : list Answer),
    holds t s0 b ->
    exists b',
      holds t (s0 ++ List.concat (map chunk answers)) b'
      /\ encrypt b' = encrypt b
      /\ ReadFrom_loop b (answers ++ rest) n
         = ReadFrom_loop b' rest (n + len (List.concat (map chunk answers))).
Proof.
  intros Ht Hall. induction Hall as [|a answers (He & Hl & Hio) _ IH];
    intros s0 b n rest Hb.
  - exists b. cbn. rewrite app_nil_r, Z.add_0_r. auto.
  - destruct (Write_holds t s0 (chunk a) b (wEnv a) Ht Hb Hio) as (b1 & HW & Hb1 & He1).
    destruct (IH _ _ (n + len (chunk a)) rest Hb1) as (b' & Hb' & He' & HL).
    exists b'. cbn [map List.concat app ReadFrom_loop].
    rewrite He, HW.
    replace (512 <? Datatypes.length (chunk a))%nat with false
      by (symmetry; apply Nat.ltb_ge; exact Hl).
    rewrite HL, len_app, app_assoc, Z.add_assoc.
    split; [exact Hb'|]. split; [congruence|reflexivity].
Qed.

(** X18. [ReadFrom] stores everything the reader delivers, up to and
    including the bytes that come together with [io.EOF], and reports their
    number and no error: after it the buffer holds what it held before
    followed by all the chunks, split between memory and file at the
    threshold.  Answers of the reader after [io.EOF] are not asked for.
    For a buffer that was not read yet, a reader that keeps to the length
    of the slice (512) and a reliable environment. *)
Theorem ReadFrom_stores_what_the_reader_delivers (t : Z) (s0 : list byte)
  (b : Buffer) (answers : list Answer) (last : Answer) (more : list Answer) :
  0 <= t -> holds t s0 b ->
  Forall delivers answers ->
  rErr last = Some ReaderEOF -> (List.length (chunk last) <= 512)%nat ->
  reliable (wEnv last) ->
  let s := List.concat (map chunk answers) ++ chunk last in
  exists b',
    ReadFrom b (answers ++ last :: more) = Some (b', Ret (len s, None))
    /\ holds t (s0 ++ s) b'
    /\ Len b' = Len b + len s.
Proof.
  intros Ht Hb Hall He Hl Hio s.
  destruct (ReadFrom_loop_delivers t answers Ht Hall s0 b 0 (last :: more) Hb)
    as (b1 & Hb1 & _ & HL).
  destruct (Write_holds t _ (chunk last) b1 (wEnv last) Ht Hb1 Hio) as (b' & HW & Hb' & _).
  exists b'. unfold ReadFrom. rewrite HL. cbn [ReadFrom_loop].
  rewrite He, HW.
  replace (512 <? Datatypes.length (chunk last))%nat with false
    by (symmetry; apply Nat.ltb_ge; exact Hl).
  subst s. rewrite len_app, Z.add_0_l, app_assoc.
  split; [reflexivity|]. split; [exact Hb'|].
  unfold Len. rewrite (holds_size _ _ _ Hb'), (holds_offset _ _ _ Hb'),
    (holds_size _ _ _ Hb), (holds_offset _ _ _ Hb), !len_app. lia.
Qed.

Lemma ReadFrom_stores_what_the_reader_delivers_witness :
  exists b',
    ReadFrom (fresh 4 false)
      [mkAnswer (bytes "abc") None io_ok; mkAnswer [] None io_ok;
       mkAnswer (bytes "defg") (Some ReaderEOF) io_ok;
       mkAnswer (bytes "never") None io_ok]
    = Some (b', Ret (7, None))
    /\ holds 4 (bytes "abcdefg") b'.
Proof.
  destruct (ReadFrom_stores_what_the_reader_delivers 4 [] (fresh 4 false)
              [mkAnswer (bytes "abc") None io_ok; mkAnswer [] None io_ok]
              (mkAnswer (bytes "defg") (Some ReaderEOF) io_ok)
              [mkAnswer (bytes "never") None io_ok])
    as (b' & HR & Hb' & _).
  - lia.
  - apply fresh_holds. lia.
  - repeat constructor; cbn; try lia; discriminate.
  - reflexivity.
  - cbn. lia.
  - apply reliable_io_ok.
  - exists b'. split; [exact HR|exact Hb'].
Defined.

(** X19. When the reader fails, [ReadFrom] stops there: it reports the
    number of bytes stored by the turns before, with the error "can't read
    data from passed io.Reader", the buffer holds the chunks of those turns
    and can still be written, and the bytes the reader delivered together
    with its error are dropped. *)
Theorem ReadFrom_stops_at_a_reader_failure (t : Z) (s0 : list byte)
  (b : Buffer) (answers : list Answer) (bad : Answer) (more : list Answer) :
  0 <= t -> holds t s0 b ->
  Forall delivers answers -> rErr bad = Some ReaderFailure ->
  let s := List.concat (map chunk answers) in
  exists b',
    ReadFrom b (answers ++ bad :: more) = Some (b', Ret (len s, Some CantReadReader))
    /\ holds t (s0 ++ s) b'.
Proof.
  intros Ht Hb Hall He s.
  destruct (ReadFrom_loop_delivers t answers Ht Hall s0 b 0 (bad :: more) Hb)
    as (b1 & Hb1 & _ & HL).
  exists b1. unfold ReadFrom. rewrite HL. cbn [ReadFrom_loop].
  rewrite He. split; [reflexivity|exact Hb1].
Qed.

Lemma ReadFrom_stops_at_a_reader_failure_witness :
  exists b',
    ReadFrom (fresh 4 false)
      [mkAnswer (bytes "abcdef") None io_ok;
       mkAnswer (bytes "lost") (Some ReaderFailure) io_ok]
    = Some (b', Ret (6, Some CantReadReader))
    /\ holds 4 (bytes "abcdef") b'.
Proof.
  apply (ReadFrom_stops_at_a_reader_failure 4 [] (fresh 4 false)
           [mkAnswer (bytes "abcdef") None io_ok]
           (mkAnswer (bytes "lost") (Some ReaderFailure) io_ok) []).
  - lia.
  - apply fresh_holds. lia.
  - repeat constructor; cbn; try lia; discriminate.
  - reflexivity.
Defined.

(** X20. [ReadFrom] on a buffer that was read from stores nothing: once a
    [Read] has been made, [ReadFrom] takes one chunk from the reader,
    reports 0 bytes and the error "can't write data" around
    [ErrBufferFinished], and leaves the buffer as it was; this also when
    the reader has nothing but [io.EOF] to deliver. *)
Theorem ReadFrom_is_rejected_after_reading (b0 : Buffer) (want : nat) (io : IO)
  (a : Answer) (more : list Answer) :
  readingFinished b0 = false ->
  rErr a <> Some ReaderFailure -> (List.length (chunk a) <= 512)%nat ->
  let b := fst (fst (Read b0 want io)) in
  ReadFrom b (a :: more) = Some (b, Ret (0, Some (CantWriteData ErrBufferFinished))).
Proof.
  intros Hr He Hl b.
  pose proof (Read_finishes_writing b0 want io Hr) as Hw. fold b in Hw.
  unfold ReadFrom. cbn [ReadFrom_loop].
  rewrite (Write_finished b (chunk a) (wEnv a) Hw).
  replace (512 <? Datatypes.length (chunk a))%nat with false
    by (symmetry; apply Nat.ltb_ge; exact Hl).
  destruct (rErr a) as [[|]|]; [reflexivity|congruence|reflexivity].
Qed.

Lemma ReadFrom_is_rejected_after_reading_witness :
  let b := fst (fst (Read (fresh 4 false) 1 io_ok)) in
  ReadFrom b [mkAnswer [] (Some ReaderEOF) io_ok]
  = Some (b, Ret (0, Some (CantWriteData ErrBufferFinished))).
Proof.
  apply (ReadFrom_is_rejected_after_reading (fresh 4 false) 1 io_ok
           (mkAnswer [] (Some ReaderEOF) io_ok) []).
  - reflexivity.
  - discriminate.
  - cbn. lia.
Defined.

Lemma firstn_plus (a c : nat) :
  forall l : list byte, firstn (a + c) l = firstn a l ++ firstn c (skipn a l).
Proof.
  induction a as [|a IH]; intros l; [reflexivity|].
  destruct l as [|x l]; [cbn; now rewrite firstn_nil|].
  cbn. now rewrite IH.
Qed.

Section WriteToAnObligingWriter.

Variable env : nat -> IO.
Variable sink : nat -> option nat.
Hypothesis env_reliable : forall i, reliable (env i).
Hypothesis sink_accepts : forall i, sink i = None.

Lemma WriteTo_loop_drains (fuel : nat) :
  forall (b : Buffer) (i : nat) (n : Z),
    readable b -> (List.length (remaining b) + 2 <= fuel)%nat ->
    exists b',
      WriteTo_loop fuel b env sink i n
      = Some (b', remaining b, n + len (remaining b), None)
      /\ size b' = size b
      /\ offset b' = offset b + len (remaining b)
      /\ readingFinished b' = true.
Proof.
  induction fuel as [|fuel IH]; intros b i n Hb Hfuel; [lia|].
  destruct (Read_readable b 512 (env i) Hb (env_reliable i))
    as (b1 & err & HR & Hsz & Hoff & _ & Hfull & Hshort); [lia|].
  cbn [WriteTo_loop]. rewrite HR, sink_accepts.
  destruct (Nat.le_gt_cases 512 (List.length (remaining b))) as [Hle|Hgt].
  - destruct (Hfull Hle) as (-> & Hb1 & Hrem1).
    destruct (IH b1 (S i) (n + len (firstn 512 (remaining b))) Hb1)
      as (b' & HU & Hsz' & Hoff' & Hfin').
    { rewrite Hrem1, length_skipn. lia. }
    cbn [isEOF]. rewrite HU. exists b'. rewrite Hrem1, firstn_skipn.
    assert (Hsplit : len (firstn 512 (remaining b)) + len (skipn 512 (remaining b))
                     = len (remaining b))
      by (rewrite <- len_app, firstn_skipn; reflexivity).
    split; [rewrite <- Z.add_assoc, Hsplit; reflexivity|].
    split; [congruence|]. split; [|exact Hfin'].
    rewrite Hoff', Hoff, Hrem1. lia.
  - destruct (Hshort Hgt) as (Hfin & Herr).
    rewrite firstn_all2 in * by lia.
    destruct Herr as [-> | ->]; cbn [isEOF].
    + destruct fuel as [|fuel]; [lia|].
      cbn [WriteTo_loop]. rewrite (Read_finished b1 _ _ Hfin), sink_accepts.
      cbn [isEOF]. exists b1. rewrite app_nil_r.
      split; [change (len []) with 0; rewrite Z.add_0_r; reflexivity|auto].
    + exists b1. auto.
Qed.

End WriteToAnObligingWriter.

(** X21. [WriteTo] hands everything that was written to the writer: on a
    buffer that was only written, in a reliable environment and with a
    writer that accepts what it is given, [WriteTo] delivers the content,
    in order, and reports its length and no error (the end of the data is
    no error for it); afterwards reading is finished, [Len] is 0 and every
    [Read] answers [io.EOF].  One turn of the loop for every byte and two
    more are enough. *)
Theorem WriteTo_delivers_what_was_written (t : Z) (b0 : Buffer)
  (ws : list (list byte * IO)) (env : nat -> IO) (sink : nat -> option nat)
  (fuel : nat) :
  0 <= t -> unused t b0 -> Forall (fun w => reliable (snd w)) ws ->
  (forall i, reliable (env i)) -> (forall i, sink i = None) ->
  let b := fst (writeAll b0 ws) in
  let s := List.concat (map fst ws) in
  (List.length s + 2 <= fuel)%nat ->
  exists b',
    WriteTo fuel b env sink = Some (b', s, len s, None)
    /\ readingFinished b' = true
    /\ Len b' = 0
    /\ forall (want : nat) (io : IO), Read b' want io = (b', [], Some EOF).
Proof.
  intros Ht Hb0 Hws Henv Hsink b s Hfuel.
  destruct (writeAll_holds t ws Ht Hws [] b0 Hb0) as (bw & HW & Hh & _).
  cbn [app] in Hh. fold s in Hh.
  assert (bw = b) as -> by (subst b; rewrite HW; reflexivity).
  destruct (holds_stream t s b Ht Hh) as (Hb & Hrem & _).
  pose proof (holds_size _ _ _ Hh) as Hsize.
  pose proof (holds_offset _ _ _ Hh) as Hzero.
  destruct (WriteTo_loop_drains env sink Henv Hsink fuel b 0 0 Hb)
    as (b' & HW' & Hsz & Hoff & Hfin); [rewrite Hrem; exact Hfuel|].
  rewrite Hrem in HW', Hoff.
  exists b'. unfold WriteTo. rewrite HW'.
  split; [reflexivity|]. split; [exact Hfin|].
  split; [unfold Len; lia|].
  intros want io. apply Read_finished. exact Hfin.
Qed.

Lemma WriteTo_delivers_what_was_written_witness :
  let b := fst (writeAll (fresh 4 true) [(bytes "Hello, ", io_ok); (bytes "world!", io_ok)]) in
  exists b',
    WriteTo 15 b (fun _ => io_ok) (fun _ => None)
    = Some (b', bytes "Hello, world!", 13, None)
    /\ Len b' = 0.
Proof.
  intros b.
  destruct (WriteTo_delivers_what_was_written 4 (fresh 4 true)
              [(bytes "Hello, ", io_ok); (bytes "world!", io_ok)]
              (fun _ => io_ok) (fun _ => None) 15)
    as (b' & HW & _ & HL & _).
  - lia.
  - apply fresh_holds. lia.
  - repeat constructor; discriminate.
  - intros _. apply reliable_io_ok.
  - reflexivity.
  - vm_compute. lia.
  - exists b'. split; [exact HW|exact HL].
Defined.

Lemma WriteTo_loop_fails (env : nat -> IO) (k : nat) :
  (forall i, reliable (env i)) ->
  forall (j : nat) (sink : nat -> option nat) (fuel : nat) (b : Buffer) (i : nat) (n : Z),
    readable b ->
    (forall i', (i <= i' < i + j)%nat -> sink i' = None) ->
    sink (i + j)%nat = Some k ->
    (512 * (j + 1) <= List.length (remaining b))%nat -> (j < fuel)%nat ->
    exists b',
      WriteTo_loop fuel b env sink i n
      = Some (b', firstn (512 * j + Nat.min k 512) (remaining b),
              n + Z.of_nat (512 * j + Nat.min k 512), Some CantWriteWriter)
      /\ readable b'
      /\ remaining b' = skipn (512 * (j + 1)) (remaining b)
      /\ size b' = size b
      /\ offset b' = offset b + Z.of_nat (512 * (j + 1)).
Proof.
  intros Henv. induction j as [|j IH]; intros sink fuel b i n Hb Hacc Hfail Hlen Hfuel.
  - destruct fuel as [|fuel]; [lia|].
    destruct (Read_readable b 512 (env i) Hb (Henv i))
      as (b1 & err & HR & Hsz & Hoff & _ & Hfull & _); [lia|].
    destruct Hfull as (-> & Hb1 & Hrem1); [lia|].
    cbn [WriteTo_loop]. rewrite HR. cbn [isEOF].
    rewrite Nat.add_0_r in Hfail. rewrite Hfail.
    exists b1. rewrite firstn_firstn.
    change (512 * 0 + Nat.min k 512)%nat with (Nat.min k 512).
    change (512 * (0 + 1))%nat with 512%nat.
    split; [|split; [exact Hb1|split; [exact Hrem1|split; [exact Hsz|]]]].
    + f_equal. f_equal. f_equal. unfold len.
      rewrite length_firstn. lia.
    + rewrite Hoff. unfold len. rewrite length_firstn. lia.
  - destruct fuel as [|fuel]; [lia|].
    destruct (Read_readable b 512 (env i) Hb (Henv i))
      as (b1 & err & HR & Hsz & Hoff & _ & Hfull & _); [lia|].
    destruct Hfull as (-> & Hb1 & Hrem1); [lia|].
    cbn [WriteTo_loop]. rewrite HR. cbn [isEOF].
    rewrite (Hacc i) by lia.
    destruct (IH sink fuel b1 (S i) (n + len (firstn 512 (remaining b))) Hb1)
      as (b' & HW & Hb' & Hrem' & Hsz' & Hoff').
    { intros i' Hi'. apply Hacc. lia. }
    { rewrite <- Hfail. f_equal. lia. }
    { rewrite Hrem1, length_skipn. lia. }
    { lia. }
    rewrite HW. exists b'.
    assert (Hl : len (firstn 512 (remaining b)) = 512)
      by (unfold len; rewrite length_firstn; lia).
    split; [|split; [exact Hb'|split; [|split; [congruence|]]]].
    + rewrite Hrem1, Hl.
      replace (512 * S j + Nat.min k 512)%nat
        with (512 + (512 * j + Nat.min k 512))%nat by lia.
      rewrite (firstn_plus 512 (512 * j + Nat.min k 512)).
      replace (n + 512 + Z.of_nat (512 * j + Nat.min k 512))
        with (n + Z.of_nat (512 + (512 * j + Nat.min k 512))) by lia.
      reflexivity.
    + rewrite Hrem', Hrem1, skipn_skipn. f_equal. lia.
    + rewrite Hoff', Hoff, Hl. lia.
Qed.

(** X22. When the writer fails, the chunk [WriteTo] had just read is lost
    to the buffer: on a buffer that was only written, in a reliable
    environment, if the writer accepts the first [j] chunks of 512 bytes
    and stores only [k] bytes of the next one, [WriteTo] reports
    [512 * j + k] bytes with the error "can't write data into io.Writer",
    but the buffer has moved on by [512 * (j + 1)] bytes: the bytes the
    writer refused are not read again. *)
Theorem WriteTo_loses_the_chunk_the_writer_refused (t : Z) (b0 : Buffer)
  (ws : list (list byte * IO)) (env : nat -> IO) (sink : nat -> option nat)
  (j k fuel : nat) :
  0 <= t -> unused t b0 -> Forall (fun w => reliable (snd w)) ws ->
  (forall i, reliable (env i)) ->
  (forall i, (i < j)%nat -> sink i = None) -> sink j = Some k -> (k <= 512)%nat ->
  let b := fst (writeAll b0 ws) in
  let s := List.concat (map fst ws) in
  (512 * (j + 1) <= List.length s)%nat -> (j < fuel)%nat ->
  exists b',
    WriteTo fuel b env sink
    = Some (b', firstn (512 * j + k) s, Z.of_nat (512 * j + k), Some CantWriteWriter)
    /\ remaining b' = skipn (512 * (j + 1)) s
    /\ Len b' = len s - Z.of_nat (512 * (j + 1)).
Proof.
  intros Ht Hb0 Hws Henv Hacc Hfail Hk b s Hlen Hfuel.
  destruct (writeAll_holds t ws Ht Hws [] b0 Hb0) as (bw & HW & Hh & _).
  cbn [app] in Hh. fold s in Hh.
  assert (bw = b) as -> by (subst b; rewrite HW; reflexivity).
  destruct (holds_stream t s b Ht Hh) as (Hb & Hrem & _).
  pose proof (holds_size _ _ _ Hh) as Hsize.
  pose proof (holds_offset _ _ _ Hh) as Hzero.
  destruct (WriteTo_loop_fails env k Henv j sink fuel b 0 0 Hb)
    as (b' & HW' & _ & Hrem' & Hsz & Hoff); try assumption.
  - intros i' Hi'. apply Hacc. lia.
  - rewrite Hrem. exact Hlen.
  - rewrite Hrem in HW', Hrem'.
    exists b'. unfold WriteTo. rewrite HW'.
    replace (Nat.min k 512) with k by lia.
    split; [reflexivity|]. split; [exact Hrem'|].
    unfold Len. lia.
Qed.

Lemma WriteTo_loses_the_chunk_the_writer_refused_witness :
  let b := fst (writeAll (fresh 100 false) [(repeat x41 600, io_ok)]) in
  exists b',
    WriteTo 1 b (fun _ => io_ok) (fun _ => Some 10%nat)
    = Some (b', repeat x41 10, 10, Some CantWriteWriter)
    /\ remaining b' = repeat x41 88.
Proof.
  intros b.
  destruct (WriteTo_loses_the_chunk_the_writer_refused 100 (fresh 100 false)
              [(repeat x41 600, io_ok)] (fun _ => io_ok) (fun _ => Some 10%nat) 0 10 1)
    as (b' & HW & Hrem' & _).
  - lia.
  - apply fresh_holds. lia.
  - repeat constructor; discriminate.
  - intros _. apply reliable_io_ok.
  - intros i Hi. lia.
  - reflexivity.
  - lia.
  - cbn [map fst List.concat]. rewrite app_nil_r, repeat_length. lia.
  - lia.
  - exists b'. split; [exact HW|exact Hrem'].
Defined.

(** ** Runes *)

Lemma forall_range_spec (p : positive) :
  forall (f : Z -> bool) (lo : Z),
    forall_range p f lo = true ->
    forall z, lo <= z < lo + Zpos p -> f z = true.
Proof.
  induction p as [q IH|q IH|]; intros f lo H z Hz; cbn [forall_range] in H.
  - apply andb_prop in H. destruct H as [H H2].
    apply andb_prop in H. destruct H as [H0 H1].
    destruct (Z.eq_dec z lo) as [->|Hne]; [exact H0|].
    destruct (Z_lt_le_dec z (lo + 1 + Zpos q)).
    + apply (IH f (lo + 1) H1). lia.
    + apply (IH f (lo + 1 + Zpos q) H2). lia.
  - apply andb_prop in H. destruct H as [H1 H2].
    destruct (Z_lt_le_dec z (lo + Zpos q)).
    + apply (IH f lo H1). lia.
    + apply (IH f (lo + Zpos q) H2). lia.
  - assert (z = lo) as -> by lia. exact H.
Qed.

(** Runes of at most three bytes, one by one. *)
Lemma decodes_back_below_65536 (r : Z) :
  0 <= r < 65536 -> utf8.ValidRune r = true -> decodes_back r = true.
Proof.
  intros Hr Hv.
  assert (H : forall_range 65536 (fun r => negb (utf8.ValidRune r) || decodes_back r) 0
              = true) by (vm_compute; reflexivity).
  pose proof (forall_range_spec _ _ _ H r ltac:(lia)) as Hz.
  cbv beta in Hz. rewrite Hv in Hz. exact Hz.
Qed.

(** A byte of the form [tx | d] or [t4 | d]. *)
Lemma continuation_byte (d : Z) :
  0 <= d < 64 ->
  byteZ (toByte (Z.lor utf8.tx d)) = 128 + d /\ Z.land (128 + d) utf8.maskx = d.
Proof.
  intros Hd.
  assert (H : forall_range 64
                (fun d => (byteZ (toByte (Z.lor utf8.tx d)) =? 128 + d)
                          && (Z.land (128 + d) utf8.maskx =? d)) 0 = true)
    by (vm_compute; reflexivity).
  pose proof (forall_range_spec _ _ _ H d ltac:(lia)) as Hz.
  cbv beta in Hz. apply andb_prop in Hz. destruct Hz as [H1 H2].
  split; apply Z.eqb_eq; assumption.
Qed.

Lemma leading_byte_of_four (d : Z) :
  0 <= d < 8 ->
  byteZ (toByte (Z.lor utf8.t4 d)) = 240 + d /\ Z.land (240 + d) utf8.mask4 = d.
Proof.
  intros Hd.
  assert (H : forall_range 8
                (fun d => (byteZ (toByte (Z.lor utf8.t4 d)) =? 240 + d)
                          && (Z.land (240 + d) utf8.mask4 =? d)) 0 = true)
    by (vm_compute; reflexivity).
  pose proof (forall_range_spec _ _ _ H d ltac:(lia)) as Hz.
  cbv beta in Hz. apply andb_prop in Hz. destruct Hz as [H1 H2].
  split; apply Z.eqb_eq; assumption.
Qed.

Lemma lor_is_sum (a c n : Z) :
  0 <= n -> 0 <= c < 2 ^ n -> Z.lor (a * 2 ^ n) c = a * 2 ^ n + c.
Proof.
  intros Hn Hc.
  assert (Hland : Z.land (a * 2 ^ n) c = 0).
  { apply Z.bits_inj'. intros m Hm. rewrite Z.land_spec, Z.bits_0.
    destruct (Z.lt_ge_cases m n) as [Hlt|Hge].
    - rewrite Z.mul_pow2_bits_low by lia. reflexivity.
    - destruct (Z.eq_dec c 0) as [->|Hne]; [rewrite Z.bits_0; apply andb_false_r|].
      rewrite (Z.bits_above_log2 c m); [apply andb_false_r|lia|].
      apply Z.lt_le_trans with n; [|exact Hge].
      apply Z.log2_lt_pow2; lia. }
  rewrite <- Z.lxor_lor by exact Hland.
  symmetry. apply Z.add_nocarry_lxor. exact Hland.
Qed.

Ltac zbool :=
  repeat match goal with
  | |- context [?a >? ?b] => rewrite (Z.gtb_ltb a b)
  | |- context [?a >=? ?b] => rewrite (Z.geb_leb a b)
  | |- context [?a <? ?b] =>
      first [ replace (a <? b) with true by (symmetry; apply Z.ltb_lt; lia)
            | replace (a <? b) with false by (symmetry; apply Z.ltb_ge; lia) ]
  | |- context [?a <=? ?b] =>
      first [ replace (a <=? b) with true by (symmetry; apply Z.leb_le; lia)
            | replace (a <=? b) with false by (symmetry; apply Z.leb_gt; lia) ]
  | |- context [?a =? ?b] =>
      first [ replace (a =? b) with true by (symmetry; apply Z.eqb_eq; lia)
            | replace (a =? b) with false by (symmetry; apply Z.eqb_neq; lia) ]
  end.

Lemma first_of_four (d : Z) :
  0 <= d <= 4 ->
  utf8.first (240 + d)
  = if d =? 0 then utf8.s5 else if d =? 4 then utf8.s7 else utf8.s6.
Proof.
  intros Hd. unfold utf8.first.
  destruct (Z.eq_dec d 0) as [->|H0]; [reflexivity|].
  destruct (Z.eq_dec d 4) as [->|H4]; [reflexivity|].
  zbool. reflexivity.
Qed.

(** The four bytes of a rune beyond U+FFFF, given by its digits in base 64. *)
Lemma four_bytes_decode (B0 B1 B2 B3 : byte) (d3 d2 d1 d0 : Z) :
  byteZ B0 = 240 + d3 -> byteZ B1 = 128 + d2 ->
  byteZ B2 = 128 + d1 -> byteZ B3 = 128 + d0 ->
  0 <= d3 <= 4 -> 0 <= d2 < 64 -> 0 <= d1 < 64 -> 0 <= d0 < 64 ->
  (d3 = 0 -> 16 <= d2) -> (d3 = 4 -> d2 < 16) ->
  utf8.FullRune [B0] = false /\ utf8.FullRune [B0; B1] = false
  /\ utf8.FullRune [B0; B1; B2] = false /\ utf8.FullRune [B0; B1; B2; B3] = true
  /\ utf8.DecodeRune [B0; B1; B2; B3]
     = (d3 * 2 ^ 18 + d2 * 2 ^ 12 + d1 * 2 ^ 6 + d0, 4).
Proof.
  intros H0 H1 H2 H3 R3 R2 R1 R0 Hlow Hhigh.
  destruct (continuation_byte d2 R2) as [_ M2].
  destruct (continuation_byte d1 R1) as [_ M1].
  destruct (continuation_byte d0 R0) as [_ M0].
  destruct (leading_byte_of_four d3 ltac:(lia)) as [_ M3].
  assert (Hval :
    Z.lor (Z.lor (Z.lor (Z.shiftl d3 18) (Z.shiftl d2 12)) (Z.shiftl d1 6)) d0
    = d3 * 2 ^ 18 + d2 * 2 ^ 12 + d1 * 2 ^ 6 + d0).
  { assert (L18 : forall a c, 0 <= c < 262144 -> Z.lor (a * 262144) c = a * 262144 + c)
      by (intros a c Hc; apply (lor_is_sum a c 18); lia).
    assert (L12 : forall a c, 0 <= c < 4096 -> Z.lor (a * 4096) c = a * 4096 + c)
      by (intros a c Hc; apply (lor_is_sum a c 12); lia).
    assert (L6 : forall a c, 0 <= c < 64 -> Z.lor (a * 64) c = a * 64 + c)
      by (intros a c Hc; apply (lor_is_sum a c 6); lia).
    rewrite !Z.shiftl_mul_pow2 by lia.
    change (2 ^ 18) with 262144. change (2 ^ 12) with 4096. change (2 ^ 6) with 64.
    rewrite (L18 d3 (d2 * 4096)) by lia.
    replace (d3 * 262144 + d2 * 4096) with ((d3 * 64 + d2) * 4096) by lia.
    rewrite (L12 _ (d1 * 64)) by lia.
    replace ((d3 * 64 + d2) * 4096 + d1 * 64)
      with (((d3 * 64 + d2) * 64 + d1) * 64) by lia.
    rewrite (L6 _ d0) by lia. lia. }
  unfold utf8.FullRune, utf8.DecodeRune, utf8.at_, len.
  cbn [List.length nth Z.of_nat Pos.of_succ_nat Pos.succ].
  rewrite H0, H1, H2, H3, M3, M2, M1, M0, Hval, (first_of_four d3 R3).
  destruct (Z.eq_dec d3 0) as [E0|N0].
  - specialize (Hlow E0). subst d3. cbn -[Z.add Z.mul Z.pow].
    unfold utf8.hicb, utf8.locb. zbool. cbn -[Z.add Z.mul Z.pow]. repeat split.
  - replace (d3 =? 0) with false by (symmetry; apply Z.eqb_neq; exact N0).
    destruct (Z.eq_dec d3 4) as [E4|N4].
    + specialize (Hhigh E4). subst d3. cbn -[Z.add Z.mul Z.pow].
      unfold utf8.hicb, utf8.locb. zbool. cbn -[Z.add Z.mul Z.pow]. repeat split.
    + replace (d3 =? 4) with false by (symmetry; apply Z.eqb_neq; exact N4).
      cbn -[Z.add Z.mul Z.pow].
      unfold utf8.hicb, utf8.locb. zbool. cbn -[Z.add Z.mul Z.pow]. repeat split.
Qed.

(** Runes of four bytes, by their digits in base 64. *)
Lemma decodes_back_beyond_65535 (r : Z) :
  65536 <= r <= utf8.MaxRune -> decodes_back r = true.
Proof.
  unfold utf8.MaxRune. intros Hr.
  set (d3 := r / 262144). set (d2 := (r / 4096) mod 64).
  set (d1 := (r / 64) mod 64). set (d0 := r mod 64).
  assert (R3 : 0 <= d3 <= 4) by (subst d3; Z.div_mod_to_equations; lia).
  assert (R2 : 0 <= d2 < 64) by (subst d2; apply Z.mod_pos_bound; lia).
  assert (R1 : 0 <= d1 < 64) by (subst d1; apply Z.mod_pos_bound; lia).
  assert (R0 : 0 <= d0 < 64) by (subst d0; apply Z.mod_pos_bound; lia).
  assert (Hsum : r = d3 * 2 ^ 18 + d2 * 2 ^ 12 + d1 * 2 ^ 6 + d0).
  { change (2 ^ 18) with 262144. change (2 ^ 12) with 4096. change (2 ^ 6) with 64.
    subst d3 d2 d1 d0. Z.div_mod_to_equations. lia. }
  assert (Hlow : d3 = 0 -> 16 <= d2)
    by (subst d3 d2; intros; Z.div_mod_to_equations; lia).
  assert (Hhigh : d3 = 4 -> d2 < 16)
    by (subst d3 d2; intros; Z.div_mod_to_equations; lia).
  assert (E3 : Z.land (Z.shiftr r 18) 255 = d3).
  { change 255 with (Z.ones 8). rewrite Z.land_ones, Z.shiftr_div_pow2 by lia.
    change (2 ^ 18) with 262144. fold d3. apply Z.mod_small.
    change (2 ^ 8) with 256. lia. }
  assert (Elow : forall k, 0 <= k ->
            Z.land (Z.land (Z.shiftr r k) 255) utf8.maskx = (r / 2 ^ k) mod 64).
  { intros k Hk. rewrite <- Z.land_assoc.
    change (Z.land 255 utf8.maskx) with (Z.ones 6).
    rewrite Z.land_ones, Z.shiftr_div_pow2 by lia. reflexivity. }
  assert (E2 : Z.land (Z.land (Z.shiftr r 12) 255) utf8.maskx = d2)
    by (apply (Elow 12); lia).
  assert (E1 : Z.land (Z.land (Z.shiftr r 6) 255) utf8.maskx = d1)
    by (apply (Elow 6); lia).
  assert (E0 : Z.land (Z.land r 255) utf8.maskx = d0).
  { rewrite <- Z.land_assoc. change (Z.land 255 utf8.maskx) with (Z.ones 6).
    rewrite Z.land_ones by lia. reflexivity. }
  assert (Henc : utf8.AppendRune r
                 = [toByte (Z.lor utf8.t4 d3); toByte (Z.lor utf8.tx d2);
                    toByte (Z.lor utf8.tx d1); toByte (Z.lor utf8.tx d0)]).
  { unfold utf8.AppendRune, utf8.uint32.
    rewrite Z.mod_small by (change (2 ^ 32) with 4294967296; lia).
    unfold utf8.rune1Max, utf8.rune2Max, utf8.rune3Max, utf8.MaxRune,
      utf8.surrogateMin, utf8.surrogateMax.
    zbool. cbn [orb andb]. rewrite E3, E2, E1, E0. reflexivity. }
  destruct (four_bytes_decode _ _ _ _ d3 d2 d1 d0
              (proj1 (leading_byte_of_four d3 ltac:(lia)))
              (proj1 (continuation_byte d2 R2))
              (proj1 (continuation_byte d1 R1))
              (proj1 (continuation_byte d0 R0)) R3 R2 R1 R0 Hlow Hhigh)
    as (F1 & F2 & F3 & F4 & HD).
  unfold decodes_back. rewrite Henc.
  change (seq 1 _) with [1; 2; 3]%nat. cbn [forallb firstn].
  rewrite F1, F2, F3, F4, HD, <- Hsum. cbn [fst snd negb andb].
  rewrite Z.eqb_refl. reflexivity.
Qed.

Lemma AppendRune_decodes_back (r : Z) :
  utf8.ValidRune r = true ->
  let p := utf8.AppendRune r in
  (0 < List.length p <= 4)%nat
  /\ (forall k, (0 < k < List.length p)%nat -> utf8.FullRune (firstn k p) = false)
  /\ utf8.FullRune p = true
  /\ utf8.DecodeRune p = (r, len p).
Proof.
  intros Hv p.
  assert (Hr : 0 <= r <= utf8.MaxRune).
  { unfold utf8.ValidRune, utf8.surrogateMin, utf8.surrogateMax, utf8.MaxRune in *.
    apply orb_prop in Hv. destruct Hv as [H|H]; apply andb_prop in H; destruct H as [H1 H2].
    - apply Z.leb_le in H1. apply Z.ltb_lt in H2. lia.
    - apply Z.ltb_lt in H1. apply Z.leb_le in H2. lia. }
  assert (HD : decodes_back r = true).
  { destruct (Z_lt_le_dec r 65536).
    - apply decodes_back_below_65536; [lia|exact Hv].
    - apply decodes_back_beyond_65535. lia. }
  assert (Hlen : (0 < List.length p <= 4)%nat).
  { subst p. unfold utf8.AppendRune, utf8.three.
    repeat match goal with |- context [if ?c then _ else _] => destruct c end;
      cbn [List.length]; lia. }
  unfold decodes_back in HD. fold p in HD.
  apply andb_prop in HD. destruct HD as [HD H4].
  apply andb_prop in HD. destruct HD as [HD H3].
  apply andb_prop in HD. destruct HD as [H1 H2].
  split; [exact Hlen|]. split; [|split; [exact H2|]].
  - intros k Hk. rewrite forallb_forall in H1.
    specialize (H1 k). rewrite in_seq in H1.
    apply negb_true_iff. apply H1. lia.
  - apply Z.eqb_eq in H3, H4.
    destruct (utf8.DecodeRune p) as [x y]. cbn [fst snd] in *. congruence.
Qed.

Lemma ReadRune_loop_reads (io : IO) (rest : list byte) :
  reliable io ->
  forall (q acc : list byte) (fuel : nat) (b : Buffer),
    readable b -> remaining b = q ++ rest -> q <> [] ->
    (forall k, (0 < k < List.length q)%nat ->
               utf8.FullRune (acc ++ firstn k q) = false) ->
    utf8.FullRune (acc ++ q) = true ->
    (List.length q <= fuel)%nat ->
    exists b',
      ReadRune_loop fuel b io acc
      = Some (b', fst (utf8.DecodeRune (acc ++ q)), snd (utf8.DecodeRune (acc ++ q)), None)
      /\ readable b' /\ remaining b' = rest
      /\ size b' = size b /\ offset b' = offset b + len q.
Proof.
  intros Hio. induction q as [|c q IH]; intros acc fuel b Hb Hrem Hne Hwait Hfull Hfuel;
    [congruence|].
  destruct fuel as [|fuel]; [cbn in Hfuel; lia|].
  destruct (ReadByte_next b io c (q ++ rest) Hb Hio Hrem)
    as (b1 & HR & Hb1 & Hrem1 & Hsz1 & Hoff1).
  cbn [ReadRune_loop]. rewrite HR.
  destruct q as [|c' q].
  - rewrite Hfull. destruct (utf8.DecodeRune (acc ++ [c])) as [r n].
    exists b1. cbn [fst snd]. repeat split; try assumption; try apply Hb1.
  - replace (utf8.FullRune (acc ++ [c])) with false
      by (symmetry; apply (Hwait 1%nat); cbn; lia).
    destruct (IH (acc ++ [c]) fuel b1 Hb1 Hrem1) as (b' & HL & Hb' & Hrem' & Hsz & Hoff).
    + discriminate.
    + intros k Hk. rewrite <- app_assoc. apply (Hwait (S k)). cbn in *. lia.
    + rewrite <- app_assoc. exact Hfull.
    + cbn in *. lia.
    + exists b'. rewrite HL, <- app_assoc.
      repeat split; try assumption; try apply Hb'; try congruence.
      rewrite Hoff, Hoff1. unfold len. cbn [List.length]. lia.
Qed.

Lemma ReadRune_loop_starves (io : IO) :
  reliable io ->
  forall (q acc : list byte) (fuel : nat) (b : Buffer),
    readable b -> remaining b = q ->
    (forall k, (0 < k <= List.length q)%nat ->
               utf8.FullRune (acc ++ firstn k q) = false) ->
    (List.length q < fuel)%nat ->
    exists b',
      ReadRune_loop fuel b io acc = Some (b', 0, 0, Some EOF)
      /\ readingFinished b' = true
      /\ size b' = size b /\ offset b' = offset b + len q.
Proof.
  intros Hio. induction q as [|c q IH]; intros acc fuel b Hb Hrem Hwait Hfuel.
  - destruct fuel as [|fuel]; [cbn in Hfuel; lia|].
    destruct (ReadByte_at_the_end b io Hb Hio Hrem) as (b' & HR & Hfin & Hsz & Hoff).
    exists b'. cbn [ReadRune_loop]. rewrite HR.
    repeat split; try assumption. cbn. lia.
  - destruct fuel as [|fuel]; [cbn in Hfuel; lia|].
    destruct (ReadByte_next b io c q Hb Hio Hrem)
      as (b1 & HR & Hb1 & Hrem1 & Hsz1 & Hoff1).
    cbn [ReadRune_loop]. rewrite HR.
    replace (utf8.FullRune (acc ++ [c])) with false
      by (symmetry; apply (Hwait 1%nat); cbn; lia).
    destruct (IH (acc ++ [c]) fuel b1 Hb1 Hrem1) as (b' & HL & Hfin & Hsz & Hoff).
    + intros k Hk. rewrite <- app_assoc. apply (Hwait (S k)). cbn in *. lia.
    + cbn in *. lia.
    + exists b'. rewrite HL. repeat split; try assumption; try congruence.
      rewrite Hoff, Hoff1. unfold len. cbn [List.length]. lia.
Qed.

(** X23. A rune written with [WriteRune] is read back by [ReadRune]: on an
    unused buffer with any threshold, in a reliable environment, for every
    valid rune [r] (a code point up to U+10FFFF that is no surrogate half),
    [WriteRune] reports the 1 to 4 bytes of its UTF-8 encoding; after any
    further bytes [rest] were written, [ReadRune] returns [r] with that
    number as its size and no error, and exactly [rest] stays unread. *)
Theorem WriteRune_ReadRune_round_trip (t : Z) (b : Buffer) (r : Z)
  (rest : list byte) (io1 io2 io : IO) (fuel : nat) :
  0 <= t -> unused t b -> utf8.ValidRune r = true ->
  reliable io1 -> reliable io2 -> reliable io -> (4 <= fuel)%nat ->
  exists b1 b2 b3 n,
    WriteRune b r io1 = (b1, Ret (n, None)) /\ 1 <= n <= 4
    /\ Write b1 rest io2 = (b2, Ret (len rest, None))
    /\ ReadRune fuel b2 io = Some (b3, r, n, None)
    /\ remaining b3 = rest /\ Len b3 = len rest.
Proof.
  intros Ht Hb Hv H1 H2 Hio Hfuel.
  destruct (AppendRune_decodes_back r Hv) as (Hlen & Hwait & Hfull & Hdec).
  assert (Htmp : (if utf8.uint32 r <? utf8.RuneSelf then [toByte r] else utf8.AppendRune r)
                 = utf8.AppendRune r).
  { unfold utf8.AppendRune, utf8.RuneSelf, utf8.rune1Max.
    destruct (utf8.uint32 r <? 128) eqn:E; [|reflexivity].
    apply Z.ltb_lt in E.
    replace (utf8.uint32 r <=? 127) with true by (symmetry; apply Z.leb_le; lia).
    reflexivity. }
  destruct (Write_holds t [] (utf8.AppendRune r) b io1 Ht Hb H1) as (b1 & HW1 & Hb1 & _).
  destruct (Write_holds t _ rest b1 io2 Ht Hb1 H2) as (b2 & HW2 & Hb2 & _).
  cbn [app] in Hb2.
  destruct (holds_stream t _ b2 Ht Hb2) as (Hr2 & Hrem2 & _).
  destruct (ReadRune_loop_reads io rest Hio (utf8.AppendRune r) [] fuel b2 Hr2 Hrem2)
    as (b3 & HR & _ & Hrem3 & Hsz3 & Hoff3).
  { intros E. rewrite E in Hlen. cbn in Hlen. lia. }
  { intros k Hk. apply Hwait. exact Hk. }
  { exact Hfull. }
  { lia. }
  cbn [app] in HR. rewrite Hdec in HR. cbn [fst snd] in HR.
  exists b1, b2, b3, (len (utf8.AppendRune r)).
  unfold WriteRune, ReadRune. rewrite Htmp, HW1, HW2, HR.
  split; [reflexivity|]. split; [unfold len; lia|].
  split; [reflexivity|]. split; [reflexivity|]. split; [exact Hrem3|].
  unfold Len. rewrite Hsz3, Hoff3, (holds_size _ _ _ Hb2), (holds_offset _ _ _ Hb2), len_app.
  lia.
Qed.

Lemma WriteRune_ReadRune_round_trip_witness :
  exists b1 b2 b3 n,
    WriteRune (fresh 2 true) 0x20AC io_ok = (b1, Ret (n, None)) /\ 1 <= n <= 4
    /\ Write b1 (bytes "42") io_ok = (b2, Ret (len (bytes "42"), None))
    /\ ReadRune 4 b2 io_ok = Some (b3, 0x20AC, n, None)
    /\ remaining b3 = bytes "42" /\ Len b3 = len (bytes "42").
Proof.
  apply (WriteRune_ReadRune_round_trip 2 (fresh 2 true) 0x20AC (bytes "42")
           io_ok io_ok io_ok 4).
  - lia.
  - apply fresh_holds. lia.
  - reflexivity.
  - apply reliable_io_ok.
  - apply reliable_io_ok.
  - apply reliable_io_ok.
  - lia.
Defined.

(** X24. [ReadRune] can take more bytes than the size it reports: on a
    buffer that was only written, in a reliable environment, when the
    content begins with a byte that starts a sequence of several bytes and
    the byte after it is no continuation byte (it is below 0x80 or above
    0xBF), [ReadRune] returns [utf8.RuneError] with size 1 and no error,
    but both bytes are gone from the stream. *)
Theorem ReadRune_takes_the_byte_after_a_broken_sequence (t : Z) (b0 : Buffer)
  (ws : list (list byte * IO)) (io : IO) (c0 c1 : byte) (rest : list byte)
  (fuel : nat) :
  0 <= t -> unused t b0 -> Forall (fun w => reliable (snd w)) ws -> reliable io ->
  List.concat (map fst ws) = c0 :: c1 :: rest ->
  utf8.FullRune [c0] = false ->
  byteZ c1 < 0x80 \/ 0xBF < byteZ c1 ->
  (2 <= fuel)%nat ->
  exists b',
    ReadRune fuel (fst (writeAll b0 ws)) io = Some (b', utf8.RuneError, 1, None)
    /\ remaining b' = rest /\ Len b' = len rest.
Proof.
  intros Ht Hb0 Hws Hio Hs Hlead Hc1 Hfuel.
  destruct (writeAll_holds t ws Ht Hws [] b0 Hb0) as (b & HW & Hh & _).
  cbn [app] in Hh. rewrite HW. cbn [fst].
  destruct (holds_stream t _ b Ht Hh) as (Hb & Hrem & _).
  rewrite Hs in Hrem.
  pose proof (holds_size _ _ _ Hh) as Hsize. rewrite Hs in Hsize.
  pose proof (holds_offset _ _ _ Hh) as Hzero.
  assert (Hpair : utf8.FullRune [c0; c1] = true
                  /\ utf8.DecodeRune [c0; c1] = (utf8.RuneError, 1)).
  { revert Hlead. unfold utf8.FullRune, utf8.DecodeRune, utf8.at_, len.
    cbn [List.length nth Z.of_nat Pos.of_succ_nat Pos.succ].
    generalize (byteZ c0). intros v. unfold utf8.first.
    repeat match goal with
           | |- context [if ?c then _ else _] =>
               match c with
               | (v <? _) => destruct c
               | (v =? _) => destruct c
               end
           end;
      cbn; intros Hlead; try discriminate Hlead;
      unfold utf8.hicb, utf8.locb;
      (destruct Hc1; zbool; cbn; split; reflexivity). }
  destruct Hpair as [Hfull Hdec].
  destruct (ReadRune_loop_reads io rest Hio [c0; c1] [] fuel b Hb Hrem)
    as (b' & HR & _ & Hrem' & Hsz & Hoff).
  { discriminate. }
  { intros k Hk. cbn in Hk. assert (k = 1%nat) as -> by lia. exact Hlead. }
  { exact Hfull. }
  { cbn. lia. }
  cbn [app] in HR. rewrite Hdec in HR. cbn [fst snd] in HR.
  exists b'. unfold ReadRune. rewrite HR.
  split; [reflexivity|]. split; [exact Hrem'|].
  unfold Len. rewrite Hsz, Hoff, Hsize, Hzero. unfold len. cbn [List.length]. lia.
Qed.

Lemma ReadRune_takes_the_byte_after_a_broken_sequence_witness :
  exists b',
    ReadRune 2 (fst (writeAll (fresh 1 false) [([xc3; x41; x42], io_ok)])) io_ok
    = Some (b', utf8.RuneError, 1, None)
    /\ remaining b' = [x42].
Proof.
  destruct (ReadRune_takes_the_byte_after_a_broken_sequence 1 (fresh 1 false)
              [([xc3; x41; x42], io_ok)] io_ok xc3 x41 [x42] 2)
    as (b' & HR & Hrem' & _).
  - lia.
  - apply fresh_holds. lia.
  - repeat constructor; discriminate.
  - apply reliable_io_ok.
  - reflexivity.
  - reflexivity.
  - left. reflexivity.
  - lia.
  - exists b'. split; [exact HR|exact Hrem'].
Defined.

(** X25. A rune cut off by the end of the data is lost without a trace: on
    a buffer that was only written, in a reliable environment, when the
    content is the beginning of a sequence that is not complete (no prefix
    of it is a full rune), [ReadRune] reads all of it and returns rune 0,
    size 0 and [io.EOF]; reading is then finished and [Len] is 0.  So on a
    buffer that holds nothing. *)
Theorem ReadRune_drops_a_truncated_rune (t : Z) (b0 : Buffer)
  (ws : list (list byte * IO)) (io : IO) (fuel : nat) :
  0 <= t -> unused t b0 -> Forall (fun w => reliable (snd w)) ws -> reliable io ->
  let s := List.concat (map fst ws) in
  (forall k, (0 < k <= List.length s)%nat -> utf8.FullRune (firstn k s) = false) ->
  (List.length s < fuel)%nat ->
  exists b',
    ReadRune fuel (fst (writeAll b0 ws)) io = Some (b', 0, 0, Some EOF)
    /\ readingFinished b' = true
    /\ Len b' = 0.
Proof.
  intros Ht Hb0 Hws Hio s Hwait Hfuel.
  destruct (writeAll_holds t ws Ht Hws [] b0 Hb0) as (b & HW & Hh & _).
  cbn [app] in Hh. fold s in Hh. rewrite HW. cbn [fst].
  destruct (holds_stream t s b Ht Hh) as (Hb & Hrem & _).
  pose proof (holds_size _ _ _ Hh) as Hsize.
  pose proof (holds_offset _ _ _ Hh) as Hzero.
  destruct (ReadRune_loop_starves io Hio s [] fuel b Hb Hrem)
    as (b' & HR & Hfin & Hsz & Hoff).
  { intros k Hk. cbn [app]. apply Hwait. exact Hk. }
  { exact Hfuel. }
  exists b'. unfold ReadRune. rewrite HR.
  split; [reflexivity|]. split; [exact Hfin|]. unfold Len. lia.
Qed.

Lemma ReadRune_drops_a_truncated_rune_witness :
  exists b',
    ReadRune 3 (fst (writeAll (fresh 1 false) [([xe2; x82], io_ok)])) io_ok
    = Some (b', 0, 0, Some EOF)
    /\ readingFinished b' = true.
Proof.
  destruct (ReadRune_drops_a_truncated_rune 1 (fresh 1 false)
              [([xe2; x82], io_ok)] io_ok 3)
    as (b' & HR & Hfin & _).
  - lia.
  - apply fresh_holds. lia.
  - repeat constructor; discriminate.
  - apply reliable_io_ok.
  - intros k Hk. cbn in Hk.
    assert (k = 1 \/ k = 2)%nat as [-> | ->] by lia; reflexivity.
  - cbn. lia.
  - exists b'. split; [exact HR|exact Hfin].
Defined.

(** ** Encryption *)

Lemma sealed_ext (b b' : Buffer) :
  encrypt b' = encrypt b -> writeFile b' = writeFile b \/ writeFile b' = None ->
  readFile b' = readFile b \/ readFile b' = None ->
  sealed b -> sealed b'.
Proof.
  intros He Hw Hr (Se & Sw & Sr). split; [congruence|]. split.
  - destruct Hw as [-> | ->]; [exact Sw|discriminate].
  - intros h E. destruct Hr as [Hr|Hr]; rewrite Hr in E; [apply Sr; exact E|discriminate E].
Qed.

Lemma finishWriting_sealed (b : Buffer) : sealed b -> sealed (finishWriting b).
Proof.
  apply sealed_ext; unfold finishWriting; destruct (writingFinished b); cbn; auto.
Qed.

Lemma readFromFile_sealed (b : Buffer) (n : nat) (io : IO) :
  sealed b -> sealed (fst (fst (readFromFile b n io))).
Proof.
  intros (He & Hw & Hr). unfold readFromFile, handleRead.
  destruct (readFile b) as [h|] eqn:Hh.
  - cbn. split; [exact He|]. split; [exact Hw|].
    intros h' E. cbn in E. injection E as <-. cbn. apply Hr. reflexivity.
  - rewrite He. destruct (canOpen b io).
    + destruct (decrypt_reader_ok io); cbn.
      * split; [exact He|]. split; [exact Hw|].
        intros h' E. cbn in E. injection E as <-. cbn. discriminate.
      * split; [exact He|]. split; [exact Hw|].
        intros h' E. rewrite Hh in E. discriminate E.
    + cbn. split; [exact He|]. split; [exact Hw|].
      intros h' E. rewrite Hh in E. discriminate E.
Qed.

Lemma readDeferred_sealed (b : Buffer) (n want : nat) :
  sealed b -> sealed (readDeferred b n want).
Proof.
  apply sealed_ext; unfold readDeferred;
    destruct (n <? want)%nat; cbn;
    try destruct (readingFinished b); try destruct (readFile b) eqn:E; cbn;
    rewrite ?E; auto.
Qed.

Lemma Read_sealed (b : Buffer) (want : nat) (io : IO) :
  sealed b -> sealed (fst (fst (Read b want io))).
Proof.
  intros Hs. unfold Read.
  destruct (readingFinished b); [exact Hs|].
  pose proof (finishWriting_sealed b Hs) as Hf.
  revert Hf. generalize (finishWriting b). intros B HB.
  assert (Hbuf : forall k, sealed (fst (readFromBuffer B k))).
  { intros k. destruct HB as (He & Hw & Hr).
    split; [exact He|split; [exact Hw|exact Hr]]. }
  destruct (buff B) as [|c l] eqn:Hbuff.
  - destruct (useFile B).
    + pose proof (readFromFile_sealed B want io HB) as H.
      destruct (readFromFile B want io) as [[b1 o1] e1]. cbn [fst] in *.
      apply readDeferred_sealed. exact H.
    + cbn [fst]. apply readDeferred_sealed. exact HB.
  - specialize (Hbuf want).
    destruct (readFromBuffer B want) as [b1 o1] eqn:E1. cbn [fst] in Hbuf.
    destruct ((Datatypes.length o1 =? want)%nat || negb (useFile b1)).
    + cbn [fst]. apply readDeferred_sealed. exact Hbuf.
    + pose proof (readFromFile_sealed b1 (want - Datatypes.length o1) io Hbuf) as H.
      destruct (readFromFile b1 (want - Datatypes.length o1) io) as [[b2 o2] e2].
      cbn [fst] in *. apply readDeferred_sealed. exact H.
Qed.

Lemma openReaderAt_sealed (b : Buffer) (io : IO) :
  sealed b ->
  match openReaderAt b io with
  | inl (b', h) => sealed b'
  | inr _ => True
  end.
Proof.
  intros (He & Hw & Hr). unfold openReaderAt.
  destruct (readFile b) as [h|] eqn:Hh;
    [split; [exact He|split; [exact Hw|rewrite Hh; exact Hr]]|].
  rewrite He. destruct (canOpen b io); [|exact I].
  destruct (decrypt_reader_ok io); [|exact I].
  split; [exact He|]. split; [exact Hw|].
  intros h' E. cbn in E. injection E as <-. cbn. discriminate.
Qed.

Lemma ReadAt_sealed (b : Buffer) (want : nat) (off : Z) (io : IO) :
  sealed b -> sealed (fst (fst (ReadAt b want off io))).
Proof.
  intros Hs. unfold ReadAt.
  destruct (off <? 0); [exact Hs|].
  destruct (want =? 0)%nat; [exact Hs|].
  destruct (off >=? size b); [exact Hs|].
  pose proof (finishWriting_sealed b Hs) as Hf.
  revert Hf. generalize (finishWriting b). intros B HB. cbv zeta.
  match goal with |- context [if ?c then _ else _] => destruct c end; [|exact HB].
  pose proof (openReaderAt_sealed B io HB) as H.
  destruct (openReaderAt B io) as [[b1 h]|e]; [|exact HB].
  destruct (isReaderAt (kind h)); [|exact H].
  destruct (fileReadAt _ _ _) as [o2 [[]|]]; exact H.
Qed.

Lemma Write_sealed (b : Buffer) (data : list byte) (io : IO) :
  sealed b -> sealed (fst (Write b data io)).
Proof.
  intros (He & Hw & Hr).
  destruct b as [mx wf rf sz o dir enc key bf wfile rfile use fname fdata].
  cbn in He, Hw, Hr. subst enc.
  unfold Write, writeToFile, sealed. cbn -[tempName].
  repeat match goal with
         | |- context [if ?c then _ else _] => destruct c; cbn -[tempName]
         | |- context [match ?c with _ => _ end] => destruct c; cbn -[tempName]
         end;
    (split; [reflexivity|]; split; [try exact Hw; try discriminate|exact Hr]).
Qed.

Lemma step_sealed (b : Buffer) (o : op) : sealed b -> sealed (fst (step b o)).
Proof.
  intros Hs. destruct o as [data io|want io|want off io|n| |key]; cbn [step].
  - pose proof (Write_sealed b data io Hs) as H.
    destruct (Write b data io) as [b' r]. exact H.
  - pose proof (Read_sealed b want io Hs) as H.
    destruct (Read b want io) as [[b' out] err]. exact H.
  - pose proof (ReadAt_sealed b want off io Hs) as H.
    destruct (ReadAt b want off io) as [[b' out] err]. exact H.
  - assert (H : sealed (fst (Next b n))).
    { revert Hs. apply sealed_ext; unfold Next;
        destruct ((n <? 0) || (maxAlloc <? n)); try destruct (buff b);
        try destruct (n =? 0); cbn; auto. }
    destruct (Next b n) as [b' r]. exact H.
  - cbn [fst]. revert Hs. apply sealed_ext; unfold Reset; cbn;
      destruct (String.eqb (filename b) EmptyString); cbn; auto.
  - destruct Hs as (He & Hw & Hr). unfold EnableEncryption.
    destruct key; cbn; repeat split; assumption.
Qed.

Lemma run_sealed (os : list op) :
  forall b : Buffer, sealed b -> sealed (fst (run b os)).
Proof.
  induction os as [|o os IH]; intros b K; [exact K|].
  cbn [run]. pose proof (step_sealed b o K) as H1.
  destruct (step b o) as [b1 e]. specialize (IH b1 H1).
  destruct (run b1 os) as [b2 es]. exact IH.
Qed.

(** X26. Once encryption is on, the plain file is never touched: if
    [EnableEncryption] was called on a buffer before its first write, then
    in every state that calls can reach, whatever the environment answers,
    encryption stays on, the write handle, if there is one, is the
    encrypting writer of [sio], and the read handle, if there is one, is
    one of the two decrypting readers of [sio], never the file itself. *)
Theorem encryption_keeps_the_plain_file_out_of_reach (t : Z) (b0 : Buffer)
  (key : option (list byte)) (os : list op) :
  0 <= t -> unused t b0 ->
  let b := fst (run (fst (EnableEncryption b0 key)) os) in
  encrypt b = true
  /\ (writeFile b = None \/ writeFile b = Some SioEncryptWriter)
  /\ (readFile b = None
      \/ exists h, readFile b = Some h
                   /\ (kind h = SioDecryptReaderWrapper
                       \/ kind h = SioDecryptReaderAtWrapper)).
Proof.
  intros Ht Hb0 b.
  assert (Hs : sealed (fst (EnableEncryption b0 key))).
  { pose proof Hb0 as [_ _ _ _ _ _ Hrf Huse Hfile].
    assert (Hu : useFile b0 = false) by (rewrite Huse; apply Z.ltb_ge; cbn; lia).
    rewrite Hu in Hfile. destruct Hfile as (Hwf & _).
    unfold EnableEncryption. destruct key; cbn; repeat split; cbn;
      try (rewrite Hwf; discriminate); intros h E; rewrite Hrf in E; discriminate E. }
  destruct (run_sealed os _ Hs) as (He & Hw & Hr). fold b in He, Hw, Hr.
  split; [exact He|]. split.
  - destruct (writeFile b) as [[|]|]; [congruence|right; reflexivity|left; reflexivity].
  - destruct (readFile b) as [h|]; [right|left; reflexivity].
    exists h. split; [reflexivity|].
    specialize (Hr h eq_refl). destruct (kind h); [congruence|left|right]; reflexivity.
Qed.

Lemma encryption_keeps_the_plain_file_out_of_reach_witness :
  let b := fst (run (fst (EnableEncryption (fresh 2 false) (Some (repeat x07 32))))
                  [OpWrite (bytes "secret") io_ok; OpReadAt 2 3 io_ok]) in
  encrypt b = true
  /\ (writeFile b = None \/ writeFile b = Some SioEncryptWriter)
  /\ (readFile b = None
      \/ exists h, readFile b = Some h
                   /\ (kind h = SioDecryptReaderWrapper
                       \/ kind h = SioDecryptReaderAtWrapper)).
Proof.
  apply (encryption_keeps_the_plain_file_out_of_reach 2 (fresh 2 false)).
  - lia.
  - apply fresh_holds. lia.
Defined.

Lemma Write_plain (b : Buffer) (data : list byte) (io : IO) :
  encrypt b = false -> writeFile b <> Some SioEncryptWriter ->
  encrypt (fst (Write b data io)) = false
  /\ writeFile (fst (Write b data io)) <> Some SioEncryptWriter.
Proof.
  intros He Hw.
  destruct b as [mx wf rf sz o dir enc key bf wfile rfile use fname fdata].
  cbn in He, Hw. subst enc.
  unfold Write, writeToFile. cbn -[tempName].
  repeat match goal with
         | |- context [if ?c then _ else _] => destruct c; cbn -[tempName]
         | |- context [match ?c with _ => _ end] => destruct c; cbn -[tempName]
         end;
    (split; [reflexivity|]; try exact Hw; discriminate).
Qed.

Lemma writeAll_plain (ws : list (list byte * IO)) :
  forall b : Buffer,
    encrypt b = false -> writeFile b <> Some SioEncryptWriter ->
    encrypt (fst (writeAll b ws)) = false
    /\ writeFile (fst (writeAll b ws)) <> Some SioEncryptWriter.
Proof.
  induction ws as [|[data io] ws IH]; intros b He Hw; [split; assumption|].
  cbn [writeAll].
  destruct (Write_plain b data io He Hw) as [He1 Hw1].
  destruct (Write b data io) as [b1 r]. cbn [fst] in He1, Hw1.
  specialize (IH b1 He1 Hw1). destruct (writeAll b1 ws) as [b2 rs]. exact IH.
Qed.

(** X27. [EnableEncryption] comes too late once the file exists: on a
    buffer without encryption whose content has overflowed into the file,
    [EnableEncryption] sets the flag but leaves the write handle what it
    was, the file itself; the writes that follow are accepted and go
    through that handle into the same file. *)
Theorem late_EnableEncryption_leaves_the_file_plain (t : Z) (b0 : Buffer)
  (ws : list (list byte * IO)) (key : option (list byte)) (data : list byte)
  (io : IO) :
  0 <= t -> unused t b0 -> encrypt b0 = false ->
  Forall (fun w => reliable (snd w)) ws -> reliable io ->
  t < len (List.concat (map fst ws)) ->
  let b := fst (writeAll b0 ws) in
  let b1 := fst (EnableEncryption b key) in
  let b2 := fst (Write b1 data io) in
  encrypt b1 = true /\ writeFile b1 = Some OsFileW
  /\ snd (Write b1 data io) = Ret (len data, None)
  /\ writeFile b2 = Some OsFileW
  /\ filename b2 = filename b
  /\ file_data b2 = file_data b ++ data.
Proof.
  intros Ht Hb0 He0 Hws Hio Hover b b1 b2.
  destruct (writeAll_holds t ws Ht Hws [] b0 Hb0) as (b' & HW & Hb & _).
  cbn [app] in Hb.
  assert (Hb' : b' = b) by (subst b; rewrite HW; reflexivity).
  rewrite Hb' in Hb. clear HW Hb'.
  assert (Hw0 : writeFile b0 <> Some SioEncryptWriter).
  { pose proof Hb0 as [_ _ _ _ _ _ _ Huse Hfile].
    assert (Hu : useFile b0 = false) by (rewrite Huse; apply Z.ltb_ge; cbn; lia).
    rewrite Hu in Hfile. destruct Hfile as (-> & _). discriminate. }
  destruct (writeAll_plain ws b0 He0 Hw0) as [He Hw]. fold b in He, Hw.
  pose proof Hb as [Hmax Hwf Hrf Hsz Hoff Hbuff Hrfile Huse Hfile].
  assert (Hu : useFile b = true) by (rewrite Huse; apply Z.ltb_lt; exact Hover).
  rewrite Hu in Hfile. destruct Hfile as (Hsome & Hname & Hdata).
  assert (Hplain : writeFile b = Some OsFileW).
  { destruct (writeFile b) as [[|]|]; [reflexivity|congruence|congruence]. }
  assert (H1 : encrypt b1 = true /\ writeFile b1 = Some OsFileW
               /\ writingFinished b1 = false /\ useFile b1 = true
               /\ filename b1 = filename b /\ file_data b1 = file_data b).
  { subst b1. unfold EnableEncryption.
    destruct key; cbn; repeat split; assumption || reflexivity. }
  destruct H1 as (E1 & W1 & F1 & U1 & N1 & D1).
  destruct Hio as (_ & _ & Hfw & _).
  split; [exact E1|]. split; [exact W1|].
  subst b2. unfold Write, writeToFile. rewrite F1, U1, W1, Hfw. cbn.
  rewrite W1, N1, D1. repeat split.
Qed.

Lemma late_EnableEncryption_leaves_the_file_plain_witness :
  let b := fst (writeAll (fresh 2 false) [(bytes "abcdef", io_ok)]) in
  let b1 := fst (EnableEncryption b (Some (repeat x07 32))) in
  let b2 := fst (Write b1 (bytes "secret") io_ok) in
  encrypt b1 = true /\ writeFile b1 = Some OsFileW
  /\ snd (Write b1 (bytes "secret") io_ok) = Ret (len (bytes "secret"), None)
  /\ writeFile b2 = Some OsFileW
  /\ filename b2 = filename b
  /\ file_data b2 = file_data b ++ bytes "secret".
Proof.
  apply (late_EnableEncryption_leaves_the_file_plain 2 (fresh 2 false)
           [(bytes "abcdef", io_ok)]).
  - lia.
  - apply fresh_holds. lia.
  - reflexivity.
  - repeat constructor; discriminate.
  - apply reliable_io_ok.
  - vm_compute. reflexivity.
Defined.

(** ** The temporary file *)

(** X28. The temporary file is made where [ChangeTempDir] said, and stays
    there: on an unused buffer, after a [ChangeTempDir] that succeeded with
    the absolute path [path], the [Write] that overflows the memory creates
    the file under a name that begins with [path]; a later
    [ChangeTempDir], successful or not, and later writes do not change the
    name of the file. *)
Theorem temporary_file_is_made_in_the_chosen_directory (t : Z) (b0 : Buffer)
  (path rnd : string) (data : list byte) (io : IO) :
  0 <= t -> unused t b0 -> t < len data ->
  reliable io -> tempfile io = Some rnd -> path <> EmptyString ->
  let b1 := fst (Write (fst (ChangeTempDir b0 (Some path))) data io) in
  String.prefix path (filename b1) = true
  /\ forall (abs : option string) (more : list byte) (io' : IO),
       filename (fst (Write (fst (ChangeTempDir b1 abs)) more io')) = filename b1.
Proof.
  intros Ht Hb0 Hover (Htmp & Henc & Hfw & _) Hrnd Hpath b1.
  pose proof (ChangeTempDir_unused t b0 (Some path) Hb0) as Hb.
  assert (Hdir : tempFileDir (fst (ChangeTempDir b0 (Some path))) = path) by reflexivity.
  revert Hb Hdir b1. generalize (fst (ChangeTempDir b0 (Some path))). intros b Hb Hdir b1.
  pose proof Hb as [Hmax Hwf Hrf Hsz Hoff Hbuff Hrfile Huse Hfile].
  assert (Hu : useFile b = false) by (rewrite Huse; apply Z.ltb_ge; cbn; lia).
  rewrite Hu in Hfile. destruct Hfile as (Hw & Hname & Hdata).
  rewrite firstn_nil in Hbuff.
  assert (H1 : filename b1 = tempName path rnd /\ useFile b1 = true
               /\ writingFinished b1 = false).
  { subst b1. unfold Write, writeToFile. rewrite Hwf, Hu, Hbuff, Hmax. cbn [negb].
    replace (len [] + len data <=? t) with false
      by (symmetry; apply Z.leb_gt; cbn; lia).
    replace (t - len [] <? 0) with false by (symmetry; apply Z.ltb_ge; cbn; lia).
    rewrite Hrnd, Henc. cbn -[tempName]. rewrite Hfw. cbn -[tempName].
    rewrite ?Hdir, ?Hwf, andb_false_r. cbn -[tempName]. rewrite ?Hwf. repeat split. }
  destruct H1 as (N1 & U1 & F1).
  split.
  - rewrite N1. unfold tempName.
    destruct (String.eqb path EmptyString) eqn:E;
      [apply String.eqb_eq in E; contradiction|].
    generalize ("/go-disk-buffer-" ++ rnd ++ ".tmp")%string. intros rest.
    clear. induction path as [|a path IH]; [destruct rest; reflexivity|].
    cbn. destruct (Ascii.ascii_dec a a) as [_|N]; [exact IH|congruence].
  - intros abs more io'.
    assert (H2 : filename (fst (ChangeTempDir b1 abs)) = filename b1
                 /\ useFile (fst (ChangeTempDir b1 abs)) = true
                 /\ writingFinished (fst (ChangeTempDir b1 abs)) = false).
    { unfold ChangeTempDir. destruct abs; cbn; auto. }
    revert H2. generalize (fst (ChangeTempDir b1 abs)). intros c (N2 & U2 & F2).
    unfold Write, writeToFile. rewrite F2, U2. cbn [negb].
    destruct (writeFile c); [destruct (file_write io')|]; cbn; exact N2.
Qed.

Lemma temporary_file_is_made_in_the_chosen_directory_witness :
  let b1 := fst (Write (fst (ChangeTempDir (fresh 2 false) (Some "/var/spool"%string)))
                   (bytes "abcdef") io_ok) in
  String.prefix "/var/spool" (filename b1) = true
  /\ filename (fst (Write (fst (ChangeTempDir b1 (Some "/elsewhere"%string)))
                      (bytes "gh") io_ok)) = filename b1.
Proof.
  destruct (temporary_file_is_made_in_the_chosen_directory 2 (fresh 2 false)
              "/var/spool" "42" (bytes "abcdef") io_ok) as [H1 H2].
  - lia.
  - apply fresh_holds. lia.
  - vm_compute. reflexivity.
  - apply reliable_io_ok.
  - reflexivity.
  - discriminate.
  - split; [exact H1|apply H2].
Defined.
